(** * The laughing-owl example of sigma.js: graph edits, reducers and the
      level-of-detail toggle

    This development embeds [src/examples/laughing-owl/index.ts] and proves
    properties of its event handlers.  The handlers mutate a graphology
    multigraph, two ambient state objects ([state] and [contextState]) and
    read the camera ratio; they are modelled here in a state-and-exception
    monad over a [World] record that holds those objects.

    Conventions.
    - An absent attribute or an [undefined] field is [None].
    - A JavaScript exception aborts the running handler and keeps every
      mutation made before it: a handler maps a world to the world reached
      together with [Normal v] or [Throw e].
    - [Set<string>] is a list of strings queried with [has].
    - Attribute bags are records holding the attributes the example reads
      or writes, typed as the data model types them, plus an uninterpreted
      remainder.
    - Objects are modelled by value.  The example shares attribute
      objects: a removed edge, its record in the edit buffer, the bridge
      made from it and the edge added back hold the same object, as do a
      removed node and its snapshot, and an imported graph and the document
      it came from.  The statements below either involve no write to an
      attribute or are about the graph alone. *)

From Stdlib Require Import List String Ascii Bool NArith ZArith QArith Lia Permutation DecimalString.
Import ListNotations.
Local Open Scope string_scope.
Local Open Scope list_scope.

(** ** JavaScript values and coercions *)

Module JS.

(** [ToBoolean] on an optional string: [undefined] and [""] are falsy. *)
Definition truthy_string (v : option string) : bool :=
  match v with
  | Some s => negb (s =? "")
  | None => false
  end.

(** [ToBoolean] on an optional boolean. *)
Definition truthy_bool (v : option bool) : bool :=
  match v with
  | Some b => b
  | None => false
  end.

(** [v == b] for a boolean or [undefined] value [v]: [undefined] is
    loosely equal to neither [true] nor [false]. *)
Definition loose_eq_bool (v : option bool) (b : bool) : bool :=
  match v with
  | Some x => Bool.eqb x b
  | None => false
  end.

(** [v === s] and [v !== s] between an optional string and a string. *)
Definition strict_eq (v : option string) (s : string) : bool :=
  match v with
  | Some x => x =? s
  | None => false
  end.

(** ['' + v]: the string coercion graphology applies to node keys. *)
Definition to_string (v : option string) : string :=
  match v with
  | Some s => s
  | None => "undefined"
  end.

(** [Set.prototype.has]. *)
Definition has (s : list string) (x : string) : bool :=
  existsb (String.eqb x) s.

(** [new Set(iterable)]; [new Set(undefined)] is the empty set. *)
Definition new_Set (v : option (list string)) : list string :=
  match v with
  | Some l => l
  | None => []
  end.

(** *** The order of the own properties of an object *)

Definition digit (c : ascii) : option N :=
  let n := N_of_ascii c in
  if ((48 <=? n) && (n <=? 57))%N then Some (n - 48)%N else None.

Fixpoint digits (s : string) (acc : N) : option N :=
  match s with
  | EmptyString => Some acc
  | String c s' =>
      match digit c with
      | Some d => digits s' (10 * acc + d)%N
      | None => None
      end
  end.

(** The array index a property key denotes, if it is the canonical
    decimal form of an integer below [2^32 - 1]. *)
Definition array_index (s : string) : option N :=
  match s with
  | EmptyString => None
  | String c s' =>
      if (Ascii.eqb c "0") && negb (s' =? "") then None
      else match digits s 0%N with
           | Some n => if (n <? 4294967295)%N then Some n else None
           | None => None
           end
  end.

Section PropertyOrder.

(** Properties of type [A], each under the key [key_of] gives. *)
Variable A : Type.
Variable key_of : A -> string.

Fixpoint insert_index (n : N) (p : A) (l : list (N * A)) : list (N * A) :=
  match l with
  | [] => [(n, p)]
  | (m, q) :: l' =>
      if (n <? m)%N then (n, p) :: l else (m, q) :: insert_index n p l'
  end.

Fixpoint split_keys (o : list A) : list (N * A) * list A :=
  match o with
  | [] => ([], [])
  | p :: o' =>
      let (ix, named) := split_keys o' in
      match array_index (key_of p) with
      | Some n => (insert_index n p ix, named)
      | None => (ix, p :: named)
      end
  end.

(** The properties, given in creation order, in the order [for (... in
    ...)] visits them: array indices in ascending order, then the other
    keys in creation order. *)
Definition for_in (o : list A) : list A :=
  let (ix, named) := split_keys o in map snd ix ++ named.

End PropertyOrder.

Arguments insert_index {A} n p l.
Arguments split_keys {A} key_of o.
Arguments for_in {A} key_of o.

Inductive Error : Type :=
| TypeError
| NotFoundGraphError
| UsageGraphError.

Inductive Completion (A : Type) : Type :=
| Normal (a : A)
| Throw (e : Error).

Arguments Normal {A} a.
Arguments Throw {A} e.

End JS.

Import JS.

(** ** Attribute bags *)

Module NodeAttr.

(** Node attributes, which sigma also hands to the node reducer as the
    base display data. *)
Record t : Type := mk {
  label : option string;
  color : option string;
  hidden : option bool;
  highlighted : option bool;
  isExtraData : option bool;
  isMalop : option bool;
  neighbors : option (list string);
  rest : list (string * string)
}.

(** An attribute of the remainder, by name. *)
Definition other (name : string) (a : t) : option string :=
  option_map snd (find (fun p => fst p =? name) (rest a)).

Definition set_label (v : string) (a : t) : t :=
  mk (Some v) (color a) (hidden a) (highlighted a) (isExtraData a)
     (isMalop a) (neighbors a) (rest a).

Definition set_color (v : string) (a : t) : t :=
  mk (label a) (Some v) (hidden a) (highlighted a) (isExtraData a)
     (isMalop a) (neighbors a) (rest a).

Definition set_hidden (v : bool) (a : t) : t :=
  mk (label a) (color a) (Some v) (highlighted a) (isExtraData a)
     (isMalop a) (neighbors a) (rest a).

Definition set_highlighted (v : bool) (a : t) : t :=
  mk (label a) (color a) (hidden a) (Some v) (isExtraData a)
     (isMalop a) (neighbors a) (rest a).

End NodeAttr.

Module EdgeAttr.

(** Edge attributes, also the base display data of the edge reducer. *)
Record t : Type := mk {
  label : option string;
  color : option string;
  hidden : option bool;
  attr : option bool;
  rest : list (string * string)
}.

Definition set_color (v : string) (a : t) : t :=
  mk (label a) (Some v) (hidden a) (attr a) (rest a).

Definition set_hidden (v : bool) (a : t) : t :=
  mk (label a) (color a) (Some v) (attr a) (rest a).

End EdgeAttr.

(** ** The graphology multigraph

    [graphology] is the external graph library the example imports.  Like
    the JavaScript built-ins it is modelled by its documented behaviour,
    for the graph the example creates ([new Graph({multi: true})]: mixed,
    parallel edges and self-loops allowed): nodes and edges are kept in
    insertion order; an edge has a key, given or produced by an incremental
    generator, and is directed or undirected; a missing node or edge raises
    [NotFoundGraphError] and a duplicate key [UsageGraphError]; dropping a
    node drops its edges.  Each node indexes its edges by neighbor, in
    three objects ([in], [out], [undirected]) whose entries hold the edges
    between the two nodes in insertion order; an entry is created with the
    first edge between the two nodes and deleted with the last.  The
    edges of a node are visited object by object, incoming first, then
    outgoing except self-loops, then undirected, and within an object
    entry by entry in the order of [for (... in ...)].

    Attribute bags are values here.  The library and the example keep
    references: an edge added with the attributes of another shares them,
    and an imported graph shares the attributes of the document.  What is
    stated below about attributes is stated where no such shared bag is
    written in between. *)

Module Graphology.

(** Edge keys are either given by the importer or produced by the
    generator; the library assumes that the two never collide. *)
Inductive EdgeKey : Type :=
| Given (s : string)
| Generated (n : N).

Definition key_eqb (a b : EdgeKey) : bool :=
  match a, b with
  | Given x, Given y => x =? y
  | Generated m, Generated n => N.eqb m n
  | _, _ => false
  end.

Record EdgeData : Type := mkEdge {
  key : EdgeKey;
  source : string;
  target : string;
  attributes : EdgeAttr.t;
  undirected : bool
}.

(** An entry of the adjacency index: the edges of one kind between two
    nodes.  A directed entry is [out[target]] of its source and
    [in[source]] of its target; an undirected one is [undirected[...]] of
    both, whichever way round its edges were added. *)
Record Slot : Type := mkSlot {
  slot_undirected : bool;
  slot_source : string;
  slot_target : string
}.

(** The nodes and the edges in insertion order, the counter of the edge
    key generator, and the entries of the adjacency index in creation
    order. *)
Record Graph : Type := mkGraph {
  nodes : list (string * NodeAttr.t);
  edges : list EdgeData;
  edgeKeyGenerator : N;
  adjacency : list Slot
}.

(** The entry [sl] is the one edge [e] belongs to. *)
Definition connects (sl : Slot) (e : EdgeData) : bool :=
  Bool.eqb (slot_undirected sl) (undirected e)
  && (((slot_source sl =? source e) && (slot_target sl =? target e))
      || (undirected e && (slot_source sl =? target e) && (slot_target sl =? source e))).

(** Indexing a new edge: its entry is created unless there is one. *)
Definition attach (adj : list Slot) (e : EdgeData) : list Slot :=
  if existsb (fun sl => connects sl e) adj then adj
  else adj ++ [mkSlot (undirected e) (source e) (target e)].

Definition attach_all (adj : list Slot) (es : list EdgeData) : list Slot :=
  fold_left attach es adj.

(** The index once edges were dropped and [es] are left: an entry
    without an edge is deleted. *)
Definition detach (es : list EdgeData) (adj : list Slot) : list Slot :=
  filter (fun sl => existsb (connects sl) es) adj.

Definition hasNode (g : Graph) (node : string) : bool :=
  existsb (fun p => fst p =? node) (nodes g).

Definition hasEdge (g : Graph) (edge : EdgeKey) : bool :=
  existsb (fun e => key_eqb (key e) edge) (edges g).

Definition nodeData (g : Graph) (node : string) : option (string * NodeAttr.t) :=
  find (fun p => fst p =? node) (nodes g).

Definition edgeData (g : Graph) (edge : EdgeKey) : option EdgeData :=
  find (fun e => key_eqb (key e) edge) (edges g).

Definition getNodeAttributes (g : Graph) (node : string) : Completion NodeAttr.t :=
  match nodeData g node with
  | Some p => Normal (snd p)
  | None => Throw NotFoundGraphError
  end.

Definition getEdgeAttributes (g : Graph) (edge : EdgeKey) : Completion EdgeAttr.t :=
  match edgeData g edge with
  | Some e => Normal (attributes e)
  | None => Throw NotFoundGraphError
  end.

Definition update_node (node : string) (f : NodeAttr.t -> NodeAttr.t)
    (p : string * NodeAttr.t) : string * NodeAttr.t :=
  if fst p =? node then (fst p, f (snd p)) else p.

Definition update_edge (edge : EdgeKey) (f : EdgeAttr.t -> EdgeAttr.t)
    (e : EdgeData) : EdgeData :=
  if key_eqb (key e) edge
  then mkEdge (key e) (source e) (target e) (f (attributes e)) (undirected e)
  else e.

(** [setNodeAttribute(node, name, value)], the pair of name and value
    given as the record update it performs. *)
Definition setNodeAttribute (g : Graph) (node : string)
    (f : NodeAttr.t -> NodeAttr.t) : Completion Graph :=
  if hasNode g node
  then Normal (mkGraph (map (update_node node f) (nodes g)) (edges g)
                       (edgeKeyGenerator g) (adjacency g))
  else Throw NotFoundGraphError.

Definition setEdgeAttribute (g : Graph) (edge : EdgeKey)
    (f : EdgeAttr.t -> EdgeAttr.t) : Completion Graph :=
  if hasEdge g edge
  then Normal (mkGraph (nodes g) (map (update_edge edge f) (edges g))
                       (edgeKeyGenerator g) (adjacency g))
  else Throw NotFoundGraphError.

Definition addNode (g : Graph) (node : string) (a : NodeAttr.t) : Completion Graph :=
  if hasNode g node
  then Throw UsageGraphError
  else Normal (mkGraph (nodes g ++ [(node, a)]) (edges g) (edgeKeyGenerator g)
                       (adjacency g)).

(** The shared body of [addEdge], [addUndirectedEdge] and the
    [...WithKey] variants: both extremities must exist, a given key must
    be unused, a missing key is generated; the edge is appended and
    indexed. *)
Definition addEdgeInternal (g : Graph) (given : option string) (undir : bool)
    (src tgt : string) (a : EdgeAttr.t) : Completion (EdgeKey * Graph) :=
  if negb (hasNode g src) then Throw NotFoundGraphError
  else if negb (hasNode g tgt) then Throw NotFoundGraphError
  else match given with
       | None =>
           let k := Generated (edgeKeyGenerator g) in
           Normal (k, mkGraph (nodes g) (edges g ++ [mkEdge k src tgt a undir])
                              (N.succ (edgeKeyGenerator g))
                              (attach (adjacency g) (mkEdge k src tgt a undir)))
       | Some s =>
           if hasEdge g (Given s) then Throw UsageGraphError
           else Normal (Given s,
                        mkGraph (nodes g)
                                (edges g ++ [mkEdge (Given s) src tgt a undir])
                                (edgeKeyGenerator g)
                                (attach (adjacency g) (mkEdge (Given s) src tgt a undir)))
       end.

(** [addEdge(source, target, attributes)] on a mixed graph adds a
    directed edge under a generated key and returns the key. *)
Definition addEdge (g : Graph) (src tgt : string) (a : EdgeAttr.t)
    : Completion (EdgeKey * Graph) :=
  addEdgeInternal g None false src tgt a.

Definition dropEdge (g : Graph) (edge : EdgeKey) : Completion Graph :=
  if hasEdge g edge
  then let es := filter (fun e => negb (key_eqb (key e) edge)) (edges g) in
       Normal (mkGraph (nodes g) es (edgeKeyGenerator g) (detach es (adjacency g)))
  else Throw NotFoundGraphError.

Definition hasExtremity_data (e : EdgeData) (node : string) : bool :=
  (source e =? node) || (target e =? node).

(** [dropNode] drops the node and every edge attached to it. *)
Definition dropNode (g : Graph) (node : string) : Completion Graph :=
  if hasNode g node
  then let es := filter (fun e => negb (hasExtremity_data e node)) (edges g) in
       Normal (mkGraph (filter (fun p => negb (fst p =? node)) (nodes g)) es
                       (edgeKeyGenerator g) (detach es (adjacency g)))
  else Throw NotFoundGraphError.

Definition source_of (g : Graph) (edge : EdgeKey) : Completion string :=
  match edgeData g edge with
  | Some e => Normal (source e)
  | None => Throw NotFoundGraphError
  end.

Definition target_of (g : Graph) (edge : EdgeKey) : Completion string :=
  match edgeData g edge with
  | Some e => Normal (target e)
  | None => Throw NotFoundGraphError
  end.

Definition hasExtremity (g : Graph) (edge : EdgeKey) (node : string) : Completion bool :=
  match edgeData g edge with
  | Some e => Normal (hasExtremity_data e node)
  | None => Throw NotFoundGraphError
  end.

(** The keys of [nodeData.in], [nodeData.out] and [nodeData.undirected]
    of a node, in creation order. *)
Definition neighbors_in (g : Graph) (node : string) : list string :=
  map slot_source
      (filter (fun sl => negb (slot_undirected sl) && (slot_target sl =? node))
              (adjacency g)).

Definition neighbors_out (g : Graph) (node : string) : list string :=
  map slot_target
      (filter (fun sl => negb (slot_undirected sl) && (slot_source sl =? node))
              (adjacency g)).

Definition neighbors_undirected (g : Graph) (node : string) : list string :=
  map (fun sl => if slot_source sl =? node then slot_target sl else slot_source sl)
      (filter (fun sl => slot_undirected sl
                         && ((slot_source sl =? node) || (slot_target sl =? node)))
              (adjacency g)).

(** The edges of the entries [in[k]], [out[k]] and [undirected[k]] of a
    node, in insertion order. *)
Definition edges_in (g : Graph) (node k : string) : list EdgeData :=
  filter (fun e => negb (undirected e) && (source e =? k) && (target e =? node))
         (edges g).

Definition edges_out (g : Graph) (node k : string) : list EdgeData :=
  filter (fun e => negb (undirected e) && (source e =? node) && (target e =? k))
         (edges g).

Definition edges_undirected (g : Graph) (node k : string) : list EdgeData :=
  filter (fun e => undirected e
                   && (((source e =? node) && (target e =? k))
                       || ((source e =? k) && (target e =? node))))
         (edges g).

(** The edges a node-scoped edge iteration visits, in visiting order:
    the entries of [in], then those of [out] but for the node itself (a
    self-loop was visited as incoming), then those of [undirected]. *)
Definition edgesOf (g : Graph) (node : string) : list EdgeData :=
  flat_map (edges_in g node) (for_in (fun k => k) (neighbors_in g node))
  ++ flat_map (fun k => if k =? node then [] else edges_out g node k)
              (for_in (fun k => k) (neighbors_out g node))
  ++ flat_map (edges_undirected g node) (for_in (fun k => k) (neighbors_undirected g node)).

(** [findEdge(node, callback)] with a callback that never returns a
    truthy value visits every edge of the node. *)
Definition findEdge_visits (g : Graph) (node : string) : Completion (list EdgeData) :=
  if hasNode g node then Normal (edgesOf g node) else Throw NotFoundGraphError.

(** [clear] drops every node and every edge; the edge key generator is
    not reset. *)
Definition clear (g : Graph) : Graph := mkGraph [] [] (edgeKeyGenerator g) [].

Record SerializedEdge : Type := mkSerializedEdge {
  s_key : option string;
  s_source : string;
  s_target : string;
  s_attributes : EdgeAttr.t;
  s_undirected : bool
}.

Record SerializedGraph : Type := mkSerializedGraph {
  s_nodes : list (string * NodeAttr.t);
  s_edges : list SerializedEdge
}.

Fixpoint import_nodes (l : list (string * NodeAttr.t)) (g : Graph) : Graph * Completion unit :=
  match l with
  | [] => (g, Normal tt)
  | (k, a) :: l' =>
      match addNode g k a with
      | Normal g' => import_nodes l' g'
      | Throw e => (g, Throw e)
      end
  end.

Fixpoint import_edges (l : list SerializedEdge) (g : Graph) : Graph * Completion unit :=
  match l with
  | [] => (g, Normal tt)
  | e :: l' =>
      match addEdgeInternal g (s_key e) (s_undirected e) (s_source e)
                            (s_target e) (s_attributes e) with
      | Normal (_, g') => import_edges l' g'
      | Throw err => (g, Throw err)
      end
  end.

(** [import(data)]: the nodes first, then the edges; an exception
    leaves what was imported before it. *)
Definition import (data : SerializedGraph) (g : Graph) : Graph * Completion unit :=
  match import_nodes (s_nodes data) g with
  | (g', Normal _) => import_edges (s_edges data) g'
  | (g', Throw e) => (g', Throw e)
  end.

End Graphology.

Import Graphology.

(** ** Ambient state of the example *)

Module State.

(** [interface State]. *)
Record t : Type := mk {
  hoveredNode : option string;
  hoveredNodeLabel : option string;
  hoveredNodeIsMalop : option bool;
  selectedNode : option string;
  suggestions : option (list string);
  hoveredNeighbors : option (list string)
}.

End State.

Module ContextState.

(** An element of [revmovedEdges]. *)
Record RemovedEdge : Type := mkRemovedEdge {
  source : string;
  target : string;
  attributes : EdgeAttr.t
}.

(** [interface ContextState]. *)
Record t : Type := mk {
  selectedNode : option string;
  removedNode : option string;
  removedNodeAttributes : option NodeAttr.t;
  revmovedEdges : option (list RemovedEdge);
  newEdges : option (list EdgeKey)
}.

End ContextState.

(** [const state: State = { }]. *)
Definition state : State.t :=
  State.mk None None None None None None.

(** [const contextState: ContextState = { revmovedEdges: [], newEdges: [] }]. *)
Definition contextState : ContextState.t :=
  ContextState.mk None None None (Some []) (Some []).

(** A call of [setNodeAttribute] or [setEdgeAttribute] that went through. *)
Inductive AttributeWrite : Type :=
| NodeWrite (node : string) (name : string)
| EdgeWrite (edge : EdgeKey) (name : string).

Record World : Type := mkWorld {
  w_graph : Graph;
  w_state : State.t;
  w_contextState : ContextState.t;
  w_ratio : Q;
  w_writes : list AttributeWrite
}.

(** ** The monad of handlers *)

Definition M (A : Type) : Type := World -> World * Completion A.

Definition ret {A : Type} (a : A) : M A := fun w => (w, Normal a).

Definition bind {A B : Type} (m : M A) (k : A -> M B) : M B :=
  fun w =>
    match m w with
    | (w', Normal a) => k a w'
    | (w', Throw e) => (w', Throw e)
    end.

Definition throw {A : Type} (e : Error) : M A := fun w => (w, Throw e).

Declare Scope handler_scope.
Delimit Scope handler_scope with handler.
Notation "x <- m ;; k" := (bind m (fun x => k))
  (at level 61, m at next level, right associativity) : handler_scope.
Notation "m ;; k" := (bind m (fun _ => k))
  (at level 61, right associativity) : handler_scope.
Local Open Scope handler_scope.

Fixpoint forEach {A : Type} (l : list A) (body : A -> M unit) : M unit :=
  match l with
  | [] => ret tt
  | x :: l' => body x ;; forEach l' body
  end.

(** A loop that threads a local variable through its body. *)
Fixpoint foldM {A S : Type} (l : list A) (body : S -> A -> M S) (s : S) : M S :=
  match l with
  | [] => ret s
  | x :: l' => s' <- body s x ;; foldM l' body s'
  end.

Definition of_completion {A : Type} (c : Completion A) : M A :=
  fun w => (w, c).

Definition get_graph : M Graph := fun w => (w, Normal (w_graph w)).

Definition put_graph (g : Graph) : M unit :=
  fun w => (mkWorld g (w_state w) (w_contextState w) (w_ratio w) (w_writes w),
            Normal tt).

Definition get_state : M State.t := fun w => (w, Normal (w_state w)).

Definition put_state (s : State.t) : M unit :=
  fun w => (mkWorld (w_graph w) s (w_contextState w) (w_ratio w) (w_writes w),
            Normal tt).

Definition get_contextState : M ContextState.t :=
  fun w => (w, Normal (w_contextState w)).

Definition put_contextState (c : ContextState.t) : M unit :=
  fun w => (mkWorld (w_graph w) (w_state w) c (w_ratio w) (w_writes w),
            Normal tt).

Definition log_write (x : AttributeWrite) : M unit :=
  fun w => (mkWorld (w_graph w) (w_state w) (w_contextState w) (w_ratio w)
                    (w_writes w ++ [x]),
            Normal tt).

(** [camera.getState().ratio]. *)
Definition camera_ratio : M Q := fun w => (w, Normal (w_ratio w)).

(** The calls on [graph], lifted to handlers. *)
Module G.

Definition read {A : Type} (f : Graph -> Completion A) : M A :=
  g <- get_graph ;; of_completion (f g).

Definition mutate (f : Graph -> Completion Graph) : M unit :=
  g <- get_graph ;; g' <- of_completion (f g) ;; put_graph g'.

Definition nodes : M (list string) :=
  g <- get_graph ;; ret (map fst (Graphology.nodes g)).

Definition edges : M (list EdgeKey) :=
  g <- get_graph ;; ret (map Graphology.key (Graphology.edges g)).

Definition getNodeAttributes (node : string) : M NodeAttr.t :=
  read (fun g => Graphology.getNodeAttributes g node).

Definition getNodeAttribute {A : Type} (node : string) (name : NodeAttr.t -> A) : M A :=
  a <- getNodeAttributes node ;; ret (name a).

Definition getEdgeAttribute {A : Type} (edge : EdgeKey) (name : EdgeAttr.t -> A) : M A :=
  a <- read (fun g => Graphology.getEdgeAttributes g edge) ;; ret (name a).

Definition setNodeAttribute (node : string) (name : string)
    (f : NodeAttr.t -> NodeAttr.t) : M unit :=
  mutate (fun g => Graphology.setNodeAttribute g node f) ;;
  log_write (NodeWrite node name).

Definition setEdgeAttribute (edge : EdgeKey) (name : string)
    (f : EdgeAttr.t -> EdgeAttr.t) : M unit :=
  mutate (fun g => Graphology.setEdgeAttribute g edge f) ;;
  log_write (EdgeWrite edge name).

Definition addNode (node : string) (a : NodeAttr.t) : M unit :=
  mutate (fun g => Graphology.addNode g node a).

Definition addEdge (src tgt : option string) (a : EdgeAttr.t) : M EdgeKey :=
  g <- get_graph ;;
  r <- of_completion (Graphology.addEdge g (to_string src) (to_string tgt) a) ;;
  put_graph (snd r) ;;
  ret (fst r).

Definition dropEdge (edge : EdgeKey) : M unit :=
  mutate (fun g => Graphology.dropEdge g edge).

Definition dropNode (node : string) : M unit :=
  mutate (fun g => Graphology.dropNode g node).

Definition clear : M unit :=
  g <- get_graph ;; put_graph (Graphology.clear g).

Definition import (data : SerializedGraph) : M unit :=
  fun w =>
    let r := Graphology.import data (w_graph w) in
    (mkWorld (fst r) (w_state w) (w_contextState w) (w_ratio w) (w_writes w), snd r).

End G.

(** ** [display_values]: the level-of-detail toggle *)

(** The literal [.3], that is the double nearest to three tenths. *)
Definition ratio_threshold : Q := 5404319552844595 # 18014398509481984.

Definition Qlt_bool (x y : Q) : bool := negb (Qle_bool y x).

(** The callback of [graph.nodes().forEach]. *)
Definition display_values_node (ratio : Q) (node : string) : M unit :=
  node_isExtraData <- G.getNodeAttribute node NodeAttr.isExtraData ;;
  node_hidden <- G.getNodeAttribute node NodeAttr.hidden ;;
  if Qlt_bool ratio ratio_threshold then
    if loose_eq_bool node_isExtraData true && loose_eq_bool node_hidden true
    then G.setNodeAttribute node "hidden" (NodeAttr.set_hidden false)
    else ret tt
  else
    if loose_eq_bool node_isExtraData true && loose_eq_bool node_hidden false
    then G.setNodeAttribute node "hidden" (NodeAttr.set_hidden true)
    else ret tt.

(** The callback of [graph.edges().forEach]. *)
Definition display_values_edge (ratio : Q) (edge : EdgeKey) : M unit :=
  edge_attr <- G.getEdgeAttribute edge EdgeAttr.attr ;;
  if Qlt_bool ratio ratio_threshold then
    if loose_eq_bool edge_attr false
    then G.setEdgeAttribute edge "color" (EdgeAttr.set_color "#FFFFFF")
    else ret tt
  else
    if loose_eq_bool edge_attr false
    then G.setEdgeAttribute edge "color" (EdgeAttr.set_color "#000000")
    else ret tt.

Definition display_values : M unit :=
  ratio <- camera_ratio ;;
  ns <- G.nodes ;;
  forEach ns (display_values_node ratio) ;;
  es <- G.edges ;;
  forEach es (display_values_edge ratio).

(** ** [setHoveredNode] *)

Definition modify_state (f : State.t -> State.t) : M unit :=
  s <- get_state ;; put_state (f s).

Definition setHoveredNode (node : option string) : M unit :=
  if truthy_string node then
    let node := to_string node in
    modify_state (fun s =>
      State.mk (Some node) (State.hoveredNodeLabel s) (State.hoveredNodeIsMalop s)
               (State.selectedNode s) (State.suggestions s) (State.hoveredNeighbors s)) ;;
    node_isHidden <- G.getNodeAttribute node (NodeAttr.other "isHidden") ;;
    node_isExtraData <- G.getNodeAttribute node NodeAttr.isExtraData ;;
    node_neighbors <- G.getNodeAttribute node NodeAttr.neighbors ;;
    modify_state (fun s =>
      State.mk (State.hoveredNode s) (State.hoveredNodeLabel s) (State.hoveredNodeIsMalop s)
               (State.selectedNode s) (State.suggestions s)
               (Some (new_Set node_neighbors))) ;;
    node_label <- G.getNodeAttribute node NodeAttr.label ;;
    modify_state (fun s =>
      State.mk (State.hoveredNode s) node_label (State.hoveredNodeIsMalop s)
               (State.selectedNode s) (State.suggestions s) (State.hoveredNeighbors s)) ;;
    node_isMalop <- G.getNodeAttribute node NodeAttr.isMalop ;;
    modify_state (fun s =>
      State.mk (State.hoveredNode s) (State.hoveredNodeLabel s) node_isMalop
               (State.selectedNode s) (State.suggestions s) (State.hoveredNeighbors s))
  else
    modify_state (fun s =>
      State.mk None None (Some false)
               (State.selectedNode s) (State.suggestions s) None).

(** ** The reducers *)

Definition grey : string := "#f6f6f6".

Definition nodeReducer (st : State.t) (node : string) (data : NodeAttr.t) : NodeAttr.t :=
  let res := data in
  if negb (truthy_bool (State.hoveredNodeIsMalop st)) then
    let res :=
      match State.hoveredNeighbors st with
      | Some hoveredNeighbors =>
          if negb (has hoveredNeighbors node)
             && negb (strict_eq (State.hoveredNode st) node)
          then NodeAttr.set_color grey (NodeAttr.set_label "" res)
          else res
      | None => res
      end in
    if strict_eq (State.selectedNode st) node then
      NodeAttr.set_highlighted true res
    else
      match State.suggestions st with
      | Some suggestions =>
          if negb (has suggestions node)
          then NodeAttr.set_color grey (NodeAttr.set_label "" res)
          else res
      | None => res
      end
  else res.

Definition bindC {A B : Type} (c : Completion A) (k : A -> Completion B) : Completion B :=
  match c with
  | Normal a => k a
  | Throw e => Throw e
  end.

Definition edgeReducer (st : State.t) (g : Graph) (edge : EdgeKey) (data : EdgeAttr.t)
    : Completion EdgeAttr.t :=
  let res := data in
  if negb (truthy_bool (State.hoveredNodeIsMalop st)) then
    bindC (Graphology.source_of g edge) (fun edgeSource =>
    let hasNeighbor :=
      match State.hoveredNeighbors st with
      | Some hoveredNeighbors => has hoveredNeighbors edgeSource
      | None => false
      end in
    bindC (if truthy_string (State.hoveredNode st)
           then bindC (Graphology.hasExtremity g edge (to_string (State.hoveredNode st)))
                      (fun ext => Normal (negb ext && negb hasNeighbor))
           else Normal false) (fun hide1 =>
    let res := if hide1 then EdgeAttr.set_hidden true res else res in
    bindC (match State.suggestions st with
           | Some suggestions =>
               bindC (Graphology.source_of g edge) (fun s =>
               if negb (has suggestions s) then Normal true
               else bindC (Graphology.target_of g edge) (fun t =>
                    Normal (negb (has suggestions t))))
           | None => Normal false
           end) (fun hide2 =>
    let res := if hide2 then EdgeAttr.set_hidden true res else res in
    Normal res)))
  else Normal res.

(** ** The local object [newEdges] of the remove handler *)

Module NewEdges.

Record Entry : Type := mkEntry {
  source : option string;
  target : option string;
  attributes : EdgeAttr.t
}.

(** Own properties in creation order. *)
Definition t : Type := list (string * Entry).

(** The property key of [newEdges[label]]. *)
Definition property_key (label : option string) : string := to_string label.

(** The properties an object literal inherits from [Object.prototype]. *)
Definition inherited_names : list string :=
  [ "constructor"; "hasOwnProperty"; "isPrototypeOf"; "propertyIsEnumerable";
    "toLocaleString"; "toString"; "valueOf"; "__proto__";
    "__defineGetter__"; "__defineSetter__"; "__lookupGetter__"; "__lookupSetter__" ].

Definition inherited (k : string) : bool :=
  existsb (String.eqb k) inherited_names.

Definition own (o : t) (k : string) : bool :=
  existsb (fun p => fst p =? k) o.

(** [k in newEdges]: own or inherited. *)
Definition has_property (o : t) (k : string) : bool :=
  own o k || inherited k.

(** [newEdges[k] = entry] for a key that is not yet a property. *)
Definition define (o : t) (k : string) (e : Entry) : t := o ++ [(k, e)].

Definition update (k : string) (f : Entry -> Entry) (p : string * Entry)
    : string * Entry :=
  if fst p =? k then (fst p, f (snd p)) else p.

(** [newEdges[k]['source'] = v].  When [k] is only inherited the write
    lands on an object of [Object.prototype] and [newEdges] keeps its
    own properties; what such a write does to [Object.prototype] itself
    (the key [__proto__]), and to the library after it, is not tracked:
    where it matters the statements assume that no edge flagged
    [attr == false] carries that label. *)
Definition set_source (o : t) (k : string) (v : string) : t :=
  map (update k (fun e => mkEntry (Some v) (target e) (attributes e))) o.

Definition set_target (o : t) (k : string) (v : string) : t :=
  map (update k (fun e => mkEntry (source e) (Some v) (attributes e))) o.

(** The properties in the order [for (const k in newEdges)] visits them:
    array indices in ascending order, then the other keys in creation
    order. *)
Definition for_in (o : t) : t := JS.for_in fst o.

End NewEdges.

(** ** The context menu: remove and add back *)

Definition modify_contextState (f : ContextState.t -> ContextState.t) : M unit :=
  c <- get_contextState ;; put_contextState (f c).

(** [contextState.revmovedEdges.push(removedEdge)]. *)
Definition revmovedEdges_push (r : ContextState.RemovedEdge) : M unit :=
  c <- get_contextState ;;
  match ContextState.revmovedEdges c with
  | Some l =>
      put_contextState
        (ContextState.mk (ContextState.selectedNode c) (ContextState.removedNode c)
                         (ContextState.removedNodeAttributes c)
                         (Some (l ++ [r])) (ContextState.newEdges c))
  | None => throw TypeError
  end.

(** [contextState.newEdges.push(edge)]. *)
Definition newEdges_push (edge : EdgeKey) : M unit :=
  c <- get_contextState ;;
  match ContextState.newEdges c with
  | Some l =>
      put_contextState
        (ContextState.mk (ContextState.selectedNode c) (ContextState.removedNode c)
                         (ContextState.removedNodeAttributes c)
                         (ContextState.revmovedEdges c) (Some (l ++ [edge])))
  | None => throw TypeError
  end.

(** Reading [.length] of an array field. *)
Definition array_of {A : Type} (v : option (list A)) : M (list A) :=
  match v with
  | Some l => ret l
  | None => throw TypeError
  end.

(** The callback handed to [graph.findEdge]. *)
Definition findEdge_callback (newEdges : NewEdges.t) (e : EdgeData) : M NewEdges.t :=
  let attributes := Graphology.attributes e in
  let label := NewEdges.property_key (EdgeAttr.label attributes) in
  let attr := EdgeAttr.attr attributes in
  let newEdges :=
    if loose_eq_bool attr false && negb (NewEdges.has_property newEdges label)
    then NewEdges.define newEdges label (NewEdges.mkEntry None None attributes)
    else newEdges in
  revmovedEdges_push
    (ContextState.mkRemovedEdge (Graphology.source e) (Graphology.target e) attributes) ;;
  c <- get_contextState ;;
  let newEdges :=
    if loose_eq_bool attr false
       && strict_eq (ContextState.selectedNode c) (Graphology.source e)
    then NewEdges.set_source newEdges label (Graphology.target e)
    else newEdges in
  let newEdges :=
    if loose_eq_bool attr false
       && strict_eq (ContextState.selectedNode c) (Graphology.target e)
    then NewEdges.set_target newEdges label (Graphology.source e)
    else newEdges in
  ret newEdges.

(** The body of [for (const newEdge in newEdges)]. *)
Definition add_bridge (newEdge : string * NewEdges.Entry) : M unit :=
  edge <- G.addEdge (NewEdges.source (snd newEdge)) (NewEdges.target (snd newEdge))
                    (NewEdges.attributes (snd newEdge)) ;;
  newEdges_push edge.

(** [malopRemoveBtn.addEventListener("click", ...)]. *)
Definition malopRemoveBtn_click : M unit :=
  c <- get_contextState ;;
  if truthy_string (ContextState.selectedNode c) then
    let selectedNode := to_string (ContextState.selectedNode c) in
    modify_contextState (fun c =>
      ContextState.mk (ContextState.selectedNode c) (ContextState.selectedNode c)
                      (ContextState.removedNodeAttributes c)
                      (ContextState.revmovedEdges c) (ContextState.newEdges c)) ;;
    a <- G.getNodeAttributes selectedNode ;;
    modify_contextState (fun c =>
      ContextState.mk (ContextState.selectedNode c) (ContextState.removedNode c)
                      (Some a)
                      (ContextState.revmovedEdges c) (ContextState.newEdges c)) ;;
    visits <- G.read (fun g => Graphology.findEdge_visits g selectedNode) ;;
    newEdges <- foldM visits findEdge_callback [] ;;
    forEach (NewEdges.for_in newEdges) add_bridge ;;
    G.dropNode selectedNode
  else ret tt.

(** [graph.addNode(key, undefined)] creates the node with no attribute. *)
Definition no_attributes : NodeAttr.t :=
  NodeAttr.mk None None None None None None None [].

(** The body of the loop over [contextState.revmovedEdges]. *)
Definition readd_edge (removedEdge : ContextState.RemovedEdge) : M unit :=
  _ <- G.addEdge (Some (ContextState.source removedEdge))
                 (Some (ContextState.target removedEdge))
                 (ContextState.attributes removedEdge) ;;
  ret tt.

(** [malopAddBtn.addEventListener("click", ...)]. *)
Definition malopAddBtn_click : M unit :=
  c <- get_contextState ;;
  if truthy_string (ContextState.removedNode c) then
    G.addNode (to_string (ContextState.removedNode c))
              (match ContextState.removedNodeAttributes c with
               | Some a => a
               | None => no_attributes
               end) ;;
    revmovedEdges <- array_of (ContextState.revmovedEdges c) ;;
    forEach revmovedEdges readd_edge ;;
    newEdges <- array_of (ContextState.newEdges c) ;;
    forEach newEdges G.dropEdge ;;
    modify_contextState (fun c =>
      ContextState.mk (ContextState.selectedNode c) None None None None)
  else ret tt.

(** [renderer.on("rightClickNode", ...)]. *)
Definition rightClickNode (node : string) : M unit :=
  modify_contextState (fun c =>
    ContextState.mk (Some node) (ContextState.removedNode c)
                    (ContextState.removedNodeAttributes c)
                    (ContextState.revmovedEdges c) (ContextState.newEdges c)).

(** ** The layout selector *)

Section Layouts.

(** The two imported JSON documents. *)
Variables machineData2 userData : SerializedGraph.

(** [alignmentSelect.addEventListener("change", ...)]; [opt] is the
    value of the selected option, [None] when nothing is selected. *)
Definition alignmentSelect_change (opt : option string) : M unit :=
  G.clear ;;
  match opt with
  | None => throw TypeError
  | Some value =>
      if value =? "machine" then G.import machineData2
      else if value =? "user" then G.import userData
      else if value =? "mitre" then G.import machineData2
      else G.import machineData2
  end.

(** The document a value of the selector stands for. *)
Definition selected_document (value : string) : SerializedGraph :=
  if value =? "user" then userData else machineData2.

End Layouts.


(** ** Pointer events on nodes *)

(** [renderer.on("enterNode", ...)]. *)
Definition enterNode (node : string) : M unit := setHoveredNode (Some node).

(** [renderer.on("leaveNode", ...)]. *)
Definition leaveNode : M unit := setHoveredNode None.

(** ** [drawLabel]: the label of a node on the canvas *)

Module Label.

(** JavaScript numbers with the operations [drawLabel] applies to them.
    The arithmetic is floating point and is left abstract. *)
Record Numbers : Type := mkNumbers {
  number : Type;
  truthy : number -> bool;
  to_text : number -> string;
  add : number -> number -> number;
  sub : number -> number -> number;
  div : number -> number -> number;
  two : number;
  round : number -> number
}.

Section Canvas.

Variable N : Numbers.

(** A value read from the display data by name. *)
Inductive value : Type :=
| Str (s : string)
| Num (n : number N)
| Bool (b : bool)
| Strings (l : list string)
| Inherited (name : string).

(** What [drawLabel] does to the 2D context. *)
Inductive Operation : Type :=
| SetFillStyle (v : option value)
| SetFont (font : string)
| FillText (text : string) (x y : number N).

(** A 2D context, as the history of what was done to it. *)
Definition Context : Type := list Operation.

(** [context.measureText(text).width]: it depends on the context through
    the font in force, hence on its history. *)
Variable measureText : Context -> string -> number N.

(** [PartialButFor<NodeDisplayData, "x" | "y" | "size" | "label" | "color">]:
    the position and size, and the display attributes. *)
Record Data : Type := mkData {
  x : number N;
  y : number N;
  size : number N;
  display : NodeAttr.t
}.

(** [settings.labelColor]. *)
Record LabelColor : Type := mkLabelColor {
  attribute : option string;
  color : option string
}.

(** The settings [drawLabel] reads. *)
Record Settings : Type := mkSettings {
  labelSize : number N;
  labelFont : string;
  labelWeight : string;
  labelColor : LabelColor
}.

(** [data[name]]: an own property, or else a member [data] inherits from
    [Object.prototype], taken as the language defines it. *)
Definition get (data : Data) (name : string) : option value :=
  if name =? "x" then Some (Num (x data))
  else if name =? "y" then Some (Num (y data))
  else if name =? "size" then Some (Num (size data))
  else if name =? "label" then option_map Str (NodeAttr.label (display data))
  else if name =? "color" then option_map Str (NodeAttr.color (display data))
  else if name =? "hidden" then option_map Bool (NodeAttr.hidden (display data))
  else if name =? "highlighted" then option_map Bool (NodeAttr.highlighted (display data))
  else if name =? "isExtraData" then option_map Bool (NodeAttr.isExtraData (display data))
  else if name =? "isMalop" then option_map Bool (NodeAttr.isMalop (display data))
  else if name =? "neighbors" then option_map Strings (NodeAttr.neighbors (display data))
  else match NodeAttr.other name (display data) with
       | Some s => Some (Str s)
       | None => if NewEdges.inherited name then Some (Inherited name) else None
       end.

(** [ToBoolean]; arrays, functions and objects are truthy. *)
Definition truthy_value (v : option value) : bool :=
  match v with
  | Some (Str s) => negb (s =? "")
  | Some (Num n) => truthy N n
  | Some (Bool b) => b
  | Some (Strings _) => true
  | Some (Inherited _) => true
  | None => false
  end.

Definition drawLabel (context : Context) (data : Data) (settings : Settings) : Context :=
  if negb (truthy_string (NodeAttr.label (display data))) then context
  else
    let label := to_string (NodeAttr.label (display data)) in
    let data_size := size data in
    let size := labelSize settings in
    let font := labelFont settings in
    let weight := labelWeight settings in
    let labelWidth := measureText context label in
    let color :=
      if truthy_string (attribute (labelColor settings)) then
        let v := get data (to_string (attribute (labelColor settings))) in
        if truthy_value v then v
        else if truthy_string (color (labelColor settings))
             then option_map Str (color (labelColor settings))
             else Some (Str "#000")
      else option_map Str (color (labelColor settings)) in
    context
    ++ [ SetFillStyle color;
         SetFont (weight ++ " " ++ to_text N size ++ "px " ++ font);
         FillText label
                  (round N (sub N (x data) (div N labelWidth (two N))))
                  (add N (add N (y data) data_size) size) ].

End Canvas.

End Label.

(** ** The application: its listeners and the events they answer *)

(** The events the script listens to, and [CameraFrame]: a frame of a
    camera animation, which moves the ratio between two events. *)
Inductive Event : Type :=
| EnterNode (node : string)
| LeaveNode
| ZoomInClick
| ZoomOutClick
| ZoomResetClick
| ContextMenu
| MalopAddClick
| MalopRemoveClick
| AlignmentChange (opt : option string)
| RightClickNode (node : string)
| DoubleClickNode
| ClickStage
| CameraFrame (ratio : Q).

Definition camera_set (ratio : Q) : M unit :=
  fun w => (mkWorld (w_graph w) (w_state w) (w_contextState w) ratio (w_writes w), Normal tt).

Section Application.

Variables machineData2 userData : SerializedGraph.

(** The camera is sigma's.  What is taken of an animated transition is
    the ratio the camera reports when the call that starts it returns. *)
Variables animatedZoom animatedUnzoom animatedReset : Q -> Q.

Definition camera_animate (transition : Q -> Q) : M unit :=
  ratio <- camera_ratio ;;
  camera_set (transition ratio).

Definition zoomInBtn_click : M unit :=
  camera_animate animatedZoom ;;
  display_values.

Definition zoomOutBtn_click : M unit :=
  camera_animate animatedUnzoom ;;
  display_values.

Definition zoomResetBtn_click : M unit :=
  camera_animate animatedReset ;;
  display_values.

(** [renderer.on("doubleClickNode", ...)]. *)
Definition doubleClickNode : M unit :=
  camera_animate animatedZoom ;;
  display_values.

(** [renderer.on("clickStage", ...)]. *)
Definition clickStage : M unit := display_values.

(** The listener registered for each event. *)
Definition listener (e : Event) : M unit :=
  match e with
  | EnterNode node => enterNode node
  | LeaveNode => leaveNode
  | ZoomInClick => zoomInBtn_click
  | ZoomOutClick => zoomOutBtn_click
  | ZoomResetClick => zoomResetBtn_click
  | ContextMenu => ret tt
  | MalopAddClick => malopAddBtn_click
  | MalopRemoveClick => malopRemoveBtn_click
  | AlignmentChange opt => alignmentSelect_change machineData2 userData opt
  | RightClickNode node => rightClickNode node
  | DoubleClickNode => doubleClickNode
  | ClickStage => clickStage
  | CameraFrame ratio => camera_set ratio
  end.

(** An exception a listener throws ends that listener only: what it did
    before stays, and the next event finds the world as it was left. *)
Definition dispatch (w : World) (e : Event) : World := fst (listener e w).

Definition run (events : list Event) (w : World) : World :=
  fold_left dispatch events w.

End Application.

(** * Invariants, specification-level definitions and sample data *)

(** ** The representation invariant of a graph

    Node keys and edge keys are unique (they are the keys of two [Map]s),
    the extremities of every edge are nodes of the graph, and every
    generated edge key is below the generator. *)

Fixpoint distinct_strings (l : list string) : bool :=
  match l with
  | [] => true
  | x :: l' => negb (existsb (String.eqb x) l') && distinct_strings l'
  end.

Fixpoint distinct_keys (l : list EdgeKey) : bool :=
  match l with
  | [] => true
  | x :: l' => negb (existsb (key_eqb x) l') && distinct_keys l'
  end.

Definition key_below (c : N) (k : EdgeKey) : bool :=
  match k with
  | Given _ => true
  | Generated n => (n <? c)%N
  end.

Definition well_formed (g : Graph) : bool :=
  distinct_strings (map fst (nodes g))
  && distinct_keys (map key (edges g))
  && forallb (fun e => hasNode g (Graphology.source e)
                       && hasNode g (Graphology.target e)) (edges g)
  && forallb (fun e => key_below (edgeKeyGenerator g) (key e)) (edges g).

(** ** The invariant of the adjacency index

    Every edge has its entry, every entry has an edge, and no two entries
    are for the same pair of nodes and the same kind of edge. *)

(** Two entries an edge could belong to at once. *)
Definition same_slot (a b : Slot) : bool :=
  Bool.eqb (slot_undirected a) (slot_undirected b)
  && (((slot_source a =? slot_source b) && (slot_target a =? slot_target b))
      || (slot_undirected a && (slot_source a =? slot_target b)
          && (slot_target a =? slot_source b))).

Fixpoint distinct_slots (l : list Slot) : bool :=
  match l with
  | [] => true
  | x :: l' => negb (existsb (same_slot x) l') && distinct_slots l'
  end.

Definition indexed (g : Graph) : bool :=
  forallb (fun e => existsb (fun sl => connects sl e) (adjacency g)) (edges g)
  && forallb (fun sl => existsb (connects sl) (edges g)) (adjacency g)
  && distinct_slots (adjacency g).

(** The graph built by adding the edges [es] one after the other. *)
Definition graph_of (ns : list (string * NodeAttr.t)) (es : list EdgeData) (c : N)
    : Graph :=
  mkGraph ns es c (attach_all [] es).

(** ** What the level-of-detail toggle does to one node and one edge *)

Definition node_written (ratio : Q) (a : NodeAttr.t) : bool :=
  loose_eq_bool (NodeAttr.isExtraData a) true
  && loose_eq_bool (NodeAttr.hidden a) (Qlt_bool ratio ratio_threshold).

Definition toggled_node (ratio : Q) (p : string * NodeAttr.t) : string * NodeAttr.t :=
  if node_written ratio (snd p)
  then (fst p, NodeAttr.set_hidden (negb (Qlt_bool ratio ratio_threshold)) (snd p))
  else p.

(** An edge flagged [attr == false]. *)
Definition structural_edge (e : EdgeData) : bool :=
  loose_eq_bool (EdgeAttr.attr (Graphology.attributes e)) false.

Definition tone (ratio : Q) : string :=
  if Qlt_bool ratio ratio_threshold then "#FFFFFF" else "#000000".

Definition toggled_edge (ratio : Q) (e : EdgeData) : EdgeData :=
  if structural_edge e
  then mkEdge (key e) (Graphology.source e) (Graphology.target e)
              (EdgeAttr.set_color (tone ratio) (Graphology.attributes e))
              (undirected e)
  else e.

Definition node_writes (ratio : Q) (l : list (string * NodeAttr.t)) : list AttributeWrite :=
  flat_map (fun p => if node_written ratio (snd p)
                     then [NodeWrite (fst p) "hidden"] else []) l.

Definition edge_writes (l : list EdgeData) : list AttributeWrite :=
  flat_map (fun e => if structural_edge e then [EdgeWrite (key e) "color"] else []) l.

(** ** The remove handler, step by step *)

(** The record pushed on [revmovedEdges] for an edge. *)
Definition to_removed (e : EdgeData) : ContextState.RemovedEdge :=
  ContextState.mkRemovedEdge (Graphology.source e) (Graphology.target e)
                             (Graphology.attributes e).

(** The property of [newEdges] an edge is filed under. *)
Definition label_key (e : EdgeData) : string :=
  NewEdges.property_key (EdgeAttr.label (Graphology.attributes e)).

(** What one call of the [findEdge] callback does to [newEdges] when the
    selected node is [sel]. *)
Definition scan_step (sel : string) (tbl : NewEdges.t) (e : EdgeData) : NewEdges.t :=
  let tbl :=
    if structural_edge e && negb (NewEdges.has_property tbl (label_key e))
    then NewEdges.define tbl (label_key e)
           (NewEdges.mkEntry None None (Graphology.attributes e))
    else tbl in
  let tbl :=
    if structural_edge e && (sel =? Graphology.source e)
    then NewEdges.set_source tbl (label_key e) (Graphology.target e)
    else tbl in
  if structural_edge e && (sel =? Graphology.target e)
  then NewEdges.set_target tbl (label_key e) (Graphology.source e)
  else tbl.

Definition scan (sel : string) (visits : list EdgeData) (tbl : NewEdges.t) : NewEdges.t :=
  fold_left (scan_step sel) visits tbl.

(** [newEdges[k]] as an own property. *)
Definition entry_of (tbl : NewEdges.t) (k : string) : option NewEdges.Entry :=
  option_map snd (find (fun p => fst p =? k) tbl).

(** The edges the callback files under [k]. *)
Definition filed_under (k : string) (e : EdgeData) : bool :=
  structural_edge e && (label_key e =? k).

(** What one edge filed under [k] does to [newEdges[k]]. *)
Definition entry_step (sel k : string) (o : option NewEdges.Entry) (e : EdgeData)
    : option NewEdges.Entry :=
  let o :=
    match o with
    | Some x => Some x
    | None =>
        if NewEdges.inherited k then None
        else Some (NewEdges.mkEntry None None (Graphology.attributes e))
    end in
  let o :=
    if sel =? Graphology.source e
    then option_map (fun x => NewEdges.mkEntry (Some (Graphology.target e))
                                (NewEdges.target x) (NewEdges.attributes x)) o
    else o in
  if sel =? Graphology.target e
  then option_map (fun x => NewEdges.mkEntry (NewEdges.source x)
                              (Some (Graphology.source e)) (NewEdges.attributes x)) o
  else o.

(** Every bridge carries the label it is filed under. *)
Definition labelled (p : string * NewEdges.Entry) : Prop :=
  NewEdges.property_key (EdgeAttr.label (NewEdges.attributes (snd p))) = fst p.

(** Both extremities of a bridge are assigned, to nodes other than [node]. *)
Definition settled (node : string) (x : NewEdges.Entry) : Prop :=
  exists s t : string,
    NewEdges.source x = Some s /\ NewEdges.target x = Some t
    /\ s <> node /\ t <> node.

(** No edge of [node] flagged [attr == false] is labelled ["__proto__"]:
    the callback then writes to no object but [newEdges] and its entries.
    (Under that label it would assign properties of [Object.prototype],
    which the model does not track.) *)
Definition prototype_untouched (g : Graph) (node : string) : bool :=
  forallb (fun e => negb (filed_under "__proto__" e)) (edgesOf g node).

(** The shape of the edges of [node] for which every bridge can be
    inserted and survives the removal: no edge flagged [attr == false] is a
    self-loop or labelled ["__proto__"], and each label of such an edge
    either names an inherited property (no bridge is then attempted) or is
    carried by an outgoing and by an incoming edge flagged
    [attr == false]. *)
Definition bridgeable (g : Graph) (node : string) : bool :=
  prototype_untouched g node
  && forallb
       (fun e =>
          negb (structural_edge e)
          || (negb ((Graphology.source e =? node) && (Graphology.target e =? node))
              && (NewEdges.inherited (label_key e)
                  || (existsb (fun e' => filed_under (label_key e) e'
                                         && (Graphology.source e' =? node))
                              (edgesOf g node)
                      && existsb (fun e' => filed_under (label_key e) e'
                                            && (Graphology.target e' =? node))
                                 (edgesOf g node)))))
       (edgesOf g node).

(** The bridges to insert when [node] is removed, in the order in which
    the loop over [newEdges] inserts them. *)
Definition bridge_table (g : Graph) (node : string) : NewEdges.t :=
  NewEdges.for_in (scan node (edgesOf g node) []).

(** Both extremities of a bridge, after string coercion, are nodes. *)
Definition insertable (g : Graph) (p : string * NewEdges.Entry) : bool :=
  hasNode g (to_string (NewEdges.source (snd p)))
  && hasNode g (to_string (NewEdges.target (snd p))).

(** The bridges inserted before the first one that [addEdge] rejects. *)
Fixpoint inserted (g : Graph) (l : NewEdges.t) : NewEdges.t :=
  match l with
  | [] => []
  | p :: l' => if insertable g p then p :: inserted g l' else []
  end.

(** The edges [addEdge] appends for a list of bridges, the generator
    starting at [c]. *)
Fixpoint bridge_edges (c : N) (l : NewEdges.t) : list EdgeData :=
  match l with
  | [] => []
  | p :: l' =>
      mkEdge (Generated c) (to_string (NewEdges.source (snd p)))
             (to_string (NewEdges.target (snd p)))
             (NewEdges.attributes (snd p)) false
      :: bridge_edges (N.succ c) l'
  end.

(** The edges [addEdge] appends when the add-back handler replays
    [revmovedEdges], the generator starting at [c]. *)
Fixpoint readded_edges (c : N) (l : list ContextState.RemovedEdge) : list EdgeData :=
  match l with
  | [] => []
  | r :: l' =>
      mkEdge (Generated c) (ContextState.source r) (ContextState.target r)
             (ContextState.attributes r) false
      :: readded_edges (N.succ c) l'
  end.

(** ** The add-back handler, step by step *)

(** Both extremities of a recorded edge are among the nodes [ns]. *)
Definition has_extremities (ns : list (string * NodeAttr.t))
    (r : ContextState.RemovedEdge) : bool :=
  existsb (fun p => fst p =? ContextState.source r) ns
  && existsb (fun p => fst p =? ContextState.target r) ns.

(** The edges left when the keys [ks] are dropped. *)
Definition without_keys (ks : list EdgeKey) (es : list EdgeData) : list EdgeData :=
  filter (fun e => negb (existsb (key_eqb (key e)) ks)) es.

(** The edges of [g'] whose key is not a key of [g]. *)
Definition created (g g' : Graph) : list EdgeData :=
  filter (fun e => negb (hasEdge g (key e))) (edges g').

(** ** The edit buffer *)

(** No removal is recorded: no node, no snapshot, and each list unset or
    empty. *)
Definition buffer_empty (c : ContextState.t) : bool :=
  match ContextState.removedNode c, ContextState.removedNodeAttributes c,
        ContextState.revmovedEdges c, ContextState.newEdges c with
  | None, None, (None | Some []), (None | Some []) => true
  | _, _, _, _ => false
  end.

(** The four fields are set together. *)
Definition buffer_populated (c : ContextState.t) : bool :=
  match ContextState.removedNode c, ContextState.removedNodeAttributes c,
        ContextState.revmovedEdges c, ContextState.newEdges c with
  | Some _, Some _, Some _, Some _ => true
  | _, _, _, _ => false
  end.

(** The invariant of the edit buffer: empty or fully populated. *)
Definition buffer_invariant (c : ContextState.t) : bool :=
  buffer_empty c || buffer_populated c.

(** ** The edge rule of the visibility policy *)

(** What the edge rule promises, word for word: (a) a hover is active and
    the edge touches neither the hovered node nor a node of the hover's
    neighbor set, or (b) a suggestion set is active and an endpoint is
    absent from it. *)
Definition claimed_edge_hidden (st : State.t) (e : EdgeData) : bool :=
  (match State.hoveredNode st, State.hoveredNeighbors st with
   | Some hovered, Some hoveredNeighbors =>
       negb (hasExtremity_data e hovered)
       && negb (has hoveredNeighbors (Graphology.source e))
       && negb (has hoveredNeighbors (Graphology.target e))
   | _, _ => false
   end)
  || (match State.suggestions st with
      | Some suggestions =>
          negb (has suggestions (Graphology.source e))
          || negb (has suggestions (Graphology.target e))
      | None => false
      end).

(** The condition under which [edgeReducer] sets [hidden]. *)
Definition edge_hidden (st : State.t) (e : EdgeData) : bool :=
  (truthy_string (State.hoveredNode st)
   && negb (hasExtremity_data e (to_string (State.hoveredNode st)))
   && negb (match State.hoveredNeighbors st with
            | Some hoveredNeighbors => has hoveredNeighbors (Graphology.source e)
            | None => false
            end))
  || (match State.suggestions st with
      | Some suggestions =>
          negb (has suggestions (Graphology.source e))
          || negb (has suggestions (Graphology.target e))
      | None => false
      end).

(** ** Import *)

(** Edge [e] of a graph is the image of the serialized edge [se]. *)
Definition imported_from (se : SerializedEdge) (e : EdgeData) : Prop :=
  Graphology.source e = s_source se
  /\ Graphology.target e = s_target se
  /\ Graphology.attributes e = s_attributes se
  /\ undirected e = s_undirected se
  /\ (forall s : string, s_key se = Some s -> key e = Given s).

(** ** Sample data *)

Definition hovering_h : State.t :=
  State.mk (Some "h") (Some "host") (Some false) None None (Some ["b"]).

Definition hovering_malop : State.t :=
  State.mk (Some "m") (Some "malop") (Some true) (Some "z") (Some []) (Some []).

Definition edge_a_b : EdgeData :=
  mkEdge (Given "e") "a" "b" (EdgeAttr.mk (Some "uses") None None (Some true) []) false.

Definition graph_a_b : Graph :=
  graph_of [("h", no_attributes); ("a", no_attributes); ("b", no_attributes)]
          [edge_a_b] 0.

Definition extra_data (hidden : option bool) : NodeAttr.t :=
  NodeAttr.mk (Some "file") (Some "#aaaaaa") hidden None (Some true) None None [].

Definition structural (label : string) : EdgeAttr.t :=
  EdgeAttr.mk (Some label) (Some "#cccccc") None (Some false) [].

Definition observed (label : string) : EdgeAttr.t :=
  EdgeAttr.mk (Some label) (Some "#cccccc") None (Some true) [].

Definition lod_graph : Graph :=
  graph_of [("p", no_attributes); ("x", extra_data (Some true));
           ("y", extra_data (Some false)); ("u", extra_data None)]
          [mkEdge (Given "s") "p" "x" (structural "owns") false;
           mkEdge (Given "t") "p" "y" (observed "reads") false]
          0.

Definition lod_world (ratio : Q) : World :=
  mkWorld lod_graph state contextState ratio [].

(** A buffer that selects [node] and is otherwise as declared. *)
Definition selecting (node : string) : ContextState.t :=
  ContextState.mk (Some node) None None (Some []) (Some []).

(** [a -> n -> b] under one label, and an edge beside [n]. *)
Definition chain_graph : Graph :=
  graph_of [("a", no_attributes); ("n", extra_data (Some false)); ("b", no_attributes)]
          [mkEdge (Given "e1") "a" "n" (structural "runs") false;
           mkEdge (Given "e2") "n" "b" (structural "runs") false;
           mkEdge (Given "e3") "b" "a" (observed "talks") false]
          0.

Definition chain_world : World :=
  mkWorld chain_graph state (selecting "n") 1 [].

(** Two observed edges between [a] and [n]: ["e1"] directed from [a] to
    [n], ["e2"] undirected. *)
Definition pair_graph : Graph :=
  graph_of [("a", no_attributes); ("n", no_attributes)]
          [mkEdge (Given "e1") "a" "n" (observed "reads") false;
           mkEdge (Given "e2") "a" "n" (observed "shares") true]
          0.

Definition pair_world : World :=
  mkWorld pair_graph state (selecting "n") 1 [].

(** Four edges into [n], none flagged [attr == false]: two from [a] with
    one from [b] in between, and a last one from the node keyed ["2"]. *)
Definition parallel_graph : Graph :=
  graph_of [("a", no_attributes); ("b", no_attributes); ("2", no_attributes);
           ("n", no_attributes)]
          [mkEdge (Given "r1") "a" "n" (observed "reads") false;
           mkEdge (Given "r2") "b" "n" (observed "writes") false;
           mkEdge (Given "r3") "a" "n" (observed "sends") false;
           mkEdge (Given "r4") "2" "n" (observed "calls") false]
          0.

Definition parallel_world : World :=
  mkWorld parallel_graph state (selecting "n") 1 [].

(** [n -> a] and [n -> b] under one label. *)
Definition fan_graph : Graph :=
  graph_of [("n", no_attributes); ("a", no_attributes); ("b", no_attributes)]
          [mkEdge (Given "f1") "n" "a" (structural "owns") false;
           mkEdge (Given "f2") "n" "b" (structural "owns") false]
          0.

Definition fan_world : World :=
  mkWorld fan_graph state (selecting "n") 1 [].

(** [n -> a] alone under its label. *)
Definition single_graph : Graph :=
  graph_of [("n", no_attributes); ("a", no_attributes)]
          [mkEdge (Given "s1") "n" "a" (structural "owns") false]
          0.

(** A node without edges, in the state the example starts in. *)
Definition lone_graph : Graph :=
  graph_of [("n", extra_data (Some false))] [] 0.

Definition lone_world : World :=
  mkWorld lone_graph state contextState 1 [].

(** ** The invariant along handlers *)

(** The representation invariant as a proposition. *)
Definition WF (g : Graph) : Prop :=
  NoDup (map fst (nodes g))
  /\ NoDup (map key (edges g))
  /\ (forall e, In e (edges g) ->
        In (Graphology.source e) (map fst (nodes g))
        /\ In (Graphology.target e) (map fst (nodes g)))
  /\ (forall e, In e (edges g) -> key_below (edgeKeyGenerator g) (key e) = true).

(** A handler that keeps the graph well formed, whether it completes or
    throws. *)
Definition keeps_well_formed {A : Type} (m : M A) : Prop :=
  forall w : World,
    well_formed (w_graph w) = true ->
    well_formed (w_graph (fst (m w))) = true.

(** ** Further properties: what they are stated with *)

(** The state with the suggestion set withdrawn. *)
Definition without_suggestions (st : State.t) : State.t :=
  State.mk (State.hoveredNode st) (State.hoveredNodeLabel st)
           (State.hoveredNodeIsMalop st) (State.selectedNode st)
           None (State.hoveredNeighbors st).

(** Two display data that differ at most by label, color and highlight. *)
Definition same_but_display (a b : NodeAttr.t) : Prop :=
  NodeAttr.hidden b = NodeAttr.hidden a
  /\ NodeAttr.isExtraData b = NodeAttr.isExtraData a
  /\ NodeAttr.isMalop b = NodeAttr.isMalop a
  /\ NodeAttr.neighbors b = NodeAttr.neighbors a
  /\ NodeAttr.rest b = NodeAttr.rest a.

(** A node is drawn either with its own label and color or greyed out
    with a blank label. *)
Definition own_or_greyed (a b : NodeAttr.t) : Prop :=
  (NodeAttr.label b = NodeAttr.label a /\ NodeAttr.color b = NodeAttr.color a)
  \/ (NodeAttr.label b = Some "" /\ NodeAttr.color b = Some grey).

(** A search that selected [a] and suggests [b]; nothing is hovered. *)
Definition searching : State.t :=
  State.mk None None (Some false) (Some "a") (Some ["b"]) None.

(** A host with two neighbors, one beside it, and a node flagged [isMalop]. *)
Definition hover_graph : Graph :=
  graph_of [("h", NodeAttr.mk (Some "host") None None None None None (Some ["b"; "c"]) []);
           ("b", no_attributes);
           ("m", NodeAttr.mk (Some "malop") None None None None (Some true) None []);
           ("z", no_attributes)]
          [mkEdge (Given "e1") "h" "b" (observed "uses") false;
           mkEdge (Given "e2") "m" "z" (observed "uses") false]
          0.

Definition hover_world : World :=
  mkWorld hover_graph state contextState 1 [].

(** Two node attribute bags that differ at most by [hidden]. *)
Definition same_but_hidden (a b : NodeAttr.t) : Prop :=
  NodeAttr.label b = NodeAttr.label a
  /\ NodeAttr.color b = NodeAttr.color a
  /\ NodeAttr.highlighted b = NodeAttr.highlighted a
  /\ NodeAttr.isExtraData b = NodeAttr.isExtraData a
  /\ NodeAttr.isMalop b = NodeAttr.isMalop a
  /\ NodeAttr.neighbors b = NodeAttr.neighbors a
  /\ NodeAttr.rest b = NodeAttr.rest a.

(** Two edges that differ at most by the [color] attribute. *)
Definition same_but_color (e e' : EdgeData) : Prop :=
  key e' = key e
  /\ Graphology.source e' = Graphology.source e
  /\ Graphology.target e' = Graphology.target e
  /\ undirected e' = undirected e
  /\ EdgeAttr.label (attributes e') = EdgeAttr.label (attributes e)
  /\ EdgeAttr.hidden (attributes e') = EdgeAttr.hidden (attributes e)
  /\ EdgeAttr.attr (attributes e') = EdgeAttr.attr (attributes e)
  /\ EdgeAttr.rest (attributes e') = EdgeAttr.rest (attributes e).

(** What the toggle may do to a node, and to an edge. *)
Definition node_toggle_frame (p p' : string * NodeAttr.t) : Prop :=
  fst p' = fst p
  /\ same_but_hidden (snd p) (snd p')
  /\ (NodeAttr.isExtraData (snd p) <> Some true -> p' = p).

Definition edge_toggle_frame (e e' : EdgeData) : Prop :=
  same_but_color e e'
  /\ (EdgeAttr.attr (attributes e) <> Some false -> e' = e).

(** The buffer with [removedNode] assigned. *)
Definition with_removedNode (node : option string) (c : ContextState.t) : ContextState.t :=
  ContextState.mk (ContextState.selectedNode c) node
                  (ContextState.removedNodeAttributes c)
                  (ContextState.revmovedEdges c) (ContextState.newEdges c).

(** The world with another edit buffer. *)
Definition with_contextState (c : ContextState.t) (w : World) : World :=
  mkWorld (w_graph w) (w_state w) c (w_ratio w) (w_writes w).

(** The remove handler past the snapshot of the attributes. *)
Definition remove_edges_and_node (selectedNode : string) : M unit :=
  visits <- G.read (fun g => Graphology.findEdge_visits g selectedNode) ;;
  newEdges <- foldM visits findEdge_callback [] ;;
  forEach (NewEdges.for_in newEdges) add_bridge ;;
  G.dropNode selectedNode.

(** The last edge of a list that satisfies [f]. *)
Fixpoint last_where (f : EdgeData -> bool) (l : list EdgeData) : option EdgeData :=
  match l with
  | [] => None
  | e :: l' =>
      match last_where f l' with
      | Some x => Some x
      | None => if f e then Some e else None
      end
  end.

(** A node whose key is the empty string, with an edge. *)
Definition blank_graph : Graph :=
  graph_of [("", no_attributes); ("a", no_attributes)]
          [mkEdge (Given "e") "" "a" (observed "uses") false]
          0.

(** [a -> n], [n -> b], [n -> c] and again [n -> b] under one label. *)
Definition fork_graph : Graph :=
  graph_of [("a", no_attributes); ("n", no_attributes); ("b", no_attributes);
           ("c", no_attributes)]
          [mkEdge (Given "e1") "a" "n" (structural "runs") false;
           mkEdge (Given "e2") "n" "b" (structural "runs") false;
           mkEdge (Given "e3") "n" "c" (EdgeAttr.mk (Some "runs") (Some "#ff0000") None
                                                     (Some false) []) false;
           mkEdge (Given "e4") "n" "b" (structural "runs") false]
          0.

(** The buffer once an add-back has completed. *)
Definition spent_buffer (node : string) : ContextState.t :=
  ContextState.mk (Some node) None None None None.

(** ** The add-back handler on any buffer *)

(** The attributes [addNode] is given. *)
Definition snapshot (ra : option NodeAttr.t) : NodeAttr.t :=
  match ra with
  | Some a => a
  | None => no_attributes
  end.

(** The recorded edges replayed before the first one [addEdge] rejects. *)
Fixpoint replayed (ns : list (string * NodeAttr.t)) (l : list ContextState.RemovedEdge)
    : list ContextState.RemovedEdge :=
  match l with
  | [] => []
  | x :: l' => if has_extremities ns x then x :: replayed ns l' else []
  end.

(** Dropping the keys [ks] one after the other, up to the first that is
    not the key of an edge: the edges left, and whether every key was
    found. *)
Fixpoint dropped (es : list EdgeData) (ks : list EdgeKey) : list EdgeData * bool :=
  match ks with
  | [] => (es, true)
  | k :: ks' =>
      if existsb (fun e => key_eqb (key e) k) es
      then dropped (filter (fun e => negb (key_eqb (key e) k)) es) ks'
      else (es, false)
  end.

(** The index of edges by neighbor along the same drops, [adj] being the
    index of [es]. *)
Fixpoint dropped_slots (es : list EdgeData) (ks : list EdgeKey) (adj : list Slot)
    : list Slot :=
  match ks with
  | [] => adj
  | k :: ks' =>
      if existsb (fun e => key_eqb (key e) k) es
      then let es' := filter (fun e => negb (key_eqb (key e) k)) es in
           dropped_slots es' ks' (detach es' adj)
      else adj
  end.

(** The outcome of the add-back handler for a removed node [node] that
    is not in the graph. *)
Definition added_back (g : Graph) (st : State.t) (sel : option string) (node : string)
    (ra : option NodeAttr.t) (rl : option (list ContextState.RemovedEdge))
    (ks : option (list EdgeKey)) (r : Q) (ws : list AttributeWrite)
    : World * Completion unit :=
  let cs := ContextState.mk sel (Some node) ra rl ks in
  let ns := nodes g ++ [(node, snapshot ra)] in
  match rl with
  | None =>
      (mkWorld (mkGraph ns (edges g) (edgeKeyGenerator g) (adjacency g)) st cs r ws,
       Throw TypeError)
  | Some rl =>
      let back := readded_edges (edgeKeyGenerator g) (replayed ns rl) in
      let es := edges g ++ back in
      let c := (edgeKeyGenerator g + N.of_nat (List.length (replayed ns rl)))%N in
      let adj := attach_all (adjacency g) back in
      if forallb (has_extremities ns) rl then
        match ks with
        | None => (mkWorld (mkGraph ns es c adj) st cs r ws, Throw TypeError)
        | Some ks =>
            let left := mkGraph ns (fst (dropped es ks)) c (dropped_slots es ks adj) in
            if snd (dropped es ks)
            then (mkWorld left st (ContextState.mk sel None None None None) r ws,
                  Normal tt)
            else (mkWorld left st cs r ws, Throw NotFoundGraphError)
        end
      else (mkWorld (mkGraph ns es c adj) st cs r ws, Throw NotFoundGraphError)
  end.

(** A graph that holds [b] alone. *)
Definition bare_graph : Graph := graph_of [("b", no_attributes)] [] 0.

(** A pending removal of [n] with two recorded edges, the second from a
    node [q]. *)
Definition twice_recorded : ContextState.t :=
  ContextState.mk (Some "n") (Some "n") (Some no_attributes)
    (Some [ContextState.mkRemovedEdge "b" "n" (observed "uses");
           ContextState.mkRemovedEdge "q" "n" (observed "uses")])
    (Some []).

(** The bridge the remove handler files under a label, from the edges
    [l] it visits under that label, in visiting order: the attributes of
    the first edge, and for extremities the far ends of the last outgoing
    and of the last incoming edge. *)
Definition bridge_of (node : string) (l : list EdgeData) : option NewEdges.Entry :=
  match l with
  | [] => None
  | e0 :: _ =>
      Some (NewEdges.mkEntry
              (option_map Graphology.target
                          (last_where (fun e => Graphology.source e =? node) l))
              (option_map Graphology.source
                          (last_where (fun e => Graphology.target e =? node) l))
              (Graphology.attributes e0))
  end.

(** What a change of the layout selector does to the graph, and how it
    completes; [c] is the counter of the edge key generator before. *)
Definition switched (machineData2 userData : SerializedGraph) (opt : option string)
    (c : N) : Graph * Completion unit :=
  match opt with
  | Some value =>
      Graphology.import (selected_document machineData2 userData value)
                        (mkGraph [] [] c [])
  | None => (mkGraph [] [] c [], Throw TypeError)
  end.

(** Two small documents. *)
Definition machine_document : SerializedGraph :=
  mkSerializedGraph
    [("m1", no_attributes); ("m2", no_attributes)]
    [mkSerializedEdge None "m1" "m2" (observed "uses") false].

Definition user_document : SerializedGraph :=
  mkSerializedGraph [("u1", no_attributes)] [].

(** ** Invariants along listeners *)

(** A handler that keeps [P], whether it completes or throws. *)
Definition preserves (P : World -> Prop) {A : Type} (m : M A) : Prop :=
  forall w : World, P w -> P (fst (m w)).

(** The part of the state only a search would fill: the selected node
    and the suggestion set. *)
Definition search_of (w : World) : option string * option (list string) :=
  (State.selectedNode (w_state w), State.suggestions (w_state w)).

(** What of the graph is not an attribute: the keys of the nodes, the
    key, extremities and kind of the edges, in order, and the generator. *)
Definition skeleton (g : Graph)
    : list string * list (EdgeKey * string * string * bool) * N :=
  (map fst (nodes g),
   map (fun e => (key e, Graphology.source e, Graphology.target e, undirected e)) (edges g),
   edgeKeyGenerator g).

(** The events whose listener adds or drops nodes or edges. *)
Definition edits_graph (e : Event) : bool :=
  match e with
  | MalopAddClick | MalopRemoveClick | AlignmentChange _ => true
  | _ => false
  end.

(** A camera that jumps to the end of its transitions. *)
Definition halve (ratio : Q) : Q := ratio / 2.
Definition double (ratio : Q) : Q := ratio * 2.
Definition reset (ratio : Q) : Q := 1.

(** A session on the machine layout. *)
Definition session : list Event :=
  [AlignmentChange (Some "machine"); EnterNode "m1"; RightClickNode "m1";
   ZoomInClick; CameraFrame (1 # 4); ClickStage; MalopRemoveClick; LeaveNode;
   MalopAddClick; DoubleClickNode; AlignmentChange (Some "user"); MalopAddClick].

(** The same without the edits. *)
Definition browsing : list Event :=
  [EnterNode "h"; RightClickNode "h"; ZoomInClick; CameraFrame (1 # 4);
   ClickStage; LeaveNode; DoubleClickNode; ZoomOutClick; ZoomResetClick; ContextMenu].

(** ** Sample canvas *)

(** Integer pixels. *)
Definition pixels : Label.Numbers :=
  Label.mkNumbers Z (fun n => negb (n =? 0)%Z)
                  (fun n => NilEmpty.string_of_int (Z.to_int n))
                  Z.add Z.sub Z.div 2%Z (fun n => n).

(** Six pixels a character, and one more once a font has been set. *)
Definition fixed_width (context : Label.Context pixels) (text : string) : Z :=
  (Z.of_nat (String.length text)
   * if existsb (fun op => match op with Label.SetFont _ _ => true | _ => false end) context
     then 7 else 6)%Z.

Definition label_settings (attribute : option string) : Label.Settings pixels :=
  Label.mkSettings pixels 14%Z "Arial" "normal" (Label.mkLabelColor attribute None).

Definition host_data : NodeAttr.t :=
  NodeAttr.mk (Some "host") (Some "#ff0000") None None None None None [].

(** ** The index of edges by neighbor along listeners *)

(** [indexed] as a proposition. *)
Definition Indexed (g : Graph) : Prop :=
  (forall e, In e (edges g) -> exists sl, In sl (adjacency g) /\ connects sl e = true)
  /\ (forall sl, In sl (adjacency g) -> exists e, In e (edges g) /\ connects sl e = true)
  /\ distinct_slots (adjacency g) = true.

(** * Properties *)

(** ** Keys and lookups *)

Lemma key_eqb_eq (a b : EdgeKey) : key_eqb a b = true <-> a = b.
Proof.
  destruct a as [x|m], b as [y|n]; simpl; split; intro H;
    try discriminate; try (inversion H; subst).
  - apply String.eqb_eq in H. now subst.
  - apply String.eqb_refl.
  - apply N.eqb_eq in H. now subst.
  - apply N.eqb_refl.
Qed.

Lemma key_eqb_refl (a : EdgeKey) : key_eqb a a = true.
Proof. now apply key_eqb_eq. Qed.

Lemma key_eqb_neq (a b : EdgeKey) : key_eqb a b = false <-> a <> b.
Proof.
  split.
  - intros H E. apply key_eqb_eq in E. congruence.
  - intro H. destruct (key_eqb a b) eqn:E; [|reflexivity].
    apply key_eqb_eq in E. contradiction.
Qed.

Lemma existsb_eqb_false (x : string) (l : list string) :
  existsb (String.eqb x) l = false <-> ~ In x l.
Proof.
  induction l as [|y l IH]; simpl.
  - tauto.
  - rewrite orb_false_iff, IH, String.eqb_neq. intuition congruence.
Qed.

Lemma existsb_key_eqb_false (x : EdgeKey) (l : list EdgeKey) :
  existsb (key_eqb x) l = false <-> ~ In x l.
Proof.
  induction l as [|y l IH]; simpl.
  - tauto.
  - rewrite orb_false_iff, IH, key_eqb_neq. intuition congruence.
Qed.

Lemma distinct_strings_NoDup (l : list string) :
  distinct_strings l = true <-> NoDup l.
Proof.
  induction l as [|x l IH]; simpl.
  - split; [constructor | reflexivity].
  - rewrite andb_true_iff, negb_true_iff, existsb_eqb_false, IH.
    split; [intros [? ?]; now constructor | intro H; inversion H; auto].
Qed.

Lemma distinct_keys_NoDup (l : list EdgeKey) :
  distinct_keys l = true <-> NoDup l.
Proof.
  induction l as [|x l IH]; simpl.
  - split; [constructor | reflexivity].
  - rewrite andb_true_iff, negb_true_iff, existsb_key_eqb_false, IH.
    split; [intros [? ?]; now constructor | intro H; inversion H; auto].
Qed.

Lemma existsb_fst_false {A : Type} (k : string) (l : list (string * A)) :
  existsb (fun p => fst p =? k) l = false <-> ~ In k (map fst l).
Proof.
  induction l as [|p l IH]; simpl.
  - tauto.
  - rewrite orb_false_iff, IH, String.eqb_neq. intuition congruence.
Qed.

Lemma existsb_fst_true {A : Type} (k : string) (l : list (string * A)) :
  existsb (fun p => fst p =? k) l = true <-> In k (map fst l).
Proof.
  induction l as [|p l IH]; simpl.
  - split; [discriminate | tauto].
  - rewrite orb_true_iff, IH, String.eqb_eq. tauto.
Qed.

Lemma existsb_key_false (k : EdgeKey) (l : list EdgeData) :
  existsb (fun e => key_eqb (key e) k) l = false <-> ~ In k (map key l).
Proof.
  induction l as [|e l IH]; simpl.
  - tauto.
  - rewrite orb_false_iff, IH, key_eqb_neq. intuition congruence.
Qed.

Lemma existsb_key_true (k : EdgeKey) (l : list EdgeData) :
  existsb (fun e => key_eqb (key e) k) l = true <-> In k (map key l).
Proof.
  induction l as [|e l IH]; simpl.
  - split; [discriminate | tauto].
  - rewrite orb_true_iff, IH, key_eqb_eq. tauto.
Qed.

Lemma find_node_middle {A : Type} (k : string) (a : A) (l1 l2 : list (string * A)) :
  ~ In k (map fst l1) ->
  find (fun p => fst p =? k) (l1 ++ (k, a) :: l2) = Some (k, a).
Proof.
  induction l1 as [|p l1 IH]; simpl; intro H.
  - now rewrite String.eqb_refl.
  - destruct (fst p =? k) eqn:E.
    + apply String.eqb_eq in E. tauto.
    + apply IH. tauto.
Qed.

Lemma find_edge_middle (e : EdgeData) (l1 l2 : list EdgeData) :
  ~ In (key e) (map key l1) ->
  find (fun x => key_eqb (key x) (key e)) (l1 ++ e :: l2) = Some e.
Proof.
  induction l1 as [|x l1 IH]; simpl; intro H.
  - now rewrite key_eqb_refl.
  - destruct (key_eqb (key x) (key e)) eqn:E.
    + apply key_eqb_eq in E. tauto.
    + apply IH. tauto.
Qed.

Lemma update_node_notin (k : string) (f : NodeAttr.t -> NodeAttr.t)
    (l : list (string * NodeAttr.t)) :
  ~ In k (map fst l) -> map (update_node k f) l = l.
Proof.
  induction l as [|p l IH]; simpl; intro H; [reflexivity|].
  unfold update_node at 1.
  destruct (fst p =? k) eqn:E.
  - apply String.eqb_eq in E. tauto.
  - f_equal. apply IH. tauto.
Qed.

Lemma update_edge_notin (k : EdgeKey) (f : EdgeAttr.t -> EdgeAttr.t)
    (l : list EdgeData) :
  ~ In k (map key l) -> map (update_edge k f) l = l.
Proof.
  induction l as [|e l IH]; simpl; intro H; [reflexivity|].
  unfold update_edge at 1.
  destruct (key_eqb (key e) k) eqn:E.
  - apply key_eqb_eq in E. tauto.
  - f_equal. apply IH. tauto.
Qed.

Lemma update_node_middle (k : string) (f : NodeAttr.t -> NodeAttr.t) (a : NodeAttr.t)
    (l1 l2 : list (string * NodeAttr.t)) :
  ~ In k (map fst l1) -> ~ In k (map fst l2) ->
  map (update_node k f) (l1 ++ (k, a) :: l2) = l1 ++ (k, f a) :: l2.
Proof.
  intros H1 H2. rewrite map_app. simpl.
  rewrite !update_node_notin by assumption.
  unfold update_node. simpl. now rewrite String.eqb_refl.
Qed.

Lemma update_edge_middle (e : EdgeData) (f : EdgeAttr.t -> EdgeAttr.t)
    (l1 l2 : list EdgeData) :
  ~ In (key e) (map key l1) -> ~ In (key e) (map key l2) ->
  map (update_edge (key e) f) (l1 ++ e :: l2)
  = l1 ++ mkEdge (key e) (Graphology.source e) (Graphology.target e)
                 (f (Graphology.attributes e)) (undirected e) :: l2.
Proof.
  intros H1 H2. rewrite map_app. simpl.
  rewrite !update_edge_notin by assumption.
  unfold update_edge. now rewrite key_eqb_refl.
Qed.

Lemma Qlt_bool_iff (x y : Q) : Qlt_bool x y = true <-> (x < y)%Q.
Proof.
  unfold Qlt_bool. rewrite negb_true_iff. split.
  - intro H. apply Qnot_le_lt. intro L. apply Qle_bool_iff in L. congruence.
  - intro H. destruct (Qle_bool y x) eqn:E; [|reflexivity].
    apply Qle_bool_iff in E. exfalso. exact (Qlt_not_le _ _ H E).
Qed.

Lemma Qlt_bool_false_iff (x y : Q) : Qlt_bool x y = false <-> (y <= x)%Q.
Proof.
  unfold Qlt_bool. rewrite negb_false_iff. apply Qle_bool_iff.
Qed.


(** ** Running handlers *)

Lemma bind_normal {A B : Type} (m : M A) (k : A -> M B) (w w' : World) (a : A) :
  m w = (w', Normal a) -> bind m k w = k a w'.
Proof. intro H. unfold bind. now rewrite H. Qed.

Lemma bind_throw {A B : Type} (m : M A) (k : A -> M B) (w w' : World) (e : Error) :
  m w = (w', Throw e) -> bind m k w = (w', Throw e).
Proof. intro H. unfold bind. now rewrite H. Qed.

Lemma getNodeAttribute_run {A : Type} (node : string) (name : NodeAttr.t -> A)
    (w : World) (p : string * NodeAttr.t) :
  nodeData (w_graph w) node = Some p ->
  G.getNodeAttribute node name w = (w, Normal (name (snd p))).
Proof.
  intro H.
  unfold G.getNodeAttribute, G.getNodeAttributes, G.read, bind, get_graph,
    of_completion, ret, Graphology.getNodeAttributes.
  now rewrite H.
Qed.

Lemma getEdgeAttribute_run {A : Type} (edge : EdgeKey) (name : EdgeAttr.t -> A)
    (w : World) (e : EdgeData) :
  edgeData (w_graph w) edge = Some e ->
  G.getEdgeAttribute edge name w = (w, Normal (name (Graphology.attributes e))).
Proof.
  intro H.
  unfold G.getEdgeAttribute, G.read, bind, get_graph,
    of_completion, ret, Graphology.getEdgeAttributes.
  now rewrite H.
Qed.

Lemma setNodeAttribute_run (node name : string) (f : NodeAttr.t -> NodeAttr.t)
    (w : World) :
  hasNode (w_graph w) node = true ->
  G.setNodeAttribute node name f w
  = (mkWorld (mkGraph (map (update_node node f) (nodes (w_graph w)))
                      (edges (w_graph w)) (edgeKeyGenerator (w_graph w))
                      (adjacency (w_graph w)))
             (w_state w) (w_contextState w) (w_ratio w)
             (w_writes w ++ [NodeWrite node name]),
     Normal tt).
Proof.
  intro H.
  unfold G.setNodeAttribute, G.mutate, bind, get_graph, put_graph, of_completion,
    log_write, Graphology.setNodeAttribute.
  now rewrite H.
Qed.

Lemma setEdgeAttribute_run (edge : EdgeKey) (name : string)
    (f : EdgeAttr.t -> EdgeAttr.t) (w : World) :
  hasEdge (w_graph w) edge = true ->
  G.setEdgeAttribute edge name f w
  = (mkWorld (mkGraph (nodes (w_graph w))
                      (map (update_edge edge f) (edges (w_graph w)))
                      (edgeKeyGenerator (w_graph w)) (adjacency (w_graph w)))
             (w_state w) (w_contextState w) (w_ratio w)
             (w_writes w ++ [EdgeWrite edge name]),
     Normal tt).
Proof.
  intro H.
  unfold G.setEdgeAttribute, G.mutate, bind, get_graph, put_graph, of_completion,
    log_write, Graphology.setEdgeAttribute.
  now rewrite H.
Qed.

Lemma hasNode_middle (k : string) (a : NodeAttr.t) l1 l2 es c adj :
  hasNode (mkGraph (l1 ++ (k, a) :: l2) es c adj) k = true.
Proof.
  unfold hasNode. simpl. apply existsb_fst_true. rewrite map_app. simpl.
  apply in_or_app. right. now left.
Qed.

Lemma hasEdge_middle (e : EdgeData) ns l1 l2 c adj :
  hasEdge (mkGraph ns (l1 ++ e :: l2) c adj) (key e) = true.
Proof.
  unfold hasEdge. simpl. apply existsb_key_true. rewrite map_app. simpl.
  apply in_or_app. right. now left.
Qed.

(** ** The level-of-detail toggle *)

Lemma display_values_node_step (r : Q) l1 (k : string) (a : NodeAttr.t) l2 es c adj
    st cs r' ws :
  ~ In k (map fst l1) -> ~ In k (map fst l2) ->
  display_values_node r k (mkWorld (mkGraph (l1 ++ (k, a) :: l2) es c adj) st cs r' ws)
  = (mkWorld (mkGraph (l1 ++ toggled_node r (k, a) :: l2) es c adj) st cs r'
             (ws ++ node_writes r [(k, a)]),
     Normal tt).
Proof.
  intros H1 H2.
  assert (Hfind : nodeData (w_graph (mkWorld (mkGraph (l1 ++ (k, a) :: l2) es c adj)
                                             st cs r' ws)) k
                  = Some (k, a)) by (apply find_node_middle; assumption).
  unfold display_values_node.
  rewrite (bind_normal _ _ _ _ _ (getNodeAttribute_run _ _ _ _ Hfind)).
  rewrite (bind_normal _ _ _ _ _ (getNodeAttribute_run _ _ _ _ Hfind)).
  unfold toggled_node, node_writes, node_written. simpl.
  destruct (Qlt_bool r ratio_threshold); simpl;
    destruct (loose_eq_bool (NodeAttr.isExtraData a) true); simpl;
    try (rewrite app_nil_r; reflexivity).
  - destruct (loose_eq_bool (NodeAttr.hidden a) true); simpl;
      try (rewrite app_nil_r; reflexivity).
    rewrite setNodeAttribute_run by apply hasNode_middle. simpl.
    rewrite update_node_middle by assumption. reflexivity.
  - destruct (loose_eq_bool (NodeAttr.hidden a) false); simpl;
      try (rewrite app_nil_r; reflexivity).
    rewrite setNodeAttribute_run by apply hasNode_middle. simpl.
    rewrite update_node_middle by assumption. reflexivity.
Qed.

Lemma display_values_edge_step (r : Q) ns l1 (e : EdgeData) l2 c adj st cs r' ws :
  ~ In (key e) (map key l1) -> ~ In (key e) (map key l2) ->
  display_values_edge r (key e) (mkWorld (mkGraph ns (l1 ++ e :: l2) c adj) st cs r' ws)
  = (mkWorld (mkGraph ns (l1 ++ toggled_edge r e :: l2) c adj) st cs r'
             (ws ++ edge_writes [e]),
     Normal tt).
Proof.
  intros H1 H2.
  assert (Hfind : edgeData (w_graph (mkWorld (mkGraph ns (l1 ++ e :: l2) c adj)
                                             st cs r' ws)) (key e)
                  = Some e) by (apply find_edge_middle; assumption).
  unfold display_values_edge.
  rewrite (bind_normal _ _ _ _ _ (getEdgeAttribute_run _ _ _ _ Hfind)).
  unfold toggled_edge, edge_writes, structural_edge, tone. simpl.
  destruct (Qlt_bool r ratio_threshold); simpl;
    destruct (loose_eq_bool (EdgeAttr.attr (Graphology.attributes e)) false); simpl;
    try (rewrite app_nil_r; reflexivity).
  - rewrite setEdgeAttribute_run by apply hasEdge_middle. simpl.
    rewrite update_edge_middle by assumption. reflexivity.
  - rewrite setEdgeAttribute_run by apply hasEdge_middle. simpl.
    rewrite update_edge_middle by assumption. reflexivity.
Qed.

Lemma fst_toggled_node (r : Q) (p : string * NodeAttr.t) : fst (toggled_node r p) = fst p.
Proof. unfold toggled_node. now destruct (node_written r (snd p)). Qed.

Lemma key_toggled_edge (r : Q) (e : EdgeData) : key (toggled_edge r e) = key e.
Proof. unfold toggled_edge. now destruct (structural_edge e). Qed.

Lemma node_writes_app (r : Q) l1 l2 :
  node_writes r (l1 ++ l2) = node_writes r l1 ++ node_writes r l2.
Proof. apply flat_map_app. Qed.

Lemma edge_writes_app l1 l2 :
  edge_writes (l1 ++ l2) = edge_writes l1 ++ edge_writes l2.
Proof. apply flat_map_app. Qed.

Lemma display_values_nodes_loop (r : Q) (post pre : list (string * NodeAttr.t))
    es c adj st cs r' ws :
  NoDup (map fst (pre ++ post)) ->
  forEach (map fst post) (display_values_node r)
          (mkWorld (mkGraph (map (toggled_node r) pre ++ post) es c adj) st cs r' ws)
  = (mkWorld (mkGraph (map (toggled_node r) (pre ++ post)) es c adj) st cs r'
             (ws ++ node_writes r post),
     Normal tt).
Proof.
  revert pre ws.
  induction post as [|[k a] post IH]; intros pre ws Hnd.
  - simpl. unfold ret. now rewrite !app_nil_r.
  - simpl.
    rewrite map_app in Hnd. simpl in Hnd.
    pose proof (NoDup_remove_2 _ _ _ Hnd) as Hk.
    assert (H1 : ~ In k (map fst (map (toggled_node r) pre))).
    { rewrite map_map. rewrite (map_ext _ fst (fst_toggled_node r)).
      intro H. apply Hk. apply in_or_app. now left. }
    assert (H2 : ~ In k (map fst post)).
    { intro H. apply Hk. apply in_or_app. now right. }
    rewrite (bind_normal _ _ _ _ _
               (display_values_node_step r _ _ _ _ es c adj st cs r' ws H1 H2)).
    replace (map (toggled_node r) pre ++ toggled_node r (k, a) :: post)
      with (map (toggled_node r) (pre ++ [(k, a)]) ++ post)
      by (rewrite map_app, <- app_assoc; reflexivity).
    rewrite IH.
    + rewrite <- !app_assoc. rewrite <- node_writes_app. reflexivity.
    + rewrite <- app_assoc. simpl. rewrite map_app. simpl. exact Hnd.
Qed.

Lemma display_values_edges_loop (r : Q) (post pre : list EdgeData)
    ns c adj st cs r' ws :
  NoDup (map key (pre ++ post)) ->
  forEach (map key post) (display_values_edge r)
          (mkWorld (mkGraph ns (map (toggled_edge r) pre ++ post) c adj) st cs r' ws)
  = (mkWorld (mkGraph ns (map (toggled_edge r) (pre ++ post)) c adj) st cs r'
             (ws ++ edge_writes post),
     Normal tt).
Proof.
  revert pre ws.
  induction post as [|e post IH]; intros pre ws Hnd.
  - simpl. unfold ret. now rewrite !app_nil_r.
  - simpl.
    rewrite map_app in Hnd. simpl in Hnd.
    pose proof (NoDup_remove_2 _ _ _ Hnd) as Hk.
    assert (H1 : ~ In (key e) (map key (map (toggled_edge r) pre))).
    { rewrite map_map. rewrite (map_ext _ key (key_toggled_edge r)).
      intro H. apply Hk. apply in_or_app. now left. }
    assert (H2 : ~ In (key e) (map key post)).
    { intro H. apply Hk. apply in_or_app. now right. }
    rewrite (bind_normal _ _ _ _ _
               (display_values_edge_step r ns _ _ _ c adj st cs r' ws H1 H2)).
    replace (map (toggled_edge r) pre ++ toggled_edge r e :: post)
      with (map (toggled_edge r) (pre ++ [e]) ++ post)
      by (rewrite map_app, <- app_assoc; reflexivity).
    rewrite IH.
    + rewrite <- !app_assoc. rewrite <- edge_writes_app. reflexivity.
    + rewrite <- app_assoc. simpl. rewrite map_app. simpl. exact Hnd.
Qed.

(** The toggle on a graph whose keys are distinct: every node and every
    edge is toggled on its own, and the guarded writes are logged in
    visiting order. *)
Lemma display_values_run (w : World) :
  NoDup (map fst (nodes (w_graph w))) ->
  NoDup (map key (edges (w_graph w))) ->
  display_values w
  = (mkWorld (mkGraph (map (toggled_node (w_ratio w)) (nodes (w_graph w)))
                      (map (toggled_edge (w_ratio w)) (edges (w_graph w)))
                      (edgeKeyGenerator (w_graph w)) (adjacency (w_graph w)))
             (w_state w) (w_contextState w) (w_ratio w)
             (w_writes w ++ node_writes (w_ratio w) (nodes (w_graph w))
                        ++ edge_writes (edges (w_graph w))),
     Normal tt).
Proof.
  intros Hn He.
  destruct w as [[ns es c adj] st cs r ws]. simpl in *.
  unfold display_values.
  unfold bind at 1. unfold camera_ratio. simpl.
  unfold bind at 1. unfold G.nodes, bind at 1, get_graph, ret. simpl.
  pose proof (display_values_nodes_loop r ns [] es c adj st cs r ws Hn) as Hloop.
  simpl in Hloop.
  rewrite (bind_normal _ _ _ _ _ Hloop).
  unfold bind at 1. unfold G.edges, bind at 1, get_graph, ret. simpl.
  pose proof (display_values_edges_loop r es [] (map (toggled_node r) ns) c adj st cs r
                (ws ++ node_writes r ns) He) as Hloop2.
  simpl in Hloop2.
  rewrite Hloop2. now rewrite <- app_assoc.
Qed.

Lemma find_node_NoDup {A : Type} (p : string * A) (l : list (string * A)) :
  NoDup (map fst l) -> In p l ->
  find (fun q => fst q =? fst p) l = Some p.
Proof.
  induction l as [|q l IH]; simpl; intros Hnd Hin; [contradiction|].
  inversion Hnd as [|? ? Hq Hl]; subst.
  destruct Hin as [-> | Hin].
  - now rewrite String.eqb_refl.
  - destruct (fst q =? fst p) eqn:E.
    + apply String.eqb_eq in E. exfalso. apply Hq. rewrite E.
      now apply in_map.
    + now apply IH.
Qed.

Lemma find_edge_NoDup (e : EdgeData) (l : list EdgeData) :
  NoDup (map key l) -> In e l ->
  find (fun x => key_eqb (key x) (key e)) l = Some e.
Proof.
  induction l as [|x l IH]; simpl; intros Hnd Hin; [contradiction|].
  inversion Hnd as [|? ? Hx Hl]; subst.
  destruct Hin as [-> | Hin].
  - now rewrite key_eqb_refl.
  - destruct (key_eqb (key x) (key e)) eqn:E.
    + apply key_eqb_eq in E. exfalso. apply Hx. rewrite E.
      now apply in_map.
    + now apply IH.
Qed.

Lemma well_formed_nodes (g : Graph) :
  well_formed g = true -> NoDup (map fst (nodes g)).
Proof.
  unfold well_formed. rewrite !andb_true_iff.
  intros [[[H _] _] _]. now apply distinct_strings_NoDup.
Qed.

Lemma well_formed_edges (g : Graph) :
  well_formed g = true -> NoDup (map key (edges g)).
Proof.
  unfold well_formed. rewrite !andb_true_iff.
  intros [[[_ H] _] _]. now apply distinct_keys_NoDup.
Qed.

Lemma map_fst_toggled (r : Q) (l : list (string * NodeAttr.t)) :
  map fst (map (toggled_node r) l) = map fst l.
Proof. rewrite map_map. apply map_ext. apply fst_toggled_node. Qed.

Lemma map_key_toggled (r : Q) (l : list EdgeData) :
  map key (map (toggled_edge r) l) = map key l.
Proof. rewrite map_map. apply map_ext. apply key_toggled_edge. Qed.

Lemma toggled_node_hidden (r : Q) (k : string) (a : NodeAttr.t) (h : bool) :
  NodeAttr.isExtraData a = Some true ->
  NodeAttr.hidden a = Some h ->
  NodeAttr.hidden (snd (toggled_node r (k, a))) = Some (negb (Qlt_bool r ratio_threshold)).
Proof.
  intros He Hh. unfold toggled_node, node_written. simpl. rewrite He, Hh. simpl.
  destruct h, (Qlt_bool r ratio_threshold); simpl; try reflexivity; exact Hh.
Qed.

Lemma toggled_edge_color (r : Q) (e : EdgeData) :
  EdgeAttr.attr (Graphology.attributes e) = Some false ->
  EdgeAttr.color (Graphology.attributes (toggled_edge r e)) = Some (tone r).
Proof.
  intro H. unfold toggled_edge, structural_edge. now rewrite H.
Qed.

(** C5, as the code has it.  On a well-formed graph the toggle completes,
    and afterwards: every node flagged [isExtraData] whose [hidden]
    attribute is a boolean has [hidden] false when the camera ratio is
    strictly below the threshold [.3] and true when the ratio is at or
    above it; every edge flagged [attr == false] has color ["#FFFFFF"]
    below the threshold and ["#000000"] at or above it. *)
Theorem display_values_threshold :
  forall w : World,
    well_formed (w_graph w) = true ->
    snd (display_values w) = Normal tt
    /\ (forall (k : string) (a : NodeAttr.t) (h : bool),
          In (k, a) (nodes (w_graph w)) ->
          NodeAttr.isExtraData a = Some true ->
          NodeAttr.hidden a = Some h ->
          exists a' : NodeAttr.t,
            Graphology.getNodeAttributes (w_graph (fst (display_values w))) k = Normal a'
            /\ ((w_ratio w < ratio_threshold)%Q -> NodeAttr.hidden a' = Some false)
            /\ ((ratio_threshold <= w_ratio w)%Q -> NodeAttr.hidden a' = Some true))
    /\ (forall e : EdgeData,
          In e (edges (w_graph w)) ->
          EdgeAttr.attr (Graphology.attributes e) = Some false ->
          exists a' : EdgeAttr.t,
            Graphology.getEdgeAttributes (w_graph (fst (display_values w))) (key e) = Normal a'
            /\ ((w_ratio w < ratio_threshold)%Q -> EdgeAttr.color a' = Some "#FFFFFF")
            /\ ((ratio_threshold <= w_ratio w)%Q -> EdgeAttr.color a' = Some "#000000")).
Proof.
  intros w Hwf.
  pose proof (well_formed_nodes _ Hwf) as Hn.
  pose proof (well_formed_edges _ Hwf) as He.
  rewrite (display_values_run w Hn He). simpl.
  split; [reflexivity|]. split.
  - intros k a h Hin Hx Hh.
    exists (snd (toggled_node (w_ratio w) (k, a))).
    split; [|split].
    + unfold Graphology.getNodeAttributes, nodeData. simpl.
      assert (Hf : find (fun q => fst q =? fst (toggled_node (w_ratio w) (k, a)))
                     (map (toggled_node (w_ratio w)) (nodes (w_graph w)))
                   = Some (toggled_node (w_ratio w) (k, a))).
      { apply find_node_NoDup.
        - now rewrite map_fst_toggled.
        - now apply in_map. }
      rewrite fst_toggled_node in Hf. simpl in Hf. now rewrite Hf.
    + intro Hlt. rewrite (toggled_node_hidden _ _ _ _ Hx Hh).
      apply Qlt_bool_iff in Hlt. now rewrite Hlt.
    + intro Hge. rewrite (toggled_node_hidden _ _ _ _ Hx Hh).
      apply Qlt_bool_false_iff in Hge. now rewrite Hge.
  - intros e Hin Ha.
    exists (Graphology.attributes (toggled_edge (w_ratio w) e)).
    split; [|split].
    + unfold Graphology.getEdgeAttributes, edgeData. simpl.
      assert (Hf : find (fun x => key_eqb (key x) (key (toggled_edge (w_ratio w) e)))
                     (map (toggled_edge (w_ratio w)) (edges (w_graph w)))
                   = Some (toggled_edge (w_ratio w) e)).
      { apply find_edge_NoDup.
        - now rewrite map_key_toggled.
        - now apply in_map. }
      rewrite key_toggled_edge in Hf. now rewrite Hf.
    + intro Hlt. rewrite (toggled_edge_color _ _ Ha). unfold tone.
      apply Qlt_bool_iff in Hlt. now rewrite Hlt.
    + intro Hge. rewrite (toggled_edge_color _ _ Ha). unfold tone.
      apply Qlt_bool_false_iff in Hge. now rewrite Hge.
Qed.

Lemma display_values_threshold_witness :
  (exists a' : NodeAttr.t,
     Graphology.getNodeAttributes
       (w_graph (fst (display_values (lod_world (2999 # 10000))))) "x" = Normal a'
     /\ NodeAttr.hidden a' = Some false)
  /\ (exists a' : NodeAttr.t,
        Graphology.getNodeAttributes
          (w_graph (fst (display_values (lod_world ratio_threshold)))) "y" = Normal a'
        /\ NodeAttr.hidden a' = Some true).
Proof.
  split.
  - destruct (display_values_threshold (lod_world (2999 # 10000)) eq_refl)
      as [_ [Hnodes _]].
    destruct (Hnodes "x" (extra_data (Some true)) true) as [a' [Ha [Hlt _]]].
    + simpl. tauto.
    + reflexivity.
    + reflexivity.
    + exists a'. split; [exact Ha|]. apply Hlt. reflexivity.
  - destruct (display_values_threshold (lod_world ratio_threshold) eq_refl)
      as [_ [Hnodes _]].
    destruct (Hnodes "y" (extra_data (Some false)) false) as [a' [Ha [_ Hge]]].
    + simpl. tauto.
    + reflexivity.
    + reflexivity.
    + exists a'. split; [exact Ha|]. apply Hge. apply Qle_refl.
Defined.

(** C5, counterexample.  Node [u] is flagged [isExtraData] and carries no
    [hidden] attribute.  At ratio [.3] the guard [node_hidden == false]
    fails on [undefined], nothing is written, and [hidden] is still unset
    after the toggle instead of true. *)
Lemma display_values_keeps_unset_hidden :
  In ("u", extra_data None) (nodes lod_graph)
  /\ NodeAttr.isExtraData (extra_data None) = Some true
  /\ (ratio_threshold <= w_ratio (lod_world ratio_threshold))%Q
  /\ exists a' : NodeAttr.t,
       Graphology.getNodeAttributes
         (w_graph (fst (display_values (lod_world ratio_threshold)))) "u" = Normal a'
       /\ NodeAttr.hidden a' = None
       /\ NodeAttr.hidden a' <> Some true.
Proof.
  split; [simpl; tauto|]. split; [reflexivity|]. split; [apply Qle_refl|].
  exists (extra_data None). split; [reflexivity|]. split; [reflexivity|discriminate].
Qed.

Lemma toggled_node_idem (r : Q) (p : string * NodeAttr.t) :
  toggled_node r (toggled_node r p) = toggled_node r p.
Proof.
  destruct p as [k a]. unfold toggled_node, node_written. simpl.
  destruct (loose_eq_bool (NodeAttr.isExtraData a) true) eqn:E; simpl; [|now rewrite E].
  destruct (loose_eq_bool (NodeAttr.hidden a) (Qlt_bool r ratio_threshold)) eqn:F; simpl.
  - rewrite E. simpl. now destruct (Qlt_bool r ratio_threshold).
  - now rewrite E, F.
Qed.

Lemma node_written_toggled (r : Q) (p : string * NodeAttr.t) :
  node_written r (snd (toggled_node r p)) = false.
Proof.
  destruct p as [k a]. unfold toggled_node, node_written. simpl.
  destruct (loose_eq_bool (NodeAttr.isExtraData a) true) eqn:E; simpl; [|now rewrite E].
  destruct (loose_eq_bool (NodeAttr.hidden a) (Qlt_bool r ratio_threshold)) eqn:F; simpl.
  - rewrite E. simpl. now destruct (Qlt_bool r ratio_threshold).
  - now rewrite E, F.
Qed.

Lemma node_writes_toggled (r : Q) (l : list (string * NodeAttr.t)) :
  node_writes r (map (toggled_node r) l) = [].
Proof.
  induction l as [|p l IH]; simpl; [reflexivity|].
  now rewrite node_written_toggled.
Qed.

Lemma toggled_edge_idem (r : Q) (e : EdgeData) :
  toggled_edge r (toggled_edge r e) = toggled_edge r e.
Proof.
  unfold toggled_edge, structural_edge.
  destruct (loose_eq_bool (EdgeAttr.attr (Graphology.attributes e)) false) eqn:E; simpl.
  - now rewrite E.
  - now rewrite E.
Qed.

Lemma edge_writes_filter (l : list EdgeData) :
  edge_writes l = map (fun e => EdgeWrite (key e) "color") (filter structural_edge l).
Proof.
  induction l as [|e l IH]; simpl; [reflexivity|].
  destruct (structural_edge e); simpl; now rewrite IH.
Qed.

(** C6, as the code has it.  On a well-formed graph and at a fixed camera
    ratio, a second run of the toggle right after a first one completes
    and leaves the graph as the first run left it.  It writes no node
    attribute; the color writes on edges are not guarded, so it writes the
    color of every edge flagged [attr == false] once more, and nothing
    else. *)
Theorem display_values_idempotent :
  forall w : World,
    well_formed (w_graph w) = true ->
    let w1 := fst (display_values w) in
    let w2 := fst (display_values w1) in
    snd (display_values w1) = Normal tt
    /\ w_graph w2 = w_graph w1
    /\ w_writes w2
       = w_writes w1
         ++ map (fun e => EdgeWrite (key e) "color")
                (filter structural_edge (edges (w_graph w1))).
Proof.
  intros w Hwf.
  pose proof (well_formed_nodes _ Hwf) as Hn.
  pose proof (well_formed_edges _ Hwf) as He.
  rewrite (display_values_run w Hn He). simpl.
  rewrite display_values_run; simpl.
  - rewrite node_writes_toggled. simpl.
    rewrite !map_map.
    rewrite (map_ext _ _ (toggled_node_idem (w_ratio w))).
    rewrite (map_ext _ _ (toggled_edge_idem (w_ratio w))).
    rewrite !edge_writes_filter.
    repeat split.
  - now rewrite map_fst_toggled.
  - now rewrite map_key_toggled.
Qed.

Lemma display_values_idempotent_witness :
  w_graph (fst (display_values (fst (display_values (lod_world 1)))))
  = w_graph (fst (display_values (lod_world 1))).
Proof.
  destruct (display_values_idempotent (lod_world 1) eq_refl) as [_ [H _]].
  exact H.
Defined.

(** C6, counterexample.  The graph has one edge flagged [attr == false].
    A second run of the toggle at the same ratio writes the color of that
    edge again: the write is not guarded by a comparison with the current
    color. *)
Lemma display_values_rewrites_edge_color :
  w_writes (fst (display_values (fst (display_values (lod_world 1)))))
  = w_writes (fst (display_values (lod_world 1))) ++ [EdgeWrite (Given "s") "color"]
  /\ w_writes (fst (display_values (fst (display_values (lod_world 1)))))
     <> w_writes (fst (display_values (lod_world 1))).
Proof. split; [reflexivity | discriminate]. Qed.

(** ** The reducers *)

Lemma set_hidden_twice (a : EdgeAttr.t) :
  EdgeAttr.set_hidden true (EdgeAttr.set_hidden true a) = EdgeAttr.set_hidden true a.
Proof. reflexivity. Qed.

(** C3.  While a hover is active (a hovered-neighbor set exists) and the
    hovered node is not flagged [isMalop], the node reducer gives every
    node that is neither the hovered node nor one of its neighbors the
    empty label and the grey color. *)
Theorem nodeReducer_greys_outside_hover :
  forall (st : State.t) (hoveredNeighbors : list string) (node : string)
         (data : NodeAttr.t),
    State.hoveredNeighbors st = Some hoveredNeighbors ->
    truthy_bool (State.hoveredNodeIsMalop st) = false ->
    State.hoveredNode st <> Some node ->
    has hoveredNeighbors node = false ->
    NodeAttr.label (nodeReducer st node data) = Some ""
    /\ NodeAttr.color (nodeReducer st node data) = Some "#f6f6f6".
Proof.
  intros st hn node data Hn Hm Hh Hout.
  assert (Hneq : strict_eq (State.hoveredNode st) node = false).
  { destruct (State.hoveredNode st) as [h|] eqn:E; simpl; [|reflexivity].
    apply String.eqb_neq. intros ->. now apply Hh. }
  unfold nodeReducer. rewrite Hm, Hn, Hout, Hneq. simpl.
  destruct (strict_eq (State.selectedNode st) node).
  - split; reflexivity.
  - destruct (State.suggestions st) as [s|]; [destruct (has s node)|];
      simpl; split; reflexivity.
Qed.

Lemma nodeReducer_greys_outside_hover_witness :
  NodeAttr.label (nodeReducer hovering_h "z" (extra_data None)) = Some ""
  /\ NodeAttr.color (nodeReducer hovering_h "z" (extra_data None)) = Some "#f6f6f6".
Proof.
  apply (@nodeReducer_greys_outside_hover hovering_h ["b"] "z" (extra_data None)).
  - reflexivity.
  - reflexivity.
  - discriminate.
  - reflexivity.
Defined.

(** C4, as the code has it.  While the hovered node is not flagged
    [isMalop], the edge reducer sets [hidden] exactly when (a) a node is
    hovered, the edge has not the hovered node as an extremity and the
    SOURCE of the edge is outside the hover's neighbor set, or (b) a
    suggestion set is active and an endpoint of the edge is absent from it;
    otherwise it returns the base display data unchanged. *)
Theorem edgeReducer_hides_exactly :
  forall (st : State.t) (g : Graph) (edge : EdgeKey) (e : EdgeData)
         (data : EdgeAttr.t),
    edgeData g edge = Some e ->
    truthy_bool (State.hoveredNodeIsMalop st) = false ->
    edgeReducer st g edge data
    = Normal (if edge_hidden st e then EdgeAttr.set_hidden true data else data).
Proof.
  intros st g edge e data He Hm.
  unfold edgeReducer, edge_hidden, source_of, target_of, hasExtremity.
  rewrite Hm, He. simpl.
  destruct (truthy_string (State.hoveredNode st)); simpl;
    destruct (hasExtremity_data e (to_string (State.hoveredNode st))); simpl;
    destruct (State.hoveredNeighbors st) as [hn|]; simpl;
    try destruct (has hn (Graphology.source e)); simpl;
    destruct (State.suggestions st) as [sg|]; simpl;
    try destruct (has sg (Graphology.source e)); simpl;
    try destruct (has sg (Graphology.target e)); simpl;
    reflexivity.
Qed.

Lemma edgeReducer_hides_exactly_witness :
  edgeReducer hovering_h graph_a_b (Given "e") (Graphology.attributes edge_a_b)
  = Normal (EdgeAttr.set_hidden true (Graphology.attributes edge_a_b)).
Proof.
  apply (@edgeReducer_hides_exactly hovering_h graph_a_b (Given "e") edge_a_b
           (Graphology.attributes edge_a_b)).
  - reflexivity.
  - reflexivity.
Defined.

(** C4, counterexample.  Node [h] is hovered with neighbor set [{b}] and
    no suggestion set is active.  The edge from [a] to [b] touches the
    neighbor [b], so the rule as claimed leaves it alone; the reducer
    looks at the source [a] only and hides the edge. *)
Lemma edgeReducer_hides_edge_into_neighbor :
  claimed_edge_hidden hovering_h edge_a_b = false
  /\ truthy_bool (State.hoveredNodeIsMalop hovering_h) = false
  /\ EdgeAttr.hidden (Graphology.attributes edge_a_b) = None
  /\ edgeReducer hovering_h graph_a_b (Given "e") (Graphology.attributes edge_a_b)
     = Normal (EdgeAttr.set_hidden true (Graphology.attributes edge_a_b)).
Proof. repeat split. Qed.

(** C7.  While the hovered node is flagged [isMalop], both reducers return
    the base display data unchanged, for every node and every edge. *)
Theorem reducers_suppressed_by_malop :
  forall (st : State.t) (g : Graph) (node : string) (edge : EdgeKey)
         (ndata : NodeAttr.t) (edata : EdgeAttr.t),
    State.hoveredNodeIsMalop st = Some true ->
    nodeReducer st node ndata = ndata
    /\ edgeReducer st g edge edata = Normal edata.
Proof.
  intros st g node edge ndata edata Hm.
  unfold nodeReducer, edgeReducer. rewrite Hm. simpl. split; reflexivity.
Qed.

Lemma reducers_suppressed_by_malop_witness :
  nodeReducer hovering_malop "z" no_attributes = no_attributes
  /\ edgeReducer hovering_malop graph_a_b (Given "e") (Graphology.attributes edge_a_b)
     = Normal (Graphology.attributes edge_a_b).
Proof.
  apply (@reducers_suppressed_by_malop hovering_malop graph_a_b "z" (Given "e")
           no_attributes (Graphology.attributes edge_a_b)).
  reflexivity.
Defined.

(** ** The layout selector *)

Lemma import_nodes_edges (l : list (string * NodeAttr.t)) (g : Graph) :
  edges (fst (import_nodes l g)) = edges g.
Proof.
  revert g. induction l as [|[k a] l IH]; intro g; simpl; [reflexivity|].
  unfold addNode. destruct (hasNode g k); simpl; [reflexivity|].
  now rewrite IH.
Qed.

Lemma import_nodes_In (l : list (string * NodeAttr.t)) (g : Graph) (p : string * NodeAttr.t) :
  In p (nodes (fst (import_nodes l g))) -> In p (nodes g) \/ In p l.
Proof.
  revert g. induction l as [|[k a] l IH]; intro g; simpl; [tauto|].
  unfold addNode. destruct (hasNode g k); simpl; [tauto|].
  intro H. apply IH in H. simpl in H.
  destruct H as [H | H]; [|tauto].
  apply in_app_or in H. simpl in H. tauto.
Qed.

Lemma import_edges_nodes (l : list SerializedEdge) (g : Graph) :
  nodes (fst (import_edges l g)) = nodes g.
Proof.
  revert g. induction l as [|se l IH]; intro g; simpl; [reflexivity|].
  unfold addEdgeInternal.
  destruct (negb (hasNode g (s_source se))); simpl; [reflexivity|].
  destruct (negb (hasNode g (s_target se))); simpl; [reflexivity|].
  destruct (s_key se) as [s|]; simpl.
  - destruct (hasEdge g (Given s)); simpl; [reflexivity|]. now rewrite IH.
  - now rewrite IH.
Qed.

Lemma import_edges_In (l : list SerializedEdge) (g : Graph) (e : EdgeData) :
  In e (edges (fst (import_edges l g))) ->
  In e (edges g) \/ exists se, In se l /\ imported_from se e.
Proof.
  revert g. induction l as [|se l IH]; intro g; simpl; [tauto|].
  unfold addEdgeInternal.
  destruct (negb (hasNode g (s_source se))); simpl; [tauto|].
  destruct (negb (hasNode g (s_target se))); simpl; [tauto|].
  destruct (s_key se) as [s|] eqn:Hk; simpl.
  - destruct (hasEdge g (Given s)); simpl; [tauto|].
    intro H. apply IH in H. simpl in H.
    destruct H as [H | [se' [Hin Him]]].
    + apply in_app_or in H. simpl in H.
      destruct H as [H | [H | []]]; [tauto|].
      right. exists se. split; [tauto|]. subst e.
      repeat split; simpl. intros s' Hs'. congruence.
    + right. exists se'. tauto.
  - intro H. apply IH in H. simpl in H.
    destruct H as [H | [se' [Hin Him]]].
    + apply in_app_or in H. simpl in H.
      destruct H as [H | [H | []]]; [tauto|].
      right. exists se. split; [tauto|]. subst e.
      repeat split; simpl. intros s' Hs'. congruence.
    + right. exists se'. tauto.
Qed.

Lemma import_In (data : SerializedGraph) (g : Graph) :
  (forall p, In p (nodes (fst (Graphology.import data g))) ->
             In p (nodes g) \/ In p (s_nodes data))
  /\ (forall e, In e (edges (fst (Graphology.import data g))) ->
                In e (edges g) \/ exists se, In se (s_edges data) /\ imported_from se e).
Proof.
  unfold Graphology.import.
  pose proof (import_nodes_In (s_nodes data) g) as Hn.
  pose proof (import_nodes_edges (s_nodes data) g) as He.
  destruct (import_nodes (s_nodes data) g) as [g' [u|err]]; simpl in *.
  - split.
    + intros p Hp. rewrite import_edges_nodes in Hp. auto.
    + intros e Hin. apply import_edges_In in Hin. rewrite He in Hin. exact Hin.
  - split; [exact Hn|]. intros e Hin. rewrite He in Hin. tauto.
Qed.

Lemma alignmentSelect_change_run (machineData2 userData : SerializedGraph)
    (value : string) (w : World) :
  w_graph (fst (alignmentSelect_change machineData2 userData (Some value) w))
  = fst (Graphology.import (selected_document machineData2 userData value)
                           (mkGraph [] [] (edgeKeyGenerator (w_graph w)) [])).
Proof.
  unfold alignmentSelect_change, selected_document, G.clear, G.import, bind,
    get_graph, put_graph, ret, Graphology.clear. simpl.
  destruct (value =? "machine") eqn:E1.
  - apply String.eqb_eq in E1. subst value. reflexivity.
  - destruct (value =? "user") eqn:E2; [reflexivity|].
    destruct (value =? "mitre"); reflexivity.
Qed.

(** C9.  Whatever the graph held before, and for every value of the layout
    selector, no node and no edge of the previous layout is left after the
    change handler: each node of the graph is a node of the selected
    document and each edge is the image of an edge of that document.  The
    graph is the one obtained by importing the document into a graph
    without nodes and edges; all that this graph has of the previous one
    is the counter of the edge key generator, which [clear] does not
    reset.  [machineData2] and [userData] are the two documents as they are
    when the handler runs. *)
Theorem layout_switch_leaves_no_residue :
  forall (machineData2 userData : SerializedGraph) (w : World) (value : string),
    let data := selected_document machineData2 userData value in
    let w' := fst (alignmentSelect_change machineData2 userData (Some value) w) in
    w_graph w'
    = fst (Graphology.import data (mkGraph [] [] (edgeKeyGenerator (w_graph w)) []))
    /\ (forall p, In p (nodes (w_graph w')) -> In p (s_nodes data))
    /\ (forall e, In e (edges (w_graph w')) ->
                  exists se, In se (s_edges data) /\ imported_from se e).
Proof.
  intros machineData2 userData w value data w'.
  unfold w'. rewrite alignmentSelect_change_run. fold data.
  destruct (import_In data (mkGraph [] [] (edgeKeyGenerator (w_graph w)) []))
    as [Hn He].
  split; [reflexivity|]. split.
  - intros p Hp. destruct (Hn p Hp) as [[] | H]. exact H.
  - intros e Hin. destruct (He e Hin) as [[] | H]. exact H.
Qed.

(** ** Add back with nothing removed *)

(** C10.  When no removal is pending, that is when [removedNode] is unset,
    the add-back handler returns at once: the graph, the edit buffer and
    everything else are as they were. *)
Theorem malopAddBtn_click_without_removal :
  forall w : World,
    ContextState.removedNode (w_contextState w) = None ->
    malopAddBtn_click w = (w, Normal tt).
Proof.
  intros w H.
  unfold malopAddBtn_click, bind, get_contextState. rewrite H. reflexivity.
Qed.

Lemma malopAddBtn_click_without_removal_witness :
  malopAddBtn_click (lod_world 1) = (lod_world 1, Normal tt).
Proof.
  apply malopAddBtn_click_without_removal. reflexivity.
Defined.

(** ** The remove handler *)

Lemma findEdge_callback_run (g : Graph) (st : State.t) (sel : string)
    (rn : option string) (ra : option NodeAttr.t)
    (l0 : list ContextState.RemovedEdge) (ne : option (list EdgeKey))
    (r : Q) (ws : list AttributeWrite) (tbl : NewEdges.t) (e : EdgeData) :
  findEdge_callback tbl e
    (mkWorld g st (ContextState.mk (Some sel) rn ra (Some l0) ne) r ws)
  = (mkWorld g st (ContextState.mk (Some sel) rn ra (Some (l0 ++ [to_removed e])) ne) r ws,
     Normal (scan_step sel tbl e)).
Proof.
  unfold findEdge_callback, revmovedEdges_push, bind, get_contextState,
    put_contextState, ret, scan_step, structural_edge, label_key, to_removed.
  simpl. rewrite (String.eqb_sym sel (Graphology.source e)).
  rewrite (String.eqb_sym sel (Graphology.target e)). reflexivity.
Qed.

Lemma findEdge_callback_throws (g : Graph) (st : State.t) (sel : option string)
    (rn : option string) (ra : option NodeAttr.t) (ne : option (list EdgeKey))
    (r : Q) (ws : list AttributeWrite) (tbl : NewEdges.t) (e : EdgeData) :
  findEdge_callback tbl e (mkWorld g st (ContextState.mk sel rn ra None ne) r ws)
  = (mkWorld g st (ContextState.mk sel rn ra None ne) r ws, Throw TypeError).
Proof. reflexivity. Qed.

Lemma scan_run (visits : list EdgeData) :
  forall (g : Graph) (st : State.t) (sel : string) (rn : option string)
         (ra : option NodeAttr.t) (l0 : list ContextState.RemovedEdge)
         (ne : option (list EdgeKey)) (r : Q) (ws : list AttributeWrite)
         (tbl : NewEdges.t),
    foldM visits findEdge_callback tbl
      (mkWorld g st (ContextState.mk (Some sel) rn ra (Some l0) ne) r ws)
    = (mkWorld g st
         (ContextState.mk (Some sel) rn ra (Some (l0 ++ map to_removed visits)) ne) r ws,
       Normal (scan sel visits tbl)).
Proof.
  induction visits as [|e visits IH]; intros; simpl.
  - unfold ret. now rewrite app_nil_r.
  - rewrite (bind_normal _ _ _ _ _ (findEdge_callback_run g st sel rn ra l0 ne r ws tbl e)).
    rewrite IH. now rewrite <- app_assoc.
Qed.

Lemma insertable_nodes (ns : list (string * NodeAttr.t)) (es es' : list EdgeData)
    (c c' : N) (adj adj' : list Slot) (p : string * NewEdges.Entry) :
  insertable (mkGraph ns es c adj) p = insertable (mkGraph ns es' c' adj') p.
Proof. reflexivity. Qed.

Lemma inserted_nodes (ns : list (string * NodeAttr.t)) (es es' : list EdgeData)
    (c c' : N) (adj adj' : list Slot) (l : NewEdges.t) :
  inserted (mkGraph ns es c adj) l = inserted (mkGraph ns es' c' adj') l.
Proof.
  induction l as [|p l IH]; simpl; [reflexivity|].
  rewrite (insertable_nodes ns es es' c c' adj adj' p). now rewrite IH.
Qed.

Lemma forallb_insertable_nodes (ns : list (string * NodeAttr.t)) (es es' : list EdgeData)
    (c c' : N) (adj adj' : list Slot) (l : NewEdges.t) :
  forallb (insertable (mkGraph ns es c adj)) l
  = forallb (insertable (mkGraph ns es' c' adj')) l.
Proof.
  induction l as [|p l IH]; simpl; [reflexivity|].
  rewrite (insertable_nodes ns es es' c c' adj adj' p). now rewrite IH.
Qed.

Lemma attach_all_app (adj : list Slot) (l1 l2 : list EdgeData) :
  attach_all adj (l1 ++ l2) = attach_all (attach_all adj l1) l2.
Proof. unfold attach_all. apply fold_left_app. Qed.

Lemma add_bridge_run (ns : list (string * NodeAttr.t)) (es : list EdgeData) (c : N)
    (adj : list Slot)
    (st : State.t) (sel rn : option string) (ra : option NodeAttr.t)
    (re : option (list ContextState.RemovedEdge)) (k0 : list EdgeKey)
    (r : Q) (ws : list AttributeWrite) (p : string * NewEdges.Entry) :
  insertable (mkGraph ns es c adj) p = true ->
  add_bridge p (mkWorld (mkGraph ns es c adj) st
                        (ContextState.mk sel rn ra re (Some k0)) r ws)
  = (mkWorld (mkGraph ns (es ++ bridge_edges c [p]) (N.succ c)
                      (attach_all adj (bridge_edges c [p]))) st
             (ContextState.mk sel rn ra re (Some (k0 ++ [Generated c]))) r ws,
     Normal tt).
Proof.
  unfold insertable. rewrite andb_true_iff. intros [Hs Ht].
  unfold add_bridge, G.addEdge, newEdges_push, bind, get_graph, put_graph,
    of_completion, get_contextState, put_contextState, ret,
    Graphology.addEdge, addEdgeInternal.
  simpl. rewrite Hs, Ht. reflexivity.
Qed.

Lemma add_bridge_throws (g : Graph) (st : State.t) (cs : ContextState.t)
    (r : Q) (ws : list AttributeWrite) (p : string * NewEdges.Entry) :
  insertable g p = false ->
  add_bridge p (mkWorld g st cs r ws) = (mkWorld g st cs r ws, Throw NotFoundGraphError).
Proof.
  unfold insertable. intro H.
  unfold add_bridge, G.addEdge, newEdges_push, bind, get_graph, put_graph,
    of_completion, get_contextState, put_contextState, ret,
    Graphology.addEdge, addEdgeInternal.
  simpl.
  destruct (hasNode g (to_string (NewEdges.source (snd p)))); simpl; [|reflexivity].
  simpl in H. now rewrite H.
Qed.

Lemma bridge_edges_app (c : N) (l1 l2 : NewEdges.t) :
  bridge_edges c (l1 ++ l2)
  = bridge_edges c l1 ++ bridge_edges (c + N.of_nat (List.length l1)) l2.
Proof.
  revert c. induction l1 as [|p l1 IH]; intro c; simpl.
  - now rewrite N.add_0_r.
  - rewrite IH. do 3 f_equal. lia.
Qed.

Lemma length_bridge_edges (c : N) (l : NewEdges.t) :
  List.length (bridge_edges c l) = List.length l.
Proof. revert c. induction l; intro c; simpl; auto. Qed.

(** The loop over [newEdges]: bridges are inserted up to the first one
    with a missing extremity, where [addEdge] throws. *)
Lemma add_bridges_run (l : NewEdges.t) :
  forall (ns : list (string * NodeAttr.t)) (es : list EdgeData) (c : N)
         (adj : list Slot)
         (st : State.t) (sel rn : option string) (ra : option NodeAttr.t)
         (re : option (list ContextState.RemovedEdge)) (k0 : list EdgeKey)
         (r : Q) (ws : list AttributeWrite),
    forEach l add_bridge
      (mkWorld (mkGraph ns es c adj) st (ContextState.mk sel rn ra re (Some k0)) r ws)
    = (mkWorld (mkGraph ns (es ++ bridge_edges c (inserted (mkGraph ns es c adj) l))
                        (c + N.of_nat (List.length (inserted (mkGraph ns es c adj) l)))
                        (attach_all adj (bridge_edges c (inserted (mkGraph ns es c adj) l))))
               st
               (ContextState.mk sel rn ra re
                  (Some (k0 ++ map key (bridge_edges c (inserted (mkGraph ns es c adj) l)))))
               r ws,
       if forallb (insertable (mkGraph ns es c adj)) l
       then Normal tt else Throw NotFoundGraphError).
Proof.
  induction l as [|p l IH]; intros; simpl.
  - unfold ret. now rewrite !app_nil_r, N.add_0_r.
  - destruct (insertable (mkGraph ns es c adj) p) eqn:Hp; simpl.
    + rewrite (bind_normal _ _ _ _ _
                 (add_bridge_run ns es c adj st sel rn ra re k0 r ws p Hp)).
      rewrite IH.
      rewrite (inserted_nodes ns (es ++ bridge_edges c [p]) es (N.succ c) c
                 (attach_all adj (bridge_edges c [p])) adj l).
      rewrite (forallb_insertable_nodes ns (es ++ bridge_edges c [p]) es (N.succ c) c
                 (attach_all adj (bridge_edges c [p])) adj l).
      simpl. rewrite <- !app_assoc. simpl.
      replace (N.succ c + N.of_nat (List.length (inserted (mkGraph ns es c adj) l)))%N
        with (c + N.pos (Pos.of_succ_nat (List.length (inserted (mkGraph ns es c adj) l))))%N
        by lia.
      reflexivity.
    + rewrite (bind_throw _ _ _ _ _ (add_bridge_throws _ st _ r ws p Hp)).
      now rewrite !app_nil_r, N.add_0_r.
Qed.

Lemma nodeData_hasNode (g : Graph) (k : string) (p : string * NodeAttr.t) :
  nodeData g k = Some p -> hasNode g k = true.
Proof.
  unfold nodeData, hasNode. intro H.
  apply find_some in H. apply existsb_exists. exists p. exact H.
Qed.

Lemma truthy_string_Some (s : string) :
  s <> "" -> truthy_string (Some s) = true.
Proof.
  intro H. simpl. apply negb_true_iff. now apply String.eqb_neq.
Qed.

(** The remove handler on a buffer whose two lists are arrays: the edges
    of the selected node are recorded, bridges are inserted up to the
    first one [addEdge] rejects, and the node is dropped if none was
    rejected. *)
Lemma malopRemoveBtn_click_run (g : Graph) (st : State.t) (sel : string)
    (rn : option string) (ra : option NodeAttr.t)
    (l0 : list ContextState.RemovedEdge) (k0 : list EdgeKey)
    (r : Q) (ws : list AttributeWrite) (p : string * NodeAttr.t) :
  sel <> "" ->
  nodeData g sel = Some p ->
  let bridges := bridge_edges (edgeKeyGenerator g) (inserted g (bridge_table g sel)) in
  let g1 := mkGraph (nodes g) (edges g ++ bridges)
                    (edgeKeyGenerator g
                     + N.of_nat (List.length (inserted g (bridge_table g sel))))
                    (attach_all (adjacency g) bridges) in
  let cs1 := ContextState.mk (Some sel) (Some sel) (Some (snd p))
               (Some (l0 ++ map to_removed (edgesOf g sel)))
               (Some (k0 ++ map key bridges)) in
  malopRemoveBtn_click
    (mkWorld g st (ContextState.mk (Some sel) rn ra (Some l0) (Some k0)) r ws)
  = if forallb (insertable g) (bridge_table g sel)
    then (mkWorld (mkGraph (filter (fun q => negb (fst q =? sel)) (nodes g))
                           (filter (fun e => negb (hasExtremity_data e sel)) (edges g1))
                           (edgeKeyGenerator g1)
                           (detach (filter (fun e => negb (hasExtremity_data e sel))
                                           (edges g1))
                                   (adjacency g1)))
                  st cs1 r ws,
          Normal tt)
    else (mkWorld g1 st cs1 r ws, Throw NotFoundGraphError).
Proof.
  intros Hsel Hp bridges g1 cs1.
  pose proof (nodeData_hasNode _ _ _ Hp) as Hhas.
  destruct g as [ns es c adj].
  unfold malopRemoveBtn_click.
  unfold bind at 1. unfold get_contextState at 1. cbv beta iota.
  cbv [w_contextState ContextState.selectedNode].
  rewrite (truthy_string_Some _ Hsel).
  unfold bind at 1.
  unfold modify_contextState at 1, bind at 1, get_contextState, put_contextState.
  cbv beta iota. cbv [w_contextState w_graph w_state w_ratio w_writes
    ContextState.selectedNode ContextState.removedNode
    ContextState.removedNodeAttributes ContextState.revmovedEdges
    ContextState.newEdges to_string].
  unfold bind at 1.
  unfold G.getNodeAttributes, G.read, bind at 1, get_graph, of_completion,
    Graphology.getNodeAttributes.
  cbv beta iota. cbv [w_graph]. rewrite Hp.
  unfold bind at 1.
  unfold modify_contextState at 1, bind at 1, get_contextState, put_contextState.
  cbv beta iota. cbv [w_contextState w_graph w_state w_ratio w_writes
    ContextState.selectedNode ContextState.removedNode
    ContextState.removedNodeAttributes ContextState.revmovedEdges
    ContextState.newEdges].
  unfold bind at 1. unfold bind at 1.
  cbv beta iota. cbv [w_graph]. unfold findEdge_visits. rewrite Hhas.
  unfold bind at 1. rewrite scan_run.
  unfold bind at 1. rewrite add_bridges_run.
  fold (bridge_table (mkGraph ns es c adj) sel).
  destruct (forallb (insertable (mkGraph ns es c adj))
                    (bridge_table (mkGraph ns es c adj) sel)).
  - unfold G.dropNode, G.mutate, bind, get_graph, put_graph, of_completion,
      Graphology.dropNode.
    cbv beta iota. cbv [w_graph w_state w_contextState w_ratio w_writes].
    replace (hasNode _ sel) with true by (symmetry; exact Hhas).
    reflexivity.
  - reflexivity.
Qed.

(** ** The table of bridges *)

Lemma entry_of_own (tbl : NewEdges.t) (k : string) :
  NewEdges.own tbl k = false <-> entry_of tbl k = None.
Proof.
  unfold NewEdges.own, entry_of.
  induction tbl as [|p tbl IH]; simpl; [tauto|].
  destruct (fst p =? k); simpl; [split; discriminate | exact IH].
Qed.

Lemma entry_of_app (tbl1 tbl2 : NewEdges.t) (k : string) :
  entry_of (tbl1 ++ tbl2) k
  = match entry_of tbl1 k with
    | Some x => Some x
    | None => entry_of tbl2 k
    end.
Proof.
  unfold entry_of.
  induction tbl1 as [|p tbl1 IH]; simpl; [reflexivity|].
  destruct (fst p =? k); simpl; [reflexivity | exact IH].
Qed.

Lemma entry_of_update (tbl : NewEdges.t) (k k' : string)
    (f : NewEdges.Entry -> NewEdges.Entry) :
  entry_of (map (NewEdges.update k' f) tbl) k
  = if k' =? k then option_map f (entry_of tbl k) else entry_of tbl k.
Proof.
  unfold entry_of.
  induction tbl as [|[kp x] tbl IH]; simpl.
  - now destruct (k' =? k).
  - unfold NewEdges.update in *. simpl.
    destruct (kp =? k') eqn:E1; simpl.
    + apply String.eqb_eq in E1. subst kp.
      destruct (k' =? k) eqn:E2; simpl; [reflexivity|].
      rewrite IH. reflexivity.
    + destruct (kp =? k) eqn:E2; simpl.
      * destruct (k' =? k) eqn:E3; [|reflexivity].
        apply String.eqb_eq in E2, E3. subst.
        rewrite String.eqb_refl in E1. discriminate.
      * exact IH.
Qed.

Lemma entry_of_scan_step (sel k : string) (tbl : NewEdges.t) (e : EdgeData) :
  entry_of (scan_step sel tbl e) k
  = if filed_under k e then entry_step sel k (entry_of tbl k) e else entry_of tbl k.
Proof.
  unfold scan_step, filed_under, entry_step.
  destruct (structural_edge e); simpl; [|reflexivity].
  unfold NewEdges.set_source, NewEdges.set_target, NewEdges.define,
    NewEdges.has_property.
  destruct (label_key e =? k) eqn:Ek.
  - apply String.eqb_eq in Ek. rewrite Ek.
    destruct (NewEdges.own tbl k) eqn:Ho; simpl.
    + destruct (entry_of tbl k) as [x|] eqn:Hx.
      2:{ apply entry_of_own in Hx. congruence. }
      destruct (sel =? Graphology.source e), (sel =? Graphology.target e);
        rewrite ?entry_of_update, ?String.eqb_refl, ?Hx; reflexivity.
    + pose proof (proj1 (entry_of_own tbl k) Ho) as Hx. rewrite Hx.
      destruct (NewEdges.inherited k); simpl.
      * destruct (sel =? Graphology.source e), (sel =? Graphology.target e);
          rewrite ?entry_of_update, ?String.eqb_refl, ?Hx; reflexivity.
      * destruct (sel =? Graphology.source e), (sel =? Graphology.target e);
          rewrite ?entry_of_update, ?String.eqb_refl, ?entry_of_app, ?Hx;
          simpl; unfold entry_of; simpl; rewrite ?String.eqb_refl; reflexivity.
  - destruct (negb (NewEdges.own tbl (label_key e) || NewEdges.inherited (label_key e)));
      destruct (sel =? Graphology.source e), (sel =? Graphology.target e);
      rewrite ?entry_of_update, ?Ek, ?entry_of_app; try reflexivity;
      destruct (entry_of tbl k); try reflexivity;
      unfold entry_of; simpl; rewrite ?Ek; reflexivity.
Qed.

Lemma entry_of_scan (sel k : string) (visits : list EdgeData) (tbl : NewEdges.t) :
  entry_of (scan sel visits tbl) k
  = fold_left (entry_step sel k) (filter (filed_under k) visits) (entry_of tbl k).
Proof.
  unfold scan. revert tbl.
  induction visits as [|e visits IH]; intro tbl; simpl; [reflexivity|].
  rewrite IH, entry_of_scan_step.
  destruct (filed_under k e); reflexivity.
Qed.

Lemma map_fst_update (k : string) (f : NewEdges.Entry -> NewEdges.Entry)
    (tbl : NewEdges.t) :
  map fst (map (NewEdges.update k f) tbl) = map fst tbl.
Proof.
  rewrite map_map. apply map_ext. intros [kp x].
  unfold NewEdges.update. simpl. now destruct (kp =? k).
Qed.

Lemma scan_step_keys (sel : string) (tbl : NewEdges.t) (e : EdgeData) :
  map fst (scan_step sel tbl e)
  = map fst tbl
    ++ (if structural_edge e && negb (NewEdges.has_property tbl (label_key e))
        then [label_key e] else []).
Proof.
  unfold scan_step, NewEdges.set_source, NewEdges.set_target, NewEdges.define.
  destruct (structural_edge e && (sel =? Graphology.target e));
    destruct (structural_edge e && (sel =? Graphology.source e));
    rewrite ?map_fst_update;
    destruct (structural_edge e && negb (NewEdges.has_property tbl (label_key e)));
    rewrite ?map_app, ?app_nil_r; reflexivity.
Qed.

Lemma scan_step_NoDup (sel : string) (tbl : NewEdges.t) (e : EdgeData) :
  NoDup (map fst tbl) -> NoDup (map fst (scan_step sel tbl e)).
Proof.
  intro H. rewrite scan_step_keys.
  destruct (structural_edge e); simpl; [|now rewrite app_nil_r].
  unfold NewEdges.has_property.
  destruct (NewEdges.own tbl (label_key e)) eqn:Ho; simpl; [now rewrite app_nil_r|].
  destruct (NewEdges.inherited (label_key e)); simpl; [now rewrite app_nil_r|].
  apply NoDup_app; [exact H | repeat constructor; simpl; tauto |].
  intros k Hk [<- | []]. apply existsb_fst_false in Ho. contradiction.
Qed.

Lemma scan_NoDup (sel : string) (visits : list EdgeData) (tbl : NewEdges.t) :
  NoDup (map fst tbl) -> NoDup (map fst (scan sel visits tbl)).
Proof.
  unfold scan. revert tbl.
  induction visits as [|e visits IH]; intros tbl H; simpl; [exact H|].
  apply IH. now apply scan_step_NoDup.
Qed.

Lemma update_labelled (k : string) (f : NewEdges.Entry -> NewEdges.Entry)
    (tbl : NewEdges.t) :
  (forall x, NewEdges.attributes (f x) = NewEdges.attributes x) ->
  Forall labelled tbl -> Forall labelled (map (NewEdges.update k f) tbl).
Proof.
  intros Hf H. apply Forall_map. eapply Forall_impl; [|exact H].
  intros [kp x]. unfold labelled, NewEdges.update. simpl.
  destruct (kp =? k); simpl; [now rewrite Hf | tauto].
Qed.

Lemma scan_step_labelled (sel : string) (tbl : NewEdges.t) (e : EdgeData) :
  Forall labelled tbl -> Forall labelled (scan_step sel tbl e).
Proof.
  intro H. unfold scan_step, NewEdges.set_source, NewEdges.set_target.
  assert (H1 : Forall labelled
                 (if structural_edge e
                     && negb (NewEdges.has_property tbl (label_key e))
                  then NewEdges.define tbl (label_key e)
                         (NewEdges.mkEntry None None (Graphology.attributes e))
                  else tbl)).
  { destruct (structural_edge e && negb (NewEdges.has_property tbl (label_key e)));
      [|exact H].
    unfold NewEdges.define. apply Forall_app. split; [exact H|].
    constructor; [reflexivity | constructor]. }
  destruct (structural_edge e && (sel =? Graphology.target e));
    destruct (structural_edge e && (sel =? Graphology.source e));
    repeat (apply update_labelled; [reflexivity|]); exact H1.
Qed.

Lemma scan_labelled (sel : string) (visits : list EdgeData) (tbl : NewEdges.t) :
  Forall labelled tbl -> Forall labelled (scan sel visits tbl).
Proof.
  unfold scan. revert tbl.
  induction visits as [|e visits IH]; intros tbl H; simpl; [exact H|].
  apply IH. now apply scan_step_labelled.
Qed.

Lemma insert_index_perm {A : Type} (n : N) (p : A) (l : list (N * A)) :
  Permutation (map snd (insert_index n p l)) (p :: map snd l).
Proof.
  induction l as [|[m q] l IH]; simpl; [apply Permutation_refl|].
  destruct (n <? m)%N; simpl; [apply Permutation_refl|].
  eapply perm_trans; [apply perm_skip, IH | apply perm_swap].
Qed.

(** [for ... in] visits every own property once. *)
Lemma own_keys_perm {A : Type} (key_of : A -> string) (o : list A) :
  Permutation (JS.for_in key_of o) o.
Proof.
  unfold JS.for_in.
  induction o as [|p o IH]; simpl; [apply Permutation_refl|].
  destruct (split_keys key_of o) as [ix named].
  destruct (array_index (key_of p)) as [n|]; simpl.
  - eapply perm_trans.
    + apply Permutation_app_tail. apply insert_index_perm.
    + simpl. now apply perm_skip.
  - eapply perm_trans; [apply Permutation_sym, Permutation_middle|].
    now apply perm_skip.
Qed.

Lemma for_in_perm (o : NewEdges.t) : Permutation (NewEdges.for_in o) o.
Proof. apply own_keys_perm. Qed.

Lemma bridge_table_NoDup (g : Graph) (node : string) :
  NoDup (map fst (bridge_table g node)).
Proof.
  unfold bridge_table.
  eapply Permutation_NoDup.
  - apply Permutation_map. apply Permutation_sym. apply for_in_perm.
  - apply scan_NoDup. constructor.
Qed.

Lemma bridge_table_labelled (g : Graph) (node : string) :
  Forall labelled (bridge_table g node).
Proof.
  unfold bridge_table. apply Forall_forall. intros p Hp.
  apply (Permutation_in _ (for_in_perm _)) in Hp.
  revert p Hp. apply Forall_forall. apply scan_labelled. constructor.
Qed.

Lemma entry_of_In (tbl : NewEdges.t) (p : string * NewEdges.Entry) :
  NoDup (map fst tbl) -> In p tbl -> entry_of tbl (fst p) = Some (snd p).
Proof.
  intros Hnd Hin. unfold entry_of.
  now rewrite (find_node_NoDup p tbl Hnd Hin).
Qed.

Lemma bridge_table_entry (g : Graph) (node : string) (p : string * NewEdges.Entry) :
  In p (bridge_table g node) ->
  fold_left (entry_step node (fst p)) (filter (filed_under (fst p)) (edgesOf g node)) None
  = Some (snd p).
Proof.
  intro Hp. unfold bridge_table in Hp.
  apply (Permutation_in _ (for_in_perm _)) in Hp.
  rewrite <- (entry_of_In _ p (scan_NoDup node (edgesOf g node) [] (NoDup_nil _)) Hp).
  apply eq_sym. apply (entry_of_scan node (fst p) (edgesOf g node) []).
Qed.

Lemma entry_step_Some (sel k : string) (y : NewEdges.Entry) (e : EdgeData) :
  exists x, entry_step sel k (Some y) e = Some x
            /\ NewEdges.attributes x = NewEdges.attributes y
            /\ NewEdges.source x
               = (if sel =? Graphology.source e then Some (Graphology.target e)
                  else NewEdges.source y)
            /\ NewEdges.target x
               = (if sel =? Graphology.target e then Some (Graphology.source e)
                  else NewEdges.target y).
Proof.
  unfold entry_step.
  destruct (sel =? Graphology.source e), (sel =? Graphology.target e); simpl;
    eexists; repeat split.
Qed.

Lemma entry_step_None (sel k : string) (e : EdgeData) :
  entry_step sel k None e
  = if NewEdges.inherited k then None
    else entry_step sel k (Some (NewEdges.mkEntry None None (Graphology.attributes e))) e.
Proof.
  unfold entry_step. destruct (NewEdges.inherited k); [|reflexivity].
  now destruct (sel =? Graphology.source e), (sel =? Graphology.target e).
Qed.

Lemma fold_entry_inherited (sel k : string) (l : list EdgeData) :
  NewEdges.inherited k = true -> fold_left (entry_step sel k) l None = None.
Proof.
  intro H. induction l as [|e l IH]; simpl; [reflexivity|].
  now rewrite entry_step_None, H.
Qed.

(** Where the slots of a bridge come from. *)
Lemma fold_entry_slots (sel k : string) (l : list EdgeData) :
  forall (o : option NewEdges.Entry) (x : NewEdges.Entry),
    fold_left (entry_step sel k) l o = Some x ->
    (forall s, NewEdges.source x = Some s ->
       (exists e, In e l /\ Graphology.source e = sel /\ Graphology.target e = s)
       \/ (exists y, o = Some y /\ NewEdges.source y = Some s))
    /\ (forall t, NewEdges.target x = Some t ->
          (exists e, In e l /\ Graphology.target e = sel /\ Graphology.source e = t)
          \/ (exists y, o = Some y /\ NewEdges.target y = Some t)).
Proof.
  induction l as [|e l IH]; intros o x H; simpl in H.
  - subst o. split; intros; right; eauto.
  - destruct (IH _ _ H) as [IHs IHt]. clear IH.
    assert (Hstep : forall y0, entry_step sel k o e = Some y0 ->
              (forall s, NewEdges.source y0 = Some s ->
                 (Graphology.source e = sel /\ Graphology.target e = s)
                 \/ (exists y, o = Some y /\ NewEdges.source y = Some s))
              /\ (forall t, NewEdges.target y0 = Some t ->
                    (Graphology.target e = sel /\ Graphology.source e = t)
                    \/ (exists y, o = Some y /\ NewEdges.target y = Some t))).
    { intros y0 Hy0.
      destruct o as [y|].
      - destruct (entry_step_Some sel k y e) as [x' [Hx' [_ [Hs Ht]]]].
        rewrite Hx' in Hy0. inversion Hy0; subst y0. split.
        + intros s Hss. rewrite Hs in Hss.
          destruct (sel =? Graphology.source e) eqn:E.
          * left. apply String.eqb_eq in E. inversion Hss. auto.
          * right. eauto.
        + intros t Htt. rewrite Ht in Htt.
          destruct (sel =? Graphology.target e) eqn:E.
          * left. apply String.eqb_eq in E. inversion Htt. auto.
          * right. eauto.
      - rewrite entry_step_None in Hy0.
        destruct (NewEdges.inherited k); [discriminate|].
        destruct (entry_step_Some sel k
                    (NewEdges.mkEntry None None (Graphology.attributes e)) e)
          as [x' [Hx' [_ [Hs Ht]]]].
        rewrite Hx' in Hy0. inversion Hy0; subst y0. split.
        + intros s Hss. rewrite Hs in Hss.
          destruct (sel =? Graphology.source e) eqn:E.
          * left. apply String.eqb_eq in E. inversion Hss. auto.
          * discriminate.
        + intros t Htt. rewrite Ht in Htt.
          destruct (sel =? Graphology.target e) eqn:E.
          * left. apply String.eqb_eq in E. inversion Htt. auto.
          * discriminate. }
    split.
    + intros s Hs. destruct (IHs s Hs) as [[e' [Hin He']] | [y0 [Hy0 Hys]]].
      * left. exists e'. simpl. tauto.
      * destruct (Hstep y0 Hy0) as [H1 _].
        destruct (H1 s Hys) as [He | Ho]; [left; exists e; simpl; tauto | right; exact Ho].
    + intros t Ht. destruct (IHt t Ht) as [[e' [Hin He']] | [y0 [Hy0 Hyt]]].
      * left. exists e'. simpl. tauto.
      * destruct (Hstep y0 Hy0) as [_ H2].
        destruct (H2 t Hyt) as [He | Ho]; [left; exists e; simpl; tauto | right; exact Ho].
Qed.

(** A slot that is assigned stays assigned. *)
Lemma fold_entry_keeps (sel k : string) (l : list EdgeData) :
  forall y : NewEdges.Entry,
    exists x, fold_left (entry_step sel k) l (Some y) = Some x
              /\ (NewEdges.source y <> None -> NewEdges.source x <> None)
              /\ (NewEdges.target y <> None -> NewEdges.target x <> None).
Proof.
  induction l as [|e l IH]; intro y; simpl.
  - exists y. tauto.
  - destruct (entry_step_Some sel k y e) as [x' [Hx' [_ [Hs Ht]]]].
    rewrite Hx'. destruct (IH x') as [x [Hx [H1 H2]]].
    exists x. split; [exact Hx|]. split; intro H.
    + apply H1. rewrite Hs. destruct (sel =? Graphology.source e); [discriminate|exact H].
    + apply H2. rewrite Ht. destruct (sel =? Graphology.target e); [discriminate|exact H].
Qed.

(** An outgoing edge assigns the source slot, an incoming edge the target
    slot. *)
Lemma fold_entry_assigns (sel k : string) (l : list EdgeData) :
  NewEdges.inherited k = false ->
  forall o : option NewEdges.Entry,
    l <> [] ->
    exists x, fold_left (entry_step sel k) l o = Some x
              /\ ((exists e, In e l /\ Graphology.source e = sel) ->
                  NewEdges.source x <> None)
              /\ ((exists e, In e l /\ Graphology.target e = sel) ->
                  NewEdges.target x <> None).
Proof.
  intro Hk. induction l as [|e l IH]; intros o Hne; [congruence|]. simpl.
  assert (Hy : exists y, entry_step sel k o e = Some y
                /\ (Graphology.source e = sel -> NewEdges.source y <> None)
                /\ (Graphology.target e = sel -> NewEdges.target y <> None)).
  { destruct o as [y0|].
    - destruct (entry_step_Some sel k y0 e) as [y [Hy [_ [Hs Ht]]]].
      exists y. split; [exact Hy|]. split; intro H.
      + rewrite Hs, <- H, String.eqb_refl. discriminate.
      + rewrite Ht, <- H, String.eqb_refl. discriminate.
    - rewrite entry_step_None, Hk.
      destruct (entry_step_Some sel k
                  (NewEdges.mkEntry None None (Graphology.attributes e)) e)
        as [y [Hy [_ [Hs Ht]]]].
      exists y. split; [exact Hy|]. split; intro H.
      + rewrite Hs, <- H, String.eqb_refl. discriminate.
      + rewrite Ht, <- H, String.eqb_refl. discriminate. }
  destruct Hy as [y [Hy [Hys Hyt]]]. rewrite Hy.
  destruct l as [|e' l'].
  - simpl. exists y. split; [reflexivity|]. split.
    + intros [e0 [[<- | []] He0]]. auto.
    + intros [e0 [[<- | []] He0]]. auto.
  - destruct (IH (Some y)) as [x [Hx [H1 H2]]]; [discriminate|].
    destruct (fold_entry_keeps sel k (e' :: l') y) as [x' [Hx' [K1 K2]]].
    rewrite Hx in Hx'. inversion Hx'; subst x'.
    exists x. split; [exact Hx|]. split.
    + intros [e0 [[<- | Hin] He0]]; [auto|]. apply H1. eauto.
    + intros [e0 [[<- | Hin] He0]]; [auto|]. apply H2. eauto.
Qed.

Lemma edgesOf_In (g : Graph) (node : string) (e : EdgeData) :
  In e (edgesOf g node) -> In e (edges g) /\ hasExtremity_data e node = true.
Proof.
  unfold edgesOf, hasExtremity_data. rewrite !in_app_iff, !in_flat_map.
  intros [[k [_ H]] | [[k [_ H]] | [k [_ H]]]].
  - unfold edges_in in H. apply filter_In in H. destruct H as [H1 H2].
    split; [exact H1|]. rewrite !andb_true_iff in H2. destruct H2 as [_ H2].
    rewrite H2. apply orb_true_r.
  - destruct (k =? node); [contradiction|].
    unfold edges_out in H. apply filter_In in H. destruct H as [H1 H2].
    split; [exact H1|]. rewrite !andb_true_iff in H2. destruct H2 as [[_ H2] _].
    now rewrite H2.
  - unfold edges_undirected in H. apply filter_In in H. destruct H as [H1 H2].
    split; [exact H1|]. rewrite !andb_true_iff, orb_true_iff, !andb_true_iff in H2.
    destruct H2 as [_ [[H2 _] | [_ H2]]]; rewrite H2; [reflexivity | apply orb_true_r].
Qed.

Lemma well_formed_extremities (g : Graph) (e : EdgeData) :
  well_formed g = true -> In e (edges g) ->
  hasNode g (Graphology.source e) = true /\ hasNode g (Graphology.target e) = true.
Proof.
  unfold well_formed. rewrite !andb_true_iff. intros [[_ H] _] Hin.
  rewrite forallb_forall in H. specialize (H e Hin).
  now apply andb_true_iff in H.
Qed.

Lemma well_formed_key_below (g : Graph) (e : EdgeData) :
  well_formed g = true -> In e (edges g) ->
  key_below (edgeKeyGenerator g) (key e) = true.
Proof.
  unfold well_formed. rewrite !andb_true_iff. intros [_ H] Hin.
  rewrite forallb_forall in H. exact (H e Hin).
Qed.

Lemma filed_under_In (k : string) (l : list EdgeData) (e : EdgeData) :
  In e (filter (filed_under k) l) ->
  In e l /\ structural_edge e = true /\ label_key e = k.
Proof.
  rewrite filter_In. unfold filed_under. rewrite andb_true_iff, String.eqb_eq. tauto.
Qed.

(** On a bridgeable node every bridge of the table has both extremities
    assigned, to neighbours of the node other than the node itself. *)
Lemma bridgeable_settled (g : Graph) (node : string) (p : string * NewEdges.Entry) :
  bridgeable g node = true ->
  In p (bridge_table g node) ->
  exists s t : string,
    NewEdges.source (snd p) = Some s /\ NewEdges.target (snd p) = Some t
    /\ s <> node /\ t <> node
    /\ (exists e, In e (edgesOf g node) /\ Graphology.target e = s)
    /\ (exists e, In e (edgesOf g node) /\ Graphology.source e = t).
Proof.
  intros Hb Hp.
  pose proof (bridge_table_entry g node p Hp) as Hfold.
  unfold bridgeable in Hb. apply andb_true_iff in Hb. destruct Hb as [_ Hb].
  rewrite forallb_forall in Hb.
  set (k := fst p) in *. set (l := filter (filed_under k) (edgesOf g node)) in *.
  assert (Hself : forall e, In e l ->
            ~ (Graphology.source e = node /\ Graphology.target e = node)).
  { intros e He. apply filed_under_In in He. destruct He as [Hin [Hst _]].
    specialize (Hb e Hin). rewrite Hst in Hb. simpl in Hb.
    apply andb_true_iff in Hb. destruct Hb as [Hb _].
    apply negb_true_iff, andb_false_iff in Hb.
    rewrite !String.eqb_neq in Hb. tauto. }
  assert (Hk : NewEdges.inherited k = false).
  { destruct (NewEdges.inherited k) eqn:E; [|reflexivity].
    rewrite (fold_entry_inherited node k l E) in Hfold. discriminate. }
  assert (Hne : l <> []).
  { intro E. rewrite E in Hfold. discriminate. }
  assert (Hboth : (exists e, In e l /\ Graphology.source e = node)
                  /\ (exists e, In e l /\ Graphology.target e = node)).
  { destruct l as [|e0 l0] eqn:El; [congruence|].
    assert (He0 : In e0 (filter (filed_under k) (edgesOf g node))).
    { fold l. rewrite El. now left. }
    apply filed_under_In in He0. destruct He0 as [Hin [Hst Hlk]].
    specialize (Hb e0 Hin). rewrite Hst, Hlk, Hk in Hb. simpl in Hb.
    rewrite !andb_true_iff in Hb. destruct Hb as [_ [Ho Hi]].
    rewrite existsb_exists in Ho, Hi.
    destruct Ho as [eo [Heo Ho]]. destruct Hi as [ei [Hei Hi]].
    apply andb_true_iff in Ho, Hi.
    destruct Ho as [Ho1 Ho2]. destruct Hi as [Hi1 Hi2].
    apply String.eqb_eq in Ho2, Hi2.
    rewrite <- El. split.
    - exists eo. split; [|exact Ho2]. unfold l. apply filter_In. tauto.
    - exists ei. split; [|exact Hi2]. unfold l. apply filter_In. tauto. }
  destruct (fold_entry_assigns node k l Hk None Hne) as [x [Hx [Hs Ht]]].
  rewrite Hfold in Hx. inversion Hx; subst x.
  destruct Hboth as [Hout Hin].
  specialize (Hs Hout). specialize (Ht Hin).
  destruct (NewEdges.source (snd p)) as [s|] eqn:Es; [|congruence].
  destruct (NewEdges.target (snd p)) as [t|] eqn:Et; [|congruence].
  destruct (fold_entry_slots node k l None (snd p) Hfold) as [Fs Ft].
  destruct (Fs s Es) as [[e1 [H1 [H1s H1t]]] | [y [Hy _]]]; [|discriminate].
  destruct (Ft t Et) as [[e2 [H2 [H2t H2s]]] | [y [Hy _]]]; [|discriminate].
  exists s, t. repeat split; try reflexivity.
  - intro E. apply (Hself e1 H1). split; [exact H1s | congruence].
  - intro E. apply (Hself e2 H2). split; [congruence | exact H2t].
  - exists e1. split; [|exact H1t]. apply filed_under_In in H1. tauto.
  - exists e2. split; [|exact H2s]. apply filed_under_In in H2. tauto.
Qed.

Lemma bridgeable_insertable (g : Graph) (node : string) :
  well_formed g = true -> bridgeable g node = true ->
  forallb (insertable g) (bridge_table g node) = true.
Proof.
  intros Hwf Hb. apply forallb_forall. intros p Hp.
  destruct (bridgeable_settled g node p Hb Hp)
    as [s [t [Hs [Ht [_ [_ [[e1 [H1 H1t]] [e2 [H2 H2s]]]]]]]]].
  unfold insertable. rewrite Hs, Ht. simpl.
  apply edgesOf_In in H1, H2.
  destruct (well_formed_extremities g e1 Hwf (proj1 H1)) as [_ K1].
  destruct (well_formed_extremities g e2 Hwf (proj1 H2)) as [K2 _].
  rewrite <- H1t, <- H2s, K1, K2. reflexivity.
Qed.

Lemma inserted_all (g : Graph) (l : NewEdges.t) :
  forallb (insertable g) l = true -> inserted g l = l.
Proof.
  induction l as [|p l IH]; simpl; [reflexivity|].
  rewrite andb_true_iff. intros [Hp Hl]. rewrite Hp. now rewrite IH.
Qed.

(** ** The add-back handler *)

Lemma readd_edge_run (ns : list (string * NodeAttr.t)) (es : list EdgeData) (c : N)
    (adj : list Slot)
    (st : State.t) (cs : ContextState.t) (r : Q) (ws : list AttributeWrite)
    (x : ContextState.RemovedEdge) :
  has_extremities ns x = true ->
  readd_edge x (mkWorld (mkGraph ns es c adj) st cs r ws)
  = (mkWorld (mkGraph ns (es ++ readded_edges c [x]) (N.succ c)
                      (attach_all adj (readded_edges c [x]))) st cs r ws,
     Normal tt).
Proof.
  unfold has_extremities. rewrite andb_true_iff. intros [Hs Ht].
  unfold readd_edge, G.addEdge, bind, get_graph, put_graph, of_completion, ret,
    Graphology.addEdge, addEdgeInternal, hasNode.
  simpl. rewrite Hs, Ht. reflexivity.
Qed.

Lemma readded_edges_app (c : N) (l1 l2 : list ContextState.RemovedEdge) :
  readded_edges c (l1 ++ l2)
  = readded_edges c l1 ++ readded_edges (c + N.of_nat (List.length l1)) l2.
Proof.
  revert c. induction l1 as [|p l1 IH]; intro c; simpl.
  - now rewrite N.add_0_r.
  - rewrite IH. do 3 f_equal. lia.
Qed.

Lemma readd_edges_run (l : list ContextState.RemovedEdge) :
  forall (ns : list (string * NodeAttr.t)) (es : list EdgeData) (c : N)
         (adj : list Slot)
         (st : State.t) (cs : ContextState.t) (r : Q) (ws : list AttributeWrite),
    forallb (has_extremities ns) l = true ->
    forEach l readd_edge (mkWorld (mkGraph ns es c adj) st cs r ws)
    = (mkWorld (mkGraph ns (es ++ readded_edges c l) (c + N.of_nat (List.length l))
                        (attach_all adj (readded_edges c l)))
               st cs r ws,
       Normal tt).
Proof.
  induction l as [|x l IH]; intros ns es c adj st cs r ws H; simpl.
  - unfold ret. now rewrite app_nil_r, N.add_0_r.
  - simpl in H. apply andb_true_iff in H. destruct H as [Hx Hl].
    rewrite (bind_normal _ _ _ _ _ (readd_edge_run ns es c adj st cs r ws x Hx)).
    rewrite (IH _ _ _ _ _ _ _ _ Hl). simpl. rewrite <- app_assoc. simpl.
    replace (N.succ c + N.of_nat (List.length l))%N
      with (c + N.pos (Pos.of_succ_nat (List.length l)))%N by lia.
    reflexivity.
Qed.

Lemma filter_filter_sub {A : Type} (f g : A -> bool) (l : list A) :
  (forall x, f x = true -> g x = true) -> filter f (filter g l) = filter f l.
Proof.
  intro H. induction l as [|x l IH]; simpl; [reflexivity|].
  destruct (g x) eqn:Eg; simpl.
  - now rewrite IH.
  - destruct (f x) eqn:Ef; [|exact IH].
    rewrite (H x Ef) in Eg. discriminate.
Qed.

(** Dropping more edges from an index already pruned. *)
Lemma detach_detach (es1 es2 : list EdgeData) (adj : list Slot) :
  (forall e, In e es2 -> In e es1) -> detach es2 (detach es1 adj) = detach es2 adj.
Proof.
  intro H. unfold detach. apply filter_filter_sub.
  intros sl Hsl. apply existsb_exists in Hsl. destruct Hsl as [e [He Hc]].
  apply existsb_exists. exists e. split; [now apply H | exact Hc].
Qed.

Lemma dropEdge_run (ns : list (string * NodeAttr.t)) (es : list EdgeData) (c : N)
    (adj : list Slot)
    (st : State.t) (cs : ContextState.t) (r : Q) (ws : list AttributeWrite)
    (k : EdgeKey) :
  In k (map key es) ->
  G.dropEdge k (mkWorld (mkGraph ns es c adj) st cs r ws)
  = (mkWorld (mkGraph ns (without_keys [k] es) c (detach (without_keys [k] es) adj))
             st cs r ws,
     Normal tt).
Proof.
  intro H. apply existsb_key_true in H.
  unfold G.dropEdge, G.mutate, bind, get_graph, put_graph, of_completion,
    Graphology.dropEdge, hasEdge.
  simpl. rewrite H. unfold without_keys. simpl.
  rewrite (filter_ext (fun e => negb (key_eqb (key e) k))
             (fun e => negb (key_eqb (key e) k || false))); [reflexivity|].
  intro e. now rewrite orb_false_r.
Qed.

Lemma without_keys_cons (k : EdgeKey) (ks : list EdgeKey) (es : list EdgeData) :
  without_keys ks (without_keys [k] es) = without_keys (k :: ks) es.
Proof.
  unfold without_keys. induction es as [|e es IH]; simpl in *; [reflexivity|].
  rewrite orb_false_r.
  destruct (key_eqb (key e) k); simpl; [exact IH|].
  destruct (existsb (key_eqb (key e)) ks); simpl; now rewrite IH.
Qed.

Lemma without_keys_In (ks : list EdgeKey) (es : list EdgeData) (k : EdgeKey) :
  In k (map key es) -> ~ In k ks -> In k (map key (without_keys ks es)).
Proof.
  intros H Hk. apply in_map_iff in H. destruct H as [e [He Hin]].
  apply in_map_iff. exists e. split; [exact He|].
  unfold without_keys. apply filter_In. split; [exact Hin|].
  apply negb_true_iff. apply existsb_key_eqb_false. now rewrite He.
Qed.

Lemma dropEdges_run (ks : list EdgeKey) :
  forall (ns : list (string * NodeAttr.t)) (es : list EdgeData) (c : N)
         (adj : list Slot)
         (st : State.t) (cs : ContextState.t) (r : Q) (ws : list AttributeWrite),
    NoDup ks ->
    (forall k, In k ks -> In k (map key es)) ->
    forEach ks G.dropEdge (mkWorld (mkGraph ns es c adj) st cs r ws)
    = (mkWorld (mkGraph ns (without_keys ks es) c
                        (match ks with
                         | [] => adj
                         | _ :: _ => detach (without_keys ks es) adj
                         end))
               st cs r ws,
       Normal tt).
Proof.
  induction ks as [|k ks IH]; intros ns es c adj st cs r ws Hnd Hin; simpl.
  - unfold ret, without_keys. simpl.
    rewrite forallb_filter_id; [reflexivity|]. now apply forallb_forall.
  - inversion Hnd as [|? ? Hk Hks]; subst.
    rewrite (bind_normal _ _ _ _ _
               (dropEdge_run ns es c adj st cs r ws k (Hin k (or_introl eq_refl)))).
    rewrite IH; [| exact Hks |].
    { rewrite !without_keys_cons. destruct ks as [|k' ks']; [reflexivity|].
      rewrite detach_detach; [reflexivity|].
      intros e He. unfold without_keys in *. apply filter_In in He.
      destruct He as [H1 H2]. apply filter_In. split; [exact H1|].
      simpl in *. destruct (key_eqb (key e) k); simpl in *;
        [discriminate H2 | reflexivity]. }
    intros k' Hk'. apply without_keys_In.
    + apply Hin. now right.
    + intros [-> | []]. contradiction.
Qed.

(** The add-back handler on a populated buffer, when the removed node is
    absent from the graph, the recorded edges have their extremities and
    the recorded bridges are edges of the graph. *)
Lemma malopAddBtn_click_run (ns : list (string * NodeAttr.t)) (es : list EdgeData)
    (c : N) (adj : list Slot)
    (st : State.t) (sel : option string) (node : string) (a : NodeAttr.t)
    (rl : list ContextState.RemovedEdge) (ks : list EdgeKey)
    (r : Q) (ws : list AttributeWrite) :
  node <> "" ->
  hasNode (mkGraph ns es c adj) node = false ->
  forallb (has_extremities (ns ++ [(node, a)])) rl = true ->
  NoDup ks ->
  (forall k, In k ks -> In k (map key (es ++ readded_edges c rl))) ->
  malopAddBtn_click
    (mkWorld (mkGraph ns es c adj) st
             (ContextState.mk sel (Some node) (Some a) (Some rl) (Some ks)) r ws)
  = (mkWorld (mkGraph (ns ++ [(node, a)])
                      (without_keys ks (es ++ readded_edges c rl))
                      (c + N.of_nat (List.length rl))
                      (match ks with
                       | [] => attach_all adj (readded_edges c rl)
                       | _ :: _ =>
                           detach (without_keys ks (es ++ readded_edges c rl))
                                  (attach_all adj (readded_edges c rl))
                       end))
             st (ContextState.mk sel None None None None) r ws,
     Normal tt).
Proof.
  intros Hnode Hhas Hext Hnd Hks.
  unfold malopAddBtn_click.
  unfold bind at 1. unfold get_contextState at 1. cbv beta iota.
  cbv [w_contextState ContextState.removedNode ContextState.removedNodeAttributes
       ContextState.revmovedEdges ContextState.newEdges].
  rewrite (truthy_string_Some _ Hnode).
  unfold bind at 1.
  unfold G.addNode, G.mutate, bind at 1, get_graph. cbv beta iota. cbv [w_graph].
  unfold bind at 1, of_completion, Graphology.addNode. cbv [to_string]. rewrite Hhas.
  cbv beta iota. unfold put_graph.
  cbv [w_state w_contextState w_ratio w_writes nodes edges edgeKeyGenerator to_string].
  unfold bind at 1. unfold array_of at 1, ret at 1. cbv beta iota.
  unfold bind at 1. rewrite (readd_edges_run rl _ _ _ _ _ _ _ _ Hext).
  unfold bind at 1. unfold array_of at 1, ret at 1. cbv beta iota.
  unfold bind at 1. rewrite (dropEdges_run ks _ _ _ _ _ _ _ _ Hnd Hks).
  reflexivity.
Qed.

(** ** Remove, then add back *)

Lemma bridge_edges_keys (c : N) (l : NewEdges.t) (k : EdgeKey) :
  In k (map key (bridge_edges c l))
  <-> exists n : N, k = Generated n /\ (c <= n < c + N.of_nat (List.length l))%N.
Proof.
  revert c. induction l as [|p l IH]; intro c; simpl.
  - split; [tauto | intros [n [_ H]]; lia].
  - rewrite IH. split.
    + intros [<- | [n [Hk Hn]]]; [exists c | exists n]; split; auto; lia.
    + intros [n [Hk Hn]]. destruct (N.eq_dec n c) as [-> | Hne]; [left; now subst|].
      right. exists n. split; [exact Hk | lia].
Qed.

Lemma readded_edges_keys (c : N) (l : list ContextState.RemovedEdge) (k : EdgeKey) :
  In k (map key (readded_edges c l))
  <-> exists n : N, k = Generated n /\ (c <= n < c + N.of_nat (List.length l))%N.
Proof.
  revert c. induction l as [|p l IH]; intro c; simpl.
  - split; [tauto | intros [n [_ H]]; lia].
  - rewrite IH. split.
    + intros [<- | [n [Hk Hn]]]; [exists c | exists n]; split; auto; lia.
    + intros [n [Hk Hn]]. destruct (N.eq_dec n c) as [-> | Hne]; [left; now subst|].
      right. exists n. split; [exact Hk | lia].
Qed.

Lemma bridge_edges_NoDup (c : N) (l : NewEdges.t) :
  NoDup (map key (bridge_edges c l)).
Proof.
  revert c. induction l as [|p l IH]; intro c; simpl; constructor; [|apply IH].
  rewrite bridge_edges_keys. intros [n [Hk Hn]]. inversion Hk. lia.
Qed.

Lemma to_removed_readded (c : N) (l : list ContextState.RemovedEdge) :
  map to_removed (readded_edges c l) = l.
Proof.
  revert c. induction l as [|[s t a] l IH]; intro c; simpl; [reflexivity|].
  now rewrite IH.
Qed.

Lemma without_keys_all (ks : list EdgeKey) (es : list EdgeData) :
  (forall e, In e es -> In (key e) ks) -> without_keys ks es = [].
Proof.
  intro H. unfold without_keys.
  induction es as [|e es IH]; simpl; [reflexivity|].
  assert (He : existsb (key_eqb (key e)) ks = true).
  { destruct (existsb (key_eqb (key e)) ks) eqn:E; [reflexivity|].
    apply existsb_key_eqb_false in E. exfalso. apply E, H. now left. }
  rewrite He. simpl. apply IH. intros e' He'. apply H. now right.
Qed.

Lemma without_keys_none (ks : list EdgeKey) (es : list EdgeData) :
  (forall e, In e es -> ~ In (key e) ks) -> without_keys ks es = es.
Proof.
  intro H. unfold without_keys.
  apply forallb_filter_id. apply forallb_forall. intros e He.
  apply negb_true_iff. apply existsb_key_eqb_false. now apply H.
Qed.

Lemma without_keys_app (ks : list EdgeKey) (l1 l2 : list EdgeData) :
  without_keys ks (l1 ++ l2) = without_keys ks l1 ++ without_keys ks l2.
Proof. apply filter_app. Qed.

Lemma filter_split_perm {A : Type} (f g h : A -> bool) (l : list A) :
  (forall x, f x = g x || h x) ->
  (forall x, g x && h x = false) ->
  Permutation (filter f l) (filter g l ++ filter h l).
Proof.
  intros Hf Hd. induction l as [|x l IH]; simpl; [constructor|].
  rewrite Hf. specialize (Hd x).
  destruct (g x), (h x); simpl in *; try discriminate.
  - now constructor.
  - eapply perm_trans; [apply perm_skip, IH | apply Permutation_middle].
  - exact IH.
Qed.

Lemma filter_negb_perm {A : Type} (f : A -> bool) (l : list A) :
  Permutation (filter (fun x => negb (f x)) l ++ filter f l) l.
Proof.
  induction l as [|x l IH]; simpl; [constructor|].
  destruct (f x); simpl.
  - eapply perm_trans; [apply Permutation_sym, Permutation_middle|].
    now constructor.
  - now constructor.
Qed.

Lemma filter_nil {A : Type} (f : A -> bool) (l : list A) :
  (forall x, In x l -> f x = false) -> filter f l = [].
Proof.
  induction l as [|x l IH]; intro H; simpl; [reflexivity|].
  rewrite (H x (or_introl eq_refl)). apply IH. intros y Hy. apply H. now right.
Qed.

(** The three directions together visit each edge attached to the node
    once. *)
Lemma by_direction_perm (node : string) (es : list EdgeData) :
  Permutation
    (filter (fun e => negb (undirected e) && (Graphology.target e =? node)) es
     ++ filter (fun e => negb (undirected e) && (Graphology.source e =? node)
                         && negb (Graphology.target e =? node)) es
     ++ filter (fun e => undirected e && hasExtremity_data e node) es)
    (filter (fun e => hasExtremity_data e node) es).
Proof.
  apply Permutation_sym.
  eapply perm_trans.
  - apply (filter_split_perm _
             (fun e => negb (undirected e) && (Graphology.target e =? node))
             (fun e => (negb (undirected e) && (Graphology.source e =? node)
                        && negb (Graphology.target e =? node))
                       || (undirected e && hasExtremity_data e node))).
    + intro e. unfold hasExtremity_data.
      destruct (undirected e), (Graphology.source e =? node),
        (Graphology.target e =? node); reflexivity.
    + intro e. unfold hasExtremity_data.
      destruct (undirected e), (Graphology.source e =? node),
        (Graphology.target e =? node); reflexivity.
  - apply Permutation_app_head.
    apply filter_split_perm.
    + reflexivity.
    + intro e. destruct (undirected e); simpl; [|apply andb_false_r].
      reflexivity.
Qed.

(** Grouping a selection by key, over keys that are distinct and cover
    it, visits each selected element once. *)
Lemma grouped_perm {A : Type} (key_of : A -> string) (l : list A) (ks : list string) :
  NoDup ks ->
  forall P : A -> bool,
    (forall x, In x l -> P x = true -> In (key_of x) ks) ->
    Permutation (flat_map (fun k => filter (fun x => P x && (key_of x =? k)) l) ks)
                (filter P l).
Proof.
  intro Hnd. induction Hnd as [|k ks Hk Hnd IH]; intros P Hcover; simpl.
  - rewrite (filter_nil P l); [constructor|].
    intros x Hx. destruct (P x) eqn:E; [|reflexivity].
    destruct (Hcover x Hx E).
  - apply Permutation_sym. eapply perm_trans.
    + apply (filter_split_perm P (fun x => P x && (key_of x =? k))
               (fun x => P x && negb (key_of x =? k))).
      * intro x. now destruct (P x), (key_of x =? k).
      * intro x. now destruct (P x), (key_of x =? k).
    + apply Permutation_app_head. apply Permutation_sym.
      eapply perm_trans; [|apply (IH (fun x => P x && negb (key_of x =? k)))].
      * rewrite !flat_map_concat_map.
        rewrite (map_ext_in
                   (fun k0 => filter (fun x => P x && (key_of x =? k0)) l)
                   (fun k0 => filter (fun x => P x && negb (key_of x =? k)
                                                && (key_of x =? k0)) l));
          [apply Permutation_refl|].
        intros k0 Hk0. apply filter_ext. intro x.
        destruct (key_of x =? k0) eqn:E0; [|now rewrite !andb_false_r].
        apply String.eqb_eq in E0.
        assert (Hne : (key_of x =? k) = false).
        { apply String.eqb_neq. intros <-. apply Hk. now rewrite E0. }
        rewrite Hne. now rewrite !andb_true_r.
      * intros x Hx HP. apply andb_true_iff in HP. destruct HP as [HP Hne].
        destruct (Hcover x Hx HP) as [E | H]; [|exact H].
        rewrite <- E, String.eqb_refl in Hne. discriminate.
Qed.

(** Entries for distinct pairs give distinct neighbors. *)
Lemma distinct_slots_neighbors (f : Slot -> string) (q : Slot -> bool) (l : list Slot) :
  (forall x y, q x = true -> q y = true -> f x = f y -> same_slot x y = true) ->
  distinct_slots l = true -> NoDup (map f (filter q l)).
Proof.
  intro Hsame. induction l as [|x l IH]; simpl; intro Hd; [constructor|].
  apply andb_true_iff in Hd. destruct Hd as [Hx Hd].
  destruct (q x) eqn:Eq; simpl; [|now apply IH].
  constructor; [|now apply IH].
  intro Hin. apply in_map_iff in Hin. destruct Hin as [y [Hf Hy]].
  apply filter_In in Hy. destruct Hy as [Hy Hqy].
  apply negb_true_iff in Hx.
  assert (Ht : existsb (same_slot x) l = true).
  { apply existsb_exists. exists y. split; [exact Hy|]. apply Hsame; auto. }
  congruence.
Qed.

Lemma indexed_distinct (g : Graph) : indexed g = true -> distinct_slots (adjacency g) = true.
Proof. unfold indexed. rewrite !andb_true_iff. tauto. Qed.

Lemma indexed_connected (g : Graph) (e : EdgeData) :
  indexed g = true -> In e (edges g) ->
  exists sl, In sl (adjacency g) /\ connects sl e = true.
Proof.
  unfold indexed. rewrite !andb_true_iff, !forallb_forall. intros [[H _] _] He.
  now apply existsb_exists, H.
Qed.

Lemma visits_in_perm (g : Graph) (node : string) :
  indexed g = true ->
  Permutation (flat_map (edges_in g node) (for_in (fun k => k) (neighbors_in g node)))
              (filter (fun e => negb (undirected e) && (Graphology.target e =? node))
                      (edges g)).
Proof.
  intro Hix.
  eapply perm_trans;
    [|apply (grouped_perm Graphology.source (edges g)
               (for_in (fun k => k) (neighbors_in g node)))].
  - rewrite !flat_map_concat_map.
    rewrite (map_ext (edges_in g node)
               (fun k => filter (fun e => negb (undirected e)
                                          && (Graphology.target e =? node)
                                          && (Graphology.source e =? k)) (edges g)));
      [apply Permutation_refl|].
    intro k. unfold edges_in. apply filter_ext. intro e.
    now destruct (undirected e), (Graphology.source e =? k),
      (Graphology.target e =? node).
  - apply (Permutation_NoDup (Permutation_sym (own_keys_perm _ _))).
    unfold neighbors_in. apply distinct_slots_neighbors; [|now apply indexed_distinct].
    intros x y Hx Hy Hf. unfold same_slot.
    rewrite !andb_true_iff in Hx, Hy. destruct Hx as [Hx1 Hx2], Hy as [Hy1 Hy2].
    apply negb_true_iff in Hx1, Hy1. apply String.eqb_eq in Hx2, Hy2.
    rewrite Hx1, Hy1, Hf, Hx2, Hy2, !String.eqb_refl. reflexivity.
  - intros e He HP. apply andb_true_iff in HP. destruct HP as [Hd Ht].
    apply negb_true_iff in Hd.
    destruct (indexed_connected g e Hix He) as [sl [Hsl Hc]].
    apply (Permutation_in _ (Permutation_sym (own_keys_perm _ _))).
    unfold neighbors_in. apply in_map_iff. exists sl.
    unfold connects in Hc. rewrite Hd in Hc. simpl in Hc.
    rewrite orb_false_r, !andb_true_iff in Hc. destruct Hc as [Hk [Hs Hst]].
    apply String.eqb_eq in Hs. split; [exact Hs|].
    apply filter_In. split; [exact Hsl|].
    apply String.eqb_eq in Hst, Ht.
    destruct (slot_undirected sl); [discriminate Hk|]. simpl.
    rewrite Hst, Ht. apply String.eqb_refl.
Qed.

Lemma visits_out_perm (g : Graph) (node : string) :
  indexed g = true ->
  Permutation (flat_map (fun k => if k =? node then [] else edges_out g node k)
                        (for_in (fun k => k) (neighbors_out g node)))
              (filter (fun e => negb (undirected e) && (Graphology.source e =? node)
                                && negb (Graphology.target e =? node))
                      (edges g)).
Proof.
  intro Hix.
  eapply perm_trans;
    [|apply (grouped_perm Graphology.target (edges g)
               (for_in (fun k => k) (neighbors_out g node)))].
  - rewrite !flat_map_concat_map.
    rewrite (map_ext (fun k => if k =? node then [] else edges_out g node k)
               (fun k => filter (fun e => negb (undirected e)
                                          && (Graphology.source e =? node)
                                          && negb (Graphology.target e =? node)
                                          && (Graphology.target e =? k)) (edges g)));
      [apply Permutation_refl|].
    intro k. destruct (k =? node) eqn:Ek.
    + apply String.eqb_eq in Ek. subst k. symmetry. apply filter_nil.
      intros e _. now destruct (Graphology.target e =? node); rewrite ?andb_false_r.
    + unfold edges_out. apply filter_ext. intro e.
      destruct (Graphology.target e =? k) eqn:Et; [|now rewrite !andb_false_r].
      apply String.eqb_eq in Et. rewrite Et, Ek. simpl. now rewrite !andb_true_r.
  - apply (Permutation_NoDup (Permutation_sym (own_keys_perm _ _))).
    unfold neighbors_out. apply distinct_slots_neighbors; [|now apply indexed_distinct].
    intros x y Hx Hy Hf. unfold same_slot.
    rewrite !andb_true_iff in Hx, Hy. destruct Hx as [Hx1 Hx2], Hy as [Hy1 Hy2].
    apply negb_true_iff in Hx1, Hy1. apply String.eqb_eq in Hx2, Hy2.
    rewrite Hx1, Hy1, Hf, Hx2, Hy2, !String.eqb_refl. reflexivity.
  - intros e He HP. rewrite !andb_true_iff in HP. destruct HP as [[Hd Hs] _].
    apply negb_true_iff in Hd.
    destruct (indexed_connected g e Hix He) as [sl [Hsl Hc]].
    apply (Permutation_in _ (Permutation_sym (own_keys_perm _ _))).
    unfold neighbors_out. apply in_map_iff. exists sl.
    unfold connects in Hc. rewrite Hd in Hc. simpl in Hc.
    rewrite orb_false_r, !andb_true_iff in Hc. destruct Hc as [Hk [Hss Ht]].
    apply String.eqb_eq in Ht. split; [exact Ht|].
    apply filter_In. split; [exact Hsl|].
    apply String.eqb_eq in Hss, Hs.
    destruct (slot_undirected sl); [discriminate Hk|]. simpl.
    rewrite Hss, Hs. apply String.eqb_refl.
Qed.

(** The other end of an undirected entry, and of an undirected edge. *)
Lemma other_end_connected (node : string) (sl : Slot) (e : EdgeData) :
  connects sl e = true -> undirected e = true ->
  hasExtremity_data e node = true ->
  slot_undirected sl = true
  /\ ((slot_source sl =? node) || (slot_target sl =? node)) = true
  /\ (if slot_source sl =? node then slot_target sl else slot_source sl)
     = (if Graphology.source e =? node then Graphology.target e else Graphology.source e).
Proof.
  unfold connects, hasExtremity_data. intros Hc Hu Hext. rewrite Hu in Hc.
  rewrite !andb_true_iff in Hc. destruct Hc as [Hk Hc].
  split; [now destruct (slot_undirected sl)|].
  apply orb_true_iff in Hc. simpl in Hc.
  destruct Hc as [Hc | Hc]; apply andb_true_iff in Hc; destruct Hc as [H1 H2];
    apply String.eqb_eq in H1, H2; rewrite H1, H2.
  - split; [exact Hext | reflexivity].
  - split; [now rewrite orb_comm|].
    destruct (String.eqb_spec (Graphology.target e) node) as [Et | Et],
             (String.eqb_spec (Graphology.source e) node) as [Es | Es];
      try reflexivity; try congruence.
    discriminate Hext.
Qed.

Lemma visits_undirected_perm (g : Graph) (node : string) :
  indexed g = true ->
  Permutation (flat_map (edges_undirected g node)
                        (for_in (fun k => k) (neighbors_undirected g node)))
              (filter (fun e => undirected e && hasExtremity_data e node) (edges g)).
Proof.
  intro Hix.
  eapply perm_trans;
    [|apply (grouped_perm
               (fun e => if Graphology.source e =? node
                         then Graphology.target e else Graphology.source e)
               (edges g) (for_in (fun k => k) (neighbors_undirected g node)))].
  - rewrite !flat_map_concat_map.
    rewrite (map_ext (edges_undirected g node)
               (fun k => filter (fun e => undirected e && hasExtremity_data e node
                                          && ((if Graphology.source e =? node
                                               then Graphology.target e
                                               else Graphology.source e) =? k))
                                (edges g)));
      [apply Permutation_refl|].
    intro k. unfold edges_undirected, hasExtremity_data. apply filter_ext. intro e.
    destruct (undirected e); [simpl|reflexivity].
    destruct (String.eqb_spec (Graphology.source e) node) as [Es | Es]; simpl.
    + destruct (String.eqb_spec (Graphology.target e) k) as [Et | Et]; simpl;
        [reflexivity|].
      destruct (String.eqb_spec (Graphology.source e) k) as [Ek | Ek]; simpl;
        [|reflexivity].
      apply String.eqb_neq. congruence.
    + destruct (Graphology.target e =? node), (Graphology.source e =? k); reflexivity.
  - apply (Permutation_NoDup (Permutation_sym (own_keys_perm _ _))).
    unfold neighbors_undirected.
    apply distinct_slots_neighbors; [|now apply indexed_distinct].
    intros x y Hx Hy Hf. unfold same_slot.
    rewrite !andb_true_iff, orb_true_iff in Hx, Hy.
    destruct Hx as [Hx1 Hx2], Hy as [Hy1 Hy2]. rewrite Hx1, Hy1. simpl.
    destruct (String.eqb_spec (slot_source x) node) as [Ex | Ex],
             (String.eqb_spec (slot_source y) node) as [Ey | Ey].
    + rewrite Ex, Ey, Hf, !String.eqb_refl. reflexivity.
    + destruct Hy2 as [Hy2 | Hy2]; [discriminate|]. apply String.eqb_eq in Hy2.
      rewrite Ex, Hy2, Hf, !String.eqb_refl. simpl. apply orb_true_r.
    + destruct Hx2 as [Hx2 | Hx2]; [discriminate|]. apply String.eqb_eq in Hx2.
      rewrite Ey, Hx2, Hf, !String.eqb_refl. simpl. apply orb_true_r.
    + destruct Hx2 as [Hx2 | Hx2]; [discriminate|]. apply String.eqb_eq in Hx2.
      destruct Hy2 as [Hy2 | Hy2]; [discriminate|]. apply String.eqb_eq in Hy2.
      rewrite Hx2, Hy2, Hf, !String.eqb_refl. reflexivity.
  - intros e He HP. apply andb_true_iff in HP. destruct HP as [Hu Hext].
    destruct (indexed_connected g e Hix He) as [sl [Hsl Hc]].
    destruct (other_end_connected node sl e Hc Hu Hext) as [H1 [H2 H3]].
    apply (Permutation_in _ (Permutation_sym (own_keys_perm _ _))).
    unfold neighbors_undirected. apply in_map_iff. exists sl.
    split; [exact H3|]. apply filter_In. split; [exact Hsl|].
    now rewrite H1, H2.
Qed.

(** On an indexed graph the node-scoped iteration visits each edge
    attached to the node once. *)
Lemma edgesOf_perm (g : Graph) (node : string) :
  indexed g = true ->
  Permutation (edgesOf g node)
              (filter (fun e => hasExtremity_data e node) (edges g)).
Proof.
  intro Hix. unfold edgesOf.
  eapply perm_trans; [|apply by_direction_perm].
  apply Permutation_app; [now apply visits_in_perm|].
  apply Permutation_app; [now apply visits_out_perm | now apply visits_undirected_perm].
Qed.

Lemma filter_other_nodes (k : string) (l : list (string * NodeAttr.t)) :
  ~ In k (map fst l) -> filter (fun q => negb (fst q =? k)) l = l.
Proof.
  intro H. apply forallb_filter_id. apply forallb_forall. intros q Hq.
  apply negb_true_iff, String.eqb_neq. intros <-. apply H. now apply in_map.
Qed.

Lemma remove_readd_node_perm (k : string) (a : NodeAttr.t) (l : list (string * NodeAttr.t)) :
  NoDup (map fst l) -> In (k, a) l ->
  Permutation (filter (fun q => negb (fst q =? k)) l ++ [(k, a)]) l.
Proof.
  intros Hnd Hin. apply in_split in Hin. destruct Hin as [l1 [l2 ->]].
  rewrite map_app in Hnd. simpl in Hnd.
  pose proof (NoDup_remove_2 _ _ _ Hnd) as Hk.
  rewrite filter_app. simpl. rewrite String.eqb_refl. simpl.
  rewrite !filter_other_nodes.
  - rewrite <- app_assoc. apply Permutation_app_head.
    apply Permutation_sym. apply Permutation_cons_append.
  - intro H. apply Hk. apply in_or_app. now right.
  - intro H. apply Hk. apply in_or_app. now left.
Qed.

Lemma hasNode_filter_self (ns : list (string * NodeAttr.t)) (es : list EdgeData)
    (c : N) (adj : list Slot) (k : string) :
  hasNode (mkGraph (filter (fun q => negb (fst q =? k)) ns) es c adj) k = false.
Proof.
  unfold hasNode. simpl. apply existsb_fst_false.
  intro H. apply in_map_iff in H. destruct H as [q [Hq Hin]].
  apply filter_In in Hin. destruct Hin as [_ Hne].
  apply negb_true_iff, String.eqb_neq in Hne. contradiction.
Qed.

Lemma has_node_after_readd (ns : list (string * NodeAttr.t)) (k x : string)
    (a : NodeAttr.t) :
  existsb (fun p => fst p =? x) ns = true ->
  existsb (fun p => fst p =? x)
          (filter (fun q => negb (fst q =? k)) ns ++ [(k, a)]) = true.
Proof.
  intro H. rewrite existsb_app. simpl.
  destruct (k =? x) eqn:E; [now rewrite orb_true_r|].
  rewrite orb_false_r. apply existsb_exists in H. destruct H as [p [Hin Hp]].
  apply existsb_exists. exists p. split; [|exact Hp].
  apply filter_In. split; [exact Hin|].
  apply negb_true_iff. apply String.eqb_eq in Hp. rewrite Hp. 
  rewrite String.eqb_sym. exact E.
Qed.

Lemma settled_bridges_stay (node : string) (c : N) (l : NewEdges.t) :
  (forall p, In p l -> settled node (snd p)) ->
  filter (fun e => negb (hasExtremity_data e node)) (bridge_edges c l)
  = bridge_edges c l.
Proof.
  revert c. induction l as [|p l IH]; intros c H; simpl; [reflexivity|].
  destruct (H p (or_introl eq_refl)) as [s [t [Hs [Ht [Hsn Htn]]]]].
  unfold hasExtremity_data at 1. simpl. rewrite Hs, Ht. simpl.
  apply String.eqb_neq in Hsn, Htn. rewrite Hsn, Htn. simpl.
  f_equal. apply IH. intros q Hq. apply H. now right.
Qed.

Lemma bridgeable_settled' (g : Graph) (node : string) (p : string * NewEdges.Entry) :
  bridgeable g node = true -> In p (bridge_table g node) -> settled node (snd p).
Proof.
  intros Hb Hp.
  destruct (bridgeable_settled g node p Hb Hp) as [s [t [Hs [Ht [Hsn [Htn _]]]]]].
  exists s, t. tauto.
Qed.

Lemma key_below_not_generated (c : N) (k : EdgeKey) (n : N) :
  key_below c k = true -> k = Generated n -> (n < c)%N.
Proof. intros H ->. simpl in H. now apply N.ltb_lt. Qed.

(** C1, as the code has it.  Take a well-formed graph whose index of
    edges by neighbor is the one the library keeps ([indexed]), a node that
    is selected and present, an edit buffer whose two lists are empty, and
    let the edges of the node be [bridgeable].  Then remove followed by
    add-back both complete, and the graph they leave has: the same nodes
    with the same attributes, the removed node now last in the node order;
    every edge that was not attached to the node, untouched and in its
    place; after them, for every edge that was attached to the node, a
    directed edge with the same source, target and attributes under a
    freshly generated key, in the order in which the library visited the
    edges of the node (the incoming ones, the outgoing ones, the undirected
    ones, each time neighbor by neighbor and the parallel edges of one
    neighbor together), the keys being generated one after the other past
    those the bridges used; no bridge.  The interaction state, the camera
    ratio and the log are as before and the buffer ends with its four
    fields unset.  Up to the order of nodes and edges and to the keys and
    direction flags of the re-created edges, the graph is the one before
    the removal. *)
Theorem remove_then_add_back :
  forall (g : Graph) (st : State.t) (node : string) (a : NodeAttr.t)
         (rn : option string) (ra : option NodeAttr.t) (r : Q)
         (ws : list AttributeWrite),
    well_formed g = true ->
    indexed g = true ->
    node <> "" ->
    Graphology.getNodeAttributes g node = Normal a ->
    bridgeable g node = true ->
    let w := mkWorld g st (ContextState.mk (Some node) rn ra (Some []) (Some [])) r ws in
    let fresh := (edgeKeyGenerator g + N.of_nat (List.length (bridge_table g node)))%N in
    let w2 := fst (malopAddBtn_click (fst (malopRemoveBtn_click w))) in
    snd (malopRemoveBtn_click w) = Normal tt
    /\ snd (malopAddBtn_click (fst (malopRemoveBtn_click w))) = Normal tt
    /\ nodes (w_graph w2)
       = filter (fun q => negb (fst q =? node)) (nodes g) ++ [(node, a)]
    /\ edges (w_graph w2)
       = filter (fun e => negb (hasExtremity_data e node)) (edges g)
         ++ readded_edges fresh (map to_removed (edgesOf g node))
    /\ edgeKeyGenerator (w_graph w2) = (fresh + N.of_nat (List.length (edgesOf g node)))%N
    /\ w_state w2 = st
    /\ w_contextState w2 = ContextState.mk (Some node) None None None None
    /\ w_ratio w2 = r
    /\ w_writes w2 = ws
    /\ Permutation (nodes (w_graph w2)) (nodes g)
    /\ Permutation (map to_removed (edges (w_graph w2))) (map to_removed (edges g)).
Proof.
  intros g st node a rn ra r ws Hwf Hix Hnode Ha Hb w fresh w2.
  unfold Graphology.getNodeAttributes in Ha.
  destruct (nodeData g node) as [p|] eqn:Hp; [|discriminate].
  injection Ha as Hsnd.
  pose proof (bridgeable_insertable g node Hwf Hb) as Hins.
  pose proof (malopRemoveBtn_click_run g st node rn ra [] [] r ws p Hnode Hp) as Hrun.
  cbv zeta in Hrun. rewrite Hins, (inserted_all _ _ Hins) in Hrun.
  simpl app in Hrun.
  assert (Hstay : filter (fun e => negb (hasExtremity_data e node))
                    (edges g ++ bridge_edges (edgeKeyGenerator g) (bridge_table g node))
                  = filter (fun e => negb (hasExtremity_data e node)) (edges g)
                    ++ bridge_edges (edgeKeyGenerator g) (bridge_table g node)).
  { rewrite filter_app. f_equal. apply settled_bridges_stay.
    intros q Hq. exact (bridgeable_settled' g node q Hb Hq). }
  assert (Hadd : exists adj2,
             malopAddBtn_click (fst (malopRemoveBtn_click w))
             = (mkWorld
                  (mkGraph (filter (fun q => negb (fst q =? node)) (nodes g) ++ [(node, a)])
                           (filter (fun e => negb (hasExtremity_data e node)) (edges g)
                            ++ readded_edges fresh (map to_removed (edgesOf g node)))
                           (fresh + N.of_nat (List.length (edgesOf g node)))
                           adj2)
                  st (ContextState.mk (Some node) None None None None) r ws,
                Normal tt)).
  { unfold w. rewrite Hrun. cbn [fst].
    cbn [edges nodes edgeKeyGenerator adjacency]. rewrite Hstay, Hsnd.
    eexists. rewrite malopAddBtn_click_run.
    + unfold fresh. rewrite length_map.
      rewrite !without_keys_app.
      rewrite without_keys_none, without_keys_all, without_keys_none.
      * rewrite app_nil_r. reflexivity.
      * intros e He Hk.
        apply bridge_edges_keys in Hk. destruct Hk as [n [Hk Hn]].
        assert (Hin : In (key e) (map key (readded_edges
                         (edgeKeyGenerator g + N.of_nat (List.length (bridge_table g node)))
                         (map to_removed (edgesOf g node))))) by now apply in_map.
        apply readded_edges_keys in Hin. destruct Hin as [m [Hm Hmn]].
        rewrite Hk in Hm. inversion Hm. lia.
      * intros e He. now apply in_map.
      * intros e He Hk. apply filter_In in He. destruct He as [He _].
        apply bridge_edges_keys in Hk. destruct Hk as [n [Hk Hn]].
        pose proof (key_below_not_generated _ _ n
                      (well_formed_key_below g e Hwf He) Hk). lia.
    + exact Hnode.
    + apply hasNode_filter_self.
    + apply forallb_forall. intros x Hx.
      apply in_map_iff in Hx. destruct Hx as [e [<- He]].
      apply edgesOf_In in He. destruct He as [He _].
      destruct (well_formed_extremities g e Hwf He) as [Hs Ht].
      unfold has_extremities, to_removed. simpl.
      rewrite !has_node_after_readd; [reflexivity | exact Ht | exact Hs].
    + apply bridge_edges_NoDup.
    + intros k Hk. rewrite !map_app. apply in_or_app. left. apply in_or_app. now right. }
  destruct Hadd as [adj2 Hadd].
  split; [unfold w; rewrite Hrun; reflexivity|].
  unfold w2. rewrite Hadd. cbn [fst snd w_graph w_state w_contextState w_ratio w_writes
                               nodes edges edgeKeyGenerator].
  do 8 (split; [reflexivity|]).
  split.
  - apply remove_readd_node_perm; [now apply well_formed_nodes|].
    unfold nodeData in Hp. apply find_some in Hp. destruct Hp as [Hin Hk].
    apply String.eqb_eq in Hk. destruct p as [k' a']. simpl in *. now subst.
  - rewrite map_app, to_removed_readded, <- map_app.
    apply Permutation_map.
    eapply perm_trans; [|apply (filter_negb_perm (fun e => hasExtremity_data e node))].
    apply Permutation_app_head. now apply edgesOf_perm.
Qed.

(** ** Bridges, label by label *)

Lemma hasEdge_In (g : Graph) (e : EdgeData) :
  In e (edges g) -> hasEdge g (key e) = true.
Proof.
  intro H. unfold hasEdge. apply existsb_key_true. now apply in_map.
Qed.

Lemma hasEdge_generated (g : Graph) (n : N) :
  well_formed g = true -> (edgeKeyGenerator g <= n)%N ->
  hasEdge g (Generated n) = false.
Proof.
  intros Hwf Hn. unfold hasEdge. apply existsb_key_false.
  intro H. apply in_map_iff in H. destruct H as [e [Hk He]].
  pose proof (key_below_not_generated _ _ n (well_formed_key_below g e Hwf He) Hk).
  lia.
Qed.

(** Among old edges and appended bridges, the created edges are the
    bridges. *)
Lemma created_bridges (g : Graph) (f : EdgeData -> bool) (l : NewEdges.t) :
  well_formed g = true ->
  filter (fun e => negb (hasEdge g (key e)))
         (filter f (edges g ++ bridge_edges (edgeKeyGenerator g) l))
  = filter f (bridge_edges (edgeKeyGenerator g) l).
Proof.
  intro Hwf. rewrite !filter_app.
  rewrite (filter_nil (fun e => negb (hasEdge g (key e))) (filter f (edges g))).
  - simpl. apply forallb_filter_id. apply forallb_forall. intros e He.
    apply filter_In in He. destruct He as [He _].
    assert (Hk : In (key e) (map key (bridge_edges (edgeKeyGenerator g) l)))
      by now apply in_map.
    apply bridge_edges_keys in Hk. destruct Hk as [n [Hk Hn]].
    rewrite Hk. apply negb_true_iff. apply hasEdge_generated; [exact Hwf | lia].
  - intros e He. apply filter_In in He. destruct He as [He _].
    apply negb_false_iff. now apply hasEdge_In.
Qed.

Lemma filter_true {A : Type} (l : list A) : filter (fun _ => true) l = l.
Proof. induction l as [|x l IH]; simpl; [reflexivity | now rewrite IH]. Qed.

Lemma bridge_edges_In (c : N) (l : NewEdges.t) (e : EdgeData) :
  In e (bridge_edges c l) ->
  exists p, In p l
            /\ Graphology.source e = to_string (NewEdges.source (snd p))
            /\ Graphology.target e = to_string (NewEdges.target (snd p))
            /\ Graphology.attributes e = NewEdges.attributes (snd p).
Proof.
  revert c. induction l as [|p l IH]; intro c; simpl; [tauto|].
  intros [<- | H].
  - exists p. simpl. tauto.
  - destruct (IH _ H) as [q [Hq Hrest]]. exists q. tauto.
Qed.

(** No bridge carries a label that no inserted entry is filed under. *)
Lemma no_bridge_for (k : string) (c : N) (l : NewEdges.t) :
  Forall labelled l -> ~ In k (map fst l) ->
  forall e, In e (bridge_edges c l) -> (label_key e =? k) = false.
Proof.
  intros Hlab Hk e He.
  destruct (bridge_edges_In c l e He) as [p [Hp [_ [_ Ha]]]].
  apply String.eqb_neq. intro E. apply Hk.
  rewrite Forall_forall in Hlab. specialize (Hlab p Hp). unfold labelled in Hlab.
  unfold label_key in E. rewrite Ha, Hlab in E. rewrite <- E. now apply in_map.
Qed.

Lemma inserted_In (g : Graph) (l : NewEdges.t) (p : string * NewEdges.Entry) :
  In p (inserted g l) -> In p l /\ insertable g p = true.
Proof.
  induction l as [|q l IH]; simpl; [tauto|].
  destruct (insertable g q) eqn:E; simpl; [|tauto].
  intros [<- | H]; [tauto|]. destruct (IH H). tauto.
Qed.

Lemma bridge_table_In (g : Graph) (node k : string) (x : NewEdges.Entry) :
  In (k, x) (bridge_table g node)
  <-> fold_left (entry_step node k) (filter (filed_under k) (edgesOf g node)) None
      = Some x.
Proof.
  split.
  - intro H. exact (bridge_table_entry g node (k, x) H).
  - intro H.
    change (fold_left (entry_step node k)
              (filter (filed_under k) (edgesOf g node)) (entry_of [] k) = Some x) in H.
    rewrite <- (entry_of_scan node k (edgesOf g node) []) in H.
    unfold entry_of in H.
    destruct (find (fun p => fst p =? k) (scan node (edgesOf g node) [])) as [p|] eqn:E;
      [|discriminate].
    apply find_some in E. destruct E as [Hin Hk]. apply String.eqb_eq in Hk.
    simpl in H. inversion H. subst.
    unfold bridge_table. apply (Permutation_in _ (Permutation_sym (for_in_perm _))).
    now destruct p.
Qed.

Lemma bridge_table_key (g : Graph) (node k : string) :
  In k (map fst (bridge_table g node)) ->
  exists x, fold_left (entry_step node k) (filter (filed_under k) (edgesOf g node)) None
            = Some x.
Proof.
  intro H. apply in_map_iff in H. destruct H as [[k' x] [Hk Hin]]. simpl in Hk. subst k'.
  exists x. now apply bridge_table_In.
Qed.

Lemma inserted_labelled (g : Graph) (l : NewEdges.t) :
  Forall labelled l -> Forall labelled (inserted g l).
Proof.
  intro H. apply Forall_forall. intros p Hp.
  apply inserted_In in Hp. rewrite Forall_forall in H. now apply H.
Qed.

(** The edges a removal creates are bridges of the table: all of them
    that survive the drop of the node when the handler completes, those
    inserted before the rejected one when it throws. *)
Lemma created_by_removal (g : Graph) (st : State.t) (node : string)
    (rn : option string) (ra : option NodeAttr.t)
    (l0 : list ContextState.RemovedEdge) (k0 : list EdgeKey)
    (r : Q) (ws : list AttributeWrite) (p : string * NodeAttr.t) :
  well_formed g = true ->
  node <> "" ->
  nodeData g node = Some p ->
  let res := malopRemoveBtn_click
               (mkWorld g st (ContextState.mk (Some node) rn ra (Some l0) (Some k0)) r ws) in
  (snd res = Normal tt
   /\ forallb (insertable g) (bridge_table g node) = true
   /\ created g (w_graph (fst res))
      = filter (fun e => negb (hasExtremity_data e node))
               (bridge_edges (edgeKeyGenerator g) (bridge_table g node)))
  \/ (snd res = Throw NotFoundGraphError
      /\ forallb (insertable g) (bridge_table g node) = false
      /\ created g (w_graph (fst res))
         = bridge_edges (edgeKeyGenerator g) (inserted g (bridge_table g node))).
Proof.
  intros Hwf Hnode Hp res.
  pose proof (malopRemoveBtn_click_run g st node rn ra l0 k0 r ws p Hnode Hp) as Hrun.
  cbv zeta in Hrun. unfold res. rewrite Hrun. clear Hrun.
  destruct (forallb (insertable g) (bridge_table g node)) eqn:Hins.
  - left. split; [reflexivity|]. split; [reflexivity|].
    rewrite (inserted_all _ _ Hins). unfold created. cbn [fst w_graph edges].
    now apply created_bridges.
  - right. split; [reflexivity|]. split; [reflexivity|].
    unfold created. cbn [fst w_graph edges].
    pose proof (created_bridges g (fun _ => true) (inserted g (bridge_table g node)) Hwf)
      as H.
    now rewrite !filter_true in H.
Qed.

(** C2, as the code has it.  Take a well-formed graph without a node
    keyed ["undefined"], a node that is selected and present, none of whose
    edges flagged [attr == false] is labelled ["__proto__"], and a buffer
    whose two lists are arrays.  Let [L] be a label that names no inherited
    property and that some edge of the node flagged [attr == false]
    carries.  If none of these edges enters the node (one edge leaving it,
    or two edges leaving it to [A] and to [B]), or none of them leaves it,
    one slot of the bridge filed under [L] is never assigned: [addEdge]
    is handed [undefined] for it and throws.  The remove handler ends with
    [NotFoundGraphError], the node is still in the graph, whose node list
    is the one before, a removal is recorded in the buffer, and no edge
    created on the way carries the label [L]. *)
Theorem one_sided_label_aborts_removal :
  forall (g : Graph) (st : State.t) (node : string) (a : NodeAttr.t)
         (rn : option string) (ra : option NodeAttr.t)
         (l0 : list ContextState.RemovedEdge) (k0 : list EdgeKey)
         (r : Q) (ws : list AttributeWrite) (L : string),
    well_formed g = true ->
    node <> "" ->
    Graphology.getNodeAttributes g node = Normal a ->
    prototype_untouched g node = true ->
    hasNode g "undefined" = false ->
    NewEdges.inherited L = false ->
    filter (filed_under L) (edgesOf g node) <> [] ->
    (forall e, In e (filter (filed_under L) (edgesOf g node)) ->
               Graphology.target e <> node)
    \/ (forall e, In e (filter (filed_under L) (edgesOf g node)) ->
                  Graphology.source e <> node) ->
    let w := mkWorld g st (ContextState.mk (Some node) rn ra (Some l0) (Some k0)) r ws in
    let w' := fst (malopRemoveBtn_click w) in
    snd (malopRemoveBtn_click w) = Throw NotFoundGraphError
    /\ nodes (w_graph w') = nodes g
    /\ hasNode (w_graph w') node = true
    /\ ContextState.removedNode (w_contextState w') = Some node
    /\ ContextState.removedNodeAttributes (w_contextState w') = Some a
    /\ filter (fun e => label_key e =? L) (created g (w_graph w')) = [].
Proof.
  intros g st node a rn ra l0 k0 r ws L Hwf Hnode Ha _ Hundef HL Hne Hside w w'.
  unfold Graphology.getNodeAttributes in Ha.
  destruct (nodeData g node) as [p|] eqn:Hp; [|discriminate].
  injection Ha as Hsnd.
  destruct (fold_entry_assigns node L (filter (filed_under L) (edgesOf g node)) HL
              None Hne) as [x [Hx _]].
  assert (Hbad : insertable g (L, x) = false).
  { destruct (fold_entry_slots node L _ None x Hx) as [Hs Ht].
    unfold insertable. cbn [snd].
    destruct Hside as [Hout | Hin].
    - destruct (NewEdges.target x) as [t|] eqn:E.
      + destruct (Ht t eq_refl) as [[e [He [Hte _]]] | [y [Hy _]]];
          [now elim (Hout e He) | discriminate].
      + cbn [to_string]. rewrite Hundef. apply andb_false_r.
    - destruct (NewEdges.source x) as [s|] eqn:E.
      + destruct (Hs s eq_refl) as [[e [He [Hse _]]] | [y [Hy _]]];
          [now elim (Hin e He) | discriminate].
      + cbn [to_string]. rewrite Hundef. reflexivity. }
  assert (Hrej : forallb (insertable g) (bridge_table g node) = false).
  { destruct (forallb (insertable g) (bridge_table g node)) eqn:E; [|reflexivity].
    rewrite forallb_forall in E.
    rewrite <- Hbad. symmetry. apply E. now apply bridge_table_In. }
  pose proof (malopRemoveBtn_click_run g st node rn ra l0 k0 r ws p Hnode Hp) as Hrun.
  cbv zeta in Hrun. rewrite Hrej in Hrun.
  unfold w', w. rewrite Hrun. cbn [fst snd w_graph w_contextState nodes
    ContextState.removedNode ContextState.removedNodeAttributes].
  split; [reflexivity|]. split; [reflexivity|].
  split; [exact (nodeData_hasNode _ _ _ Hp)|].
  split; [reflexivity|]. split; [now rewrite Hsnd|].
  unfold created. cbn [edges].
  pose proof (created_bridges g (fun _ => true) (inserted g (bridge_table g node)) Hwf)
    as Hc.
  rewrite !filter_true in Hc. rewrite Hc. clear Hc.
  apply filter_nil. intros e He.
  apply (no_bridge_for L (edgeKeyGenerator g) (inserted g (bridge_table g node))).
  - apply inserted_labelled, bridge_table_labelled.
  - intro H. apply in_map_iff in H. destruct H as [[k y] [Hk Hin]].
    simpl in Hk. subst k.
    apply inserted_In in Hin. destruct Hin as [Hin Hok].
    apply bridge_table_In in Hin. rewrite Hx in Hin.
    injection Hin as <-. congruence.
  - exact He.
Qed.

(** ** The handlers on sample graphs *)

(** On the chain the bridge takes the key [0] and the two edges of [n]
    come back under [1] and [2].  On the graph with parallel edges the edge
    from ["2"] comes back first and the two edges from [a] before the one
    from [b]. *)
Lemma remove_then_add_back_witness :
  (snd (malopRemoveBtn_click chain_world) = Normal tt
   /\ snd (malopAddBtn_click (fst (malopRemoveBtn_click chain_world))) = Normal tt
   /\ nodes (w_graph (fst (malopAddBtn_click (fst (malopRemoveBtn_click chain_world)))))
      = [("a", no_attributes); ("b", no_attributes); ("n", extra_data (Some false))]
   /\ edges (w_graph (fst (malopAddBtn_click (fst (malopRemoveBtn_click chain_world)))))
      = [mkEdge (Given "e3") "b" "a" (observed "talks") false;
         mkEdge (Generated 1) "a" "n" (structural "runs") false;
         mkEdge (Generated 2) "n" "b" (structural "runs") false]
   /\ edgeKeyGenerator
        (w_graph (fst (malopAddBtn_click (fst (malopRemoveBtn_click chain_world))))) = 3%N)
  /\ edges (w_graph (fst (malopAddBtn_click (fst (malopRemoveBtn_click parallel_world)))))
     = [mkEdge (Generated 0) "2" "n" (observed "calls") false;
        mkEdge (Generated 1) "a" "n" (observed "reads") false;
        mkEdge (Generated 2) "a" "n" (observed "sends") false;
        mkEdge (Generated 3) "b" "n" (observed "writes") false].
Proof.
  assert (Hn : "n" <> "") by discriminate.
  destruct (remove_then_add_back chain_graph state "n" (extra_data (Some false))
              None None 1 [] eq_refl eq_refl Hn eq_refl eq_refl)
    as [H1 [H2 [H3 [H4 [H5 _]]]]].
  destruct (remove_then_add_back parallel_graph state "n" no_attributes
              None None 1 [] eq_refl eq_refl Hn eq_refl eq_refl)
    as [_ [_ [_ [H6 _]]]].
  exact (conj (conj H1 (conj H2 (conj H3 (conj H4 H5)))) H6).
Defined.

(** C1, counterexample.  The graph has the nodes [a] and [n] and two edges
    between them, ["e1"] directed from [a] to [n] and ["e2"] undirected;
    the buffer is as declared and [n] is selected.  Remove and add-back
    both complete.  The two edges come back under the generated keys [0]
    and [1], both directed: the edges ["e1"] and ["e2"] of the graph before
    the removal are no longer edges of the graph, which is therefore not
    the graph before the removal. *)
Lemma remove_then_add_back_renames_edge :
  snd (malopRemoveBtn_click pair_world) = Normal tt
  /\ snd (malopAddBtn_click (fst (malopRemoveBtn_click pair_world))) = Normal tt
  /\ map key (edges (w_graph pair_world)) = [Given "e1"; Given "e2"]
  /\ map undirected (edges (w_graph pair_world)) = [false; true]
  /\ map key (edges (w_graph (fst (malopAddBtn_click
                                     (fst (malopRemoveBtn_click pair_world))))))
     = [Generated 0; Generated 1]
  /\ map undirected (edges (w_graph (fst (malopAddBtn_click
                                            (fst (malopRemoveBtn_click pair_world))))))
     = [false; false]
  /\ w_graph (fst (malopAddBtn_click (fst (malopRemoveBtn_click pair_world))))
     <> w_graph pair_world.
Proof.
  repeat split. intro H. vm_compute in H. discriminate H.
Qed.

(** Node [n] of the fan has exactly two edges flagged [attr == false],
    both labelled ["owns"], one to [a] and one to [b], and both leave [n]:
    each assigns the source slot of the bridge and the target slot stays
    unset.  The handler throws, [n] stays with its two edges and no edge is
    created.  The same happens when [n] has the edge to [a] alone. *)
Lemma one_sided_label_aborts_removal_witness :
  (filter (filed_under "owns") (edgesOf fan_graph "n")
   = [mkEdge (Given "f1") "n" "a" (structural "owns") false;
      mkEdge (Given "f2") "n" "b" (structural "owns") false]
   /\ snd (malopRemoveBtn_click fan_world) = Throw NotFoundGraphError
   /\ nodes (w_graph (fst (malopRemoveBtn_click fan_world))) = nodes fan_graph
   /\ hasNode (w_graph (fst (malopRemoveBtn_click fan_world))) "n" = true
   /\ w_graph (fst (malopRemoveBtn_click fan_world)) = fan_graph)
  /\ (filter (filed_under "owns") (edgesOf single_graph "n")
      = [mkEdge (Given "s1") "n" "a" (structural "owns") false]
      /\ snd (malopRemoveBtn_click (mkWorld single_graph state (selecting "n") 1 []))
         = Throw NotFoundGraphError
      /\ hasNode (w_graph (fst (malopRemoveBtn_click
                                  (mkWorld single_graph state (selecting "n") 1 []))))
                 "n" = true).
Proof.
  assert (Hn : "n" <> "") by discriminate.
  assert (Hfan : filter (filed_under "owns") (edgesOf fan_graph "n") <> [])
    by discriminate.
  assert (Hfan_out : forall e,
             In e (filter (filed_under "owns") (edgesOf fan_graph "n")) ->
             Graphology.target e <> "n").
  { intros e [<- | [<- | []]]; discriminate. }
  assert (Hone : filter (filed_under "owns") (edgesOf single_graph "n") <> [])
    by discriminate.
  assert (Hone_out : forall e,
             In e (filter (filed_under "owns") (edgesOf single_graph "n")) ->
             Graphology.target e <> "n").
  { intros e [<- | []]; discriminate. }
  destruct (one_sided_label_aborts_removal fan_graph state "n" no_attributes
              None None [] [] 1 [] "owns" eq_refl Hn eq_refl eq_refl eq_refl eq_refl
              Hfan (or_introl Hfan_out)) as [H1 [H2 [H3 _]]].
  destruct (one_sided_label_aborts_removal single_graph state "n" no_attributes
              None None [] [] 1 [] "owns" eq_refl Hn eq_refl eq_refl eq_refl eq_refl
              Hone (or_introl Hone_out)) as [K1 [_ [K3 _]]].
  exact (conj (conj eq_refl (conj H1 (conj H2 (conj H3 eq_refl))))
              (conj eq_refl (conj K1 K3))).
Defined.

(** ** The edit buffer over two removals *)

(** While both lists of the buffer are arrays, the remove handler leaves the
    buffer with its four fields set, whether it completes or throws on a
    bridge. *)
Lemma remove_populates_buffer (g : Graph) (st : State.t) (node : string)
    (rn : option string) (ra : option NodeAttr.t)
    (l0 : list ContextState.RemovedEdge) (k0 : list EdgeKey)
    (r : Q) (ws : list AttributeWrite) (p : string * NodeAttr.t) :
  node <> "" ->
  nodeData g node = Some p ->
  buffer_populated
    (w_contextState
       (fst (malopRemoveBtn_click
               (mkWorld g st (ContextState.mk (Some node) rn ra (Some l0) (Some k0)) r ws))))
  = true.
Proof.
  intros Hnode Hp.
  pose proof (malopRemoveBtn_click_run g st node rn ra l0 k0 r ws p Hnode Hp) as Hrun.
  cbv zeta in Hrun. rewrite Hrun.
  now destruct (forallb (insertable g) (bridge_table g node)).
Qed.

(** C8, the code at the failing input.  From the declared state with one
    node [n]: right-click [n], remove, add back, remove.  The first remove
    populates the buffer and the add-back unsets its four fields; the lists
    are then [undefined] instead of empty arrays, so the second remove
    leaves a buffer with the node and its snapshot set and both lists
    unset, and the add-back after it throws a [TypeError] on [.length] and
    never clears the buffer.  On a node that has edges the second remove
    itself throws, on [.push]. *)
Theorem second_removal_breaks_buffer :
  let w1 := fst (rightClickNode "n" lone_world) in
  let w2 := fst (malopRemoveBtn_click w1) in
  let w3 := fst (malopAddBtn_click w2) in
  let w4 := fst (malopRemoveBtn_click w3) in
  buffer_invariant (w_contextState w1) = true
  /\ buffer_invariant (w_contextState w2) = true
  /\ buffer_invariant (w_contextState w3) = true
  /\ snd (malopRemoveBtn_click w3) = Normal tt
  /\ w_contextState w4
     = ContextState.mk (Some "n") (Some "n") (Some (extra_data (Some false))) None None
  /\ buffer_invariant (w_contextState w4) = false
  /\ snd (malopAddBtn_click w4) = Throw TypeError
  /\ w_contextState (fst (malopAddBtn_click w4)) = w_contextState w4
  /\ snd (malopRemoveBtn_click
            (fst (malopAddBtn_click (fst (malopRemoveBtn_click chain_world)))))
     = Throw TypeError.
Proof. repeat split. Qed.

(** ** Hovering *)

(** Entering a node of the graph records the node, its label, its
    [isMalop] flag and its neighbor set; a node without a [neighbors]
    attribute gets the empty set. *)
Lemma setHoveredNode_enter (w : World) (node : string) (p : string * NodeAttr.t) :
  node <> "" ->
  nodeData (w_graph w) node = Some p ->
  setHoveredNode (Some node) w
  = (mkWorld (w_graph w)
             (State.mk (Some node) (NodeAttr.label (snd p)) (NodeAttr.isMalop (snd p))
                       (State.selectedNode (w_state w)) (State.suggestions (w_state w))
                       (Some (new_Set (NodeAttr.neighbors (snd p)))))
             (w_contextState w) (w_ratio w) (w_writes w),
     Normal tt).
Proof.
  intros Hnode Hp. destruct w as [g st cs r ws]. simpl in *.
  unfold setHoveredNode. rewrite (truthy_string_Some _ Hnode). cbv [to_string].
  erewrite bind_normal; [|reflexivity].
  erewrite bind_normal; [|apply getNodeAttribute_run; exact Hp].
  erewrite bind_normal; [|apply getNodeAttribute_run; exact Hp].
  erewrite bind_normal; [|apply getNodeAttribute_run; exact Hp].
  erewrite bind_normal; [|reflexivity].
  erewrite bind_normal; [|apply getNodeAttribute_run; exact Hp].
  erewrite bind_normal; [|reflexivity].
  erewrite bind_normal; [|apply getNodeAttribute_run; exact Hp].
  reflexivity.
Qed.

(** Leaving a node clears the hover and resets the [isMalop] flag. *)
Lemma setHoveredNode_leave (w : World) :
  setHoveredNode None w
  = (mkWorld (w_graph w)
             (State.mk None None (Some false)
                       (State.selectedNode (w_state w)) (State.suggestions (w_state w))
                       None)
             (w_contextState w) (w_ratio w) (w_writes w),
     Normal tt).
Proof. reflexivity. Qed.

(** X7. While a node flagged [isMalop] is hovered, the reducers change
    nothing: once [setHoveredNode] has entered such a node, the node
    reducer and the edge reducer return the base data of every node and
    of every edge. *)
Corollary hovering_a_malop_suppresses (w : World) (node : string)
    (p : string * NodeAttr.t) (n : string) (e : EdgeKey)
    (ndata : NodeAttr.t) (edata : EdgeAttr.t) :
  node <> "" ->
  nodeData (w_graph w) node = Some p ->
  NodeAttr.isMalop (snd p) = Some true ->
  let st := w_state (fst (setHoveredNode (Some node) w)) in
  nodeReducer st n ndata = ndata
  /\ edgeReducer st (w_graph w) e edata = Normal edata.
Proof.
  intros Hnode Hp Hm st. unfold st.
  rewrite (setHoveredNode_enter w node p Hnode Hp). simpl.
  unfold nodeReducer, edgeReducer. simpl. rewrite Hm. simpl. tauto.
Qed.

(** ** The representation invariant is kept *)

Lemma well_formed_WF (g : Graph) : well_formed g = true <-> WF g.
Proof.
  unfold well_formed, WF.
  rewrite !andb_true_iff, distinct_strings_NoDup, distinct_keys_NoDup, !forallb_forall.
  split.
  - intros [[[H1 H2] H3] H4]. split; [exact H1 | split; [exact H2 | split; [|exact H4]]].
    intros e He. specialize (H3 e He). apply andb_true_iff in H3.
    split; apply existsb_fst_true; tauto.
  - intros [H1 [H2 [H3 H4]]]. split; [split; [split; assumption|] | exact H4].
    intros e He. destruct (H3 e He) as [Hs Ht].
    apply andb_true_iff. split; now apply existsb_fst_true.
Qed.

Lemma key_below_mono (c c' : N) (k : EdgeKey) :
  (c <= c')%N -> key_below c k = true -> key_below c' k = true.
Proof.
  destruct k as [s|n]; simpl; [reflexivity|].
  rewrite !N.ltb_lt. lia.
Qed.

Lemma WF_empty (c : N) (adj : list Slot) : WF (mkGraph [] [] c adj).
Proof. repeat split; simpl; try constructor; tauto. Qed.

Lemma WF_addNode (g g' : Graph) (k : string) (a : NodeAttr.t) :
  WF g -> addNode g k a = Normal g' -> WF g'.
Proof.
  intros [H1 [H2 [H3 H4]]]. unfold addNode.
  destruct (hasNode g k) eqn:E; [discriminate|].
  intro H. inversion H; subst g'. clear H. unfold WF. simpl.
  apply existsb_fst_false in E.
  split; [|split; [exact H2 | split; [|exact H4]]].
  - rewrite map_app. simpl. apply NoDup_app; [exact H1 | repeat constructor; simpl; tauto |].
    intros x Hx [<- | []]. contradiction.
  - intros e He. rewrite map_app. split; apply in_or_app; left; now apply H3.
Qed.

Lemma WF_addEdgeInternal (g g' : Graph) (given : option string) (undir : bool)
    (src tgt : string) (a : EdgeAttr.t) (k : EdgeKey) :
  WF g -> addEdgeInternal g given undir src tgt a = Normal (k, g') -> WF g'.
Proof.
  intros [H1 [H2 [H3 H4]]]. unfold addEdgeInternal.
  destruct (hasNode g src) eqn:Es; [|discriminate].
  destruct (hasNode g tgt) eqn:Et; [|discriminate].
  apply existsb_fst_true in Es, Et. simpl.
  destruct given as [s|].
  - destruct (hasEdge g (Given s)) eqn:Ek; [discriminate|].
    apply existsb_key_false in Ek.
    intro H. inversion H; subst k g'. clear H. unfold WF. simpl.
    split; [exact H1 | split; [|split]].
    + rewrite map_app. simpl. apply NoDup_app; [exact H2 | repeat constructor; simpl; tauto |].
      intros x Hx [<- | []]. contradiction.
    + intros e He. apply in_app_or in He.
      destruct He as [He | [<- | []]]; [now apply H3 | simpl; tauto].
    + intros e He. apply in_app_or in He.
      destruct He as [He | [<- | []]]; [now apply H4 | reflexivity].
  - intro H. inversion H; subst k g'. clear H. unfold WF. simpl.
    split; [exact H1 | split; [|split]].
    + rewrite map_app. simpl. apply NoDup_app; [exact H2 | repeat constructor; simpl; tauto |].
      intros x Hx [<- | []].
      apply in_map_iff in Hx. destruct Hx as [e [Hk He]].
      specialize (H4 e He). rewrite Hk in H4. simpl in H4.
      apply N.ltb_lt in H4. lia.
    + intros e He. apply in_app_or in He.
      destruct He as [He | [<- | []]]; [now apply H3 | simpl; tauto].
    + intros e He. apply in_app_or in He. destruct He as [He | [<- | []]].
      * apply (key_below_mono (edgeKeyGenerator g)); [lia | now apply H4].
      * simpl. apply N.ltb_lt. lia.
Qed.

(** Dropping entries keeps the remaining keys distinct. *)
Lemma kept_keys_distinct {Entry Key : Type} (key_of : Entry -> Key)
    (kept : Entry -> bool) :
  forall entries : list Entry,
    NoDup (map key_of entries) -> NoDup (map key_of (filter kept entries)).
Proof.
  intros entries Hnd.
  induction entries as [|x rest IH]; cbn; [constructor|].
  apply NoDup_cons_iff in Hnd. destruct Hnd as [Hx Hrest].
  destruct (kept x); cbn; [|exact (IH Hrest)].
  apply NoDup_cons; [|exact (IH Hrest)].
  intro Hin. apply Hx. apply in_map_iff in Hin. destruct Hin as [y [Hy Hin]].
  apply filter_In in Hin. rewrite <- Hy. apply in_map. tauto.
Qed.

Lemma WF_dropEdge (g g' : Graph) (k : EdgeKey) :
  WF g -> dropEdge g k = Normal g' -> WF g'.
Proof.
  intros [H1 [H2 [H3 H4]]]. unfold dropEdge.
  destruct (hasEdge g k); [|discriminate].
  intro H. inversion H; subst g'. clear H. unfold WF. simpl.
  split; [exact H1 | split; [|split]].
  - now apply kept_keys_distinct.
  - intros e He. apply filter_In in He. now apply H3.
  - intros e He. apply filter_In in He. now apply H4.
Qed.

Lemma WF_dropNode (g g' : Graph) (k : string) :
  WF g -> dropNode g k = Normal g' -> WF g'.
Proof.
  intros [H1 [H2 [H3 H4]]]. unfold dropNode.
  destruct (hasNode g k); [|discriminate].
  intro H. inversion H; subst g'. clear H. unfold WF. simpl.
  assert (Hkeep : forall e x, In e (edges g) -> hasExtremity_data e k = false ->
            (x = Graphology.source e \/ x = Graphology.target e) ->
            In x (map fst (filter (fun p => negb (fst p =? k)) (nodes g)))).
  { intros e x He Hne Hx. unfold hasExtremity_data in Hne.
    apply orb_false_iff in Hne. destruct Hne as [Hs Ht].
    assert (Hin : In x (map fst (nodes g)))
      by (destruct Hx as [-> | ->]; now apply H3).
    apply in_map_iff in Hin. destruct Hin as [p [Hp Hin]].
    apply in_map_iff. exists p. split; [exact Hp|]. apply filter_In.
    split; [exact Hin|]. rewrite Hp. destruct Hx as [-> | ->]; now rewrite ?Hs, ?Ht. }
  split; [|split; [|split]].
  - now apply kept_keys_distinct.
  - now apply kept_keys_distinct.
  - intros e He. apply filter_In in He. destruct He as [He Hne].
    apply negb_true_iff in Hne.
    split; apply (Hkeep e _ He Hne); [now left | now right].
  - intros e He. apply filter_In in He. now apply H4.
Qed.

Lemma map_fst_update_node (k : string) (f : NodeAttr.t -> NodeAttr.t)
    (l : list (string * NodeAttr.t)) :
  map fst (map (update_node k f) l) = map fst l.
Proof.
  rewrite map_map. apply map_ext. intro p. unfold update_node.
  now destruct (fst p =? k).
Qed.

Lemma WF_setNodeAttribute (g g' : Graph) (k : string) (f : NodeAttr.t -> NodeAttr.t) :
  WF g -> setNodeAttribute g k f = Normal g' -> WF g'.
Proof.
  intros [H1 [H2 [H3 H4]]]. unfold setNodeAttribute.
  destruct (hasNode g k); [|discriminate].
  intro H. inversion H; subst g'. clear H. unfold WF. simpl.
  rewrite map_fst_update_node. split; [exact H1 | split; [exact H2 | split; assumption]].
Qed.

Lemma WF_setEdgeAttribute (g g' : Graph) (k : EdgeKey) (f : EdgeAttr.t -> EdgeAttr.t) :
  WF g -> setEdgeAttribute g k f = Normal g' -> WF g'.
Proof.
  intros [H1 [H2 [H3 H4]]]. unfold setEdgeAttribute.
  destruct (hasEdge g k); [|discriminate].
  intro H. inversion H; subst g'. clear H. unfold WF. simpl.
  assert (Hsame : forall e, In e (map (update_edge k f) (edges g)) ->
            exists e0, In e0 (edges g) /\ key e = key e0
                       /\ Graphology.source e = Graphology.source e0
                       /\ Graphology.target e = Graphology.target e0).
  { intros e He. apply in_map_iff in He. destruct He as [e0 [<- He0]].
    exists e0. unfold update_edge. destruct (key_eqb (key e0) k); simpl; tauto. }
  split; [exact H1 | split; [|split]].
  - replace (map key (map (update_edge k f) (edges g))) with (map key (edges g));
      [exact H2|].
    rewrite map_map. apply map_ext. intro e. unfold update_edge.
    now destruct (key_eqb (key e) k).
  - intros e He. destruct (Hsame e He) as [e0 [He0 [_ [-> ->]]]]. now apply H3.
  - intros e He. destruct (Hsame e He) as [e0 [He0 [-> _]]]. now apply H4.
Qed.

Lemma WF_import_nodes (l : list (string * NodeAttr.t)) (g : Graph) :
  WF g -> WF (fst (import_nodes l g)).
Proof.
  revert g. induction l as [|[k a] l IH]; intros g H; simpl; [exact H|].
  destruct (addNode g k a) as [g'|e] eqn:E; [|exact H].
  apply IH. exact (WF_addNode g g' k a H E).
Qed.

Lemma WF_import_edges (l : list SerializedEdge) (g : Graph) :
  WF g -> WF (fst (import_edges l g)).
Proof.
  revert g. induction l as [|se l IH]; intros g H; simpl; [exact H|].
  destruct (addEdgeInternal g (s_key se) (s_undirected se) (s_source se)
              (s_target se) (s_attributes se)) as [[k g']|e] eqn:E; [|exact H].
  apply IH. exact (WF_addEdgeInternal g g' _ _ _ _ _ k H E).
Qed.

Lemma WF_import (data : SerializedGraph) (g : Graph) :
  WF g -> WF (fst (Graphology.import data g)).
Proof.
  intro H. unfold Graphology.import.
  pose proof (WF_import_nodes (s_nodes data) g H) as Hn.
  destruct (import_nodes (s_nodes data) g) as [g' [u|e]]; simpl in *.
  - now apply WF_import_edges.
  - exact Hn.
Qed.

Lemma keeps_ret {A : Type} (a : A) : keeps_well_formed (ret a).
Proof. intros w H. exact H. Qed.

Lemma keeps_throw {A : Type} (e : Error) : keeps_well_formed (@throw A e).
Proof. intros w H. exact H. Qed.

Lemma keeps_bind {A B : Type} (m : M A) (k : A -> M B) :
  keeps_well_formed m -> (forall a, keeps_well_formed (k a)) ->
  keeps_well_formed (bind m k).
Proof.
  intros Hm Hk w H. unfold bind. specialize (Hm w H).
  destruct (m w) as [w' [a|e]]; simpl in *; [now apply Hk | exact Hm].
Qed.

Lemma keeps_forEach {A : Type} (l : list A) (body : A -> M unit) :
  (forall x, keeps_well_formed (body x)) -> keeps_well_formed (forEach l body).
Proof.
  intro Hb. induction l as [|x l IH]; simpl.
  - apply keeps_ret.
  - apply keeps_bind; [apply Hb | intros _; exact IH].
Qed.

Lemma keeps_foldM {A S : Type} (l : list A) (body : S -> A -> M S) (s : S) :
  (forall s x, keeps_well_formed (body s x)) -> keeps_well_formed (foldM l body s).
Proof.
  intro Hb. revert s. induction l as [|x l IH]; intro s; simpl.
  - apply keeps_ret.
  - apply keeps_bind; [apply Hb | intro s'; apply IH].
Qed.

(** A handler step that does not touch the graph. *)
Lemma keeps_graph {A : Type} (m : M A) :
  (forall w, w_graph (fst (m w)) = w_graph w) -> keeps_well_formed m.
Proof. intros Hm w H. now rewrite Hm. Qed.

Lemma keeps_read {A : Type} (f : Graph -> Completion A) : keeps_well_formed (G.read f).
Proof. apply keeps_graph. intro w. reflexivity. Qed.

Lemma keeps_mutate (f : Graph -> Completion Graph) :
  (forall g g', WF g -> f g = Normal g' -> WF g') -> keeps_well_formed (G.mutate f).
Proof.
  intros Hf w H. unfold G.mutate, bind, get_graph, of_completion, put_graph. simpl.
  destruct (f (w_graph w)) as [g'|e] eqn:E; simpl; [|exact H].
  apply well_formed_WF. apply (Hf _ _ (proj1 (well_formed_WF _) H) E).
Qed.

Lemma keeps_addEdge (src tgt : option string) (a : EdgeAttr.t) :
  keeps_well_formed (G.addEdge src tgt a).
Proof.
  intros w H. unfold G.addEdge, bind, get_graph, of_completion, put_graph, ret,
    Graphology.addEdge. simpl.
  destruct (addEdgeInternal (w_graph w) None false (to_string src) (to_string tgt) a)
    as [[k g']|e] eqn:E; simpl; [|exact H].
  apply well_formed_WF.
  apply (WF_addEdgeInternal _ _ _ _ _ _ _ _ (proj1 (well_formed_WF _) H) E).
Qed.

Lemma keeps_import (data : SerializedGraph) : keeps_well_formed (G.import data).
Proof.
  intros w H. unfold G.import. simpl.
  apply well_formed_WF, WF_import. now apply well_formed_WF.
Qed.

Lemma keeps_clear : keeps_well_formed G.clear.
Proof. intros w H. reflexivity. Qed.

Create HintDb keeps.

#[local] Hint Resolve keeps_ret keeps_throw keeps_read keeps_addEdge keeps_import
  keeps_clear : keeps.

Ltac keeps_graph_step := apply keeps_graph; intro; reflexivity.

Ltac keeps :=
  repeat
    match goal with
    | |- keeps_well_formed (bind _ _) => apply keeps_bind; [|intro]
    | |- keeps_well_formed (forEach _ _) => apply keeps_forEach; intro
    | |- keeps_well_formed (foldM _ _ _) => apply keeps_foldM; intros
    | |- keeps_well_formed _ => solve [auto with keeps]
    | |- keeps_well_formed _ => solve [keeps_graph_step]
    end.

Lemma keeps_setNodeAttribute (node name : string) (f : NodeAttr.t -> NodeAttr.t) :
  keeps_well_formed (G.setNodeAttribute node name f).
Proof.
  unfold G.setNodeAttribute. keeps.
  apply keeps_mutate. intros g g'. apply WF_setNodeAttribute.
Qed.

Lemma keeps_setEdgeAttribute (edge : EdgeKey) (name : string)
    (f : EdgeAttr.t -> EdgeAttr.t) :
  keeps_well_formed (G.setEdgeAttribute edge name f).
Proof.
  unfold G.setEdgeAttribute. keeps.
  apply keeps_mutate. intros g g'. apply WF_setEdgeAttribute.
Qed.

Lemma keeps_addNode (node : string) (a : NodeAttr.t) :
  keeps_well_formed (G.addNode node a).
Proof. apply keeps_mutate. intros g g'. apply WF_addNode. Qed.

Lemma keeps_dropEdge (edge : EdgeKey) : keeps_well_formed (G.dropEdge edge).
Proof. apply keeps_mutate. intros g g'. apply WF_dropEdge. Qed.

Lemma keeps_dropNode (node : string) : keeps_well_formed (G.dropNode node).
Proof. apply keeps_mutate. intros g g'. apply WF_dropNode. Qed.

#[local] Hint Resolve keeps_setNodeAttribute keeps_setEdgeAttribute keeps_addNode
  keeps_dropEdge keeps_dropNode : keeps.

Lemma keeps_getNodeAttribute {A : Type} (node : string) (name : NodeAttr.t -> A) :
  keeps_well_formed (G.getNodeAttribute node name).
Proof. unfold G.getNodeAttribute, G.getNodeAttributes. keeps. Qed.

Lemma keeps_getEdgeAttribute {A : Type} (edge : EdgeKey) (name : EdgeAttr.t -> A) :
  keeps_well_formed (G.getEdgeAttribute edge name).
Proof. unfold G.getEdgeAttribute. keeps. Qed.

#[local] Hint Resolve keeps_getNodeAttribute keeps_getEdgeAttribute : keeps.

Lemma keeps_revmovedEdges_push (x : ContextState.RemovedEdge) :
  keeps_well_formed (revmovedEdges_push x).
Proof.
  apply keeps_graph. intro w. unfold revmovedEdges_push, bind, get_contextState.
  simpl. now destruct (ContextState.revmovedEdges (w_contextState w)).
Qed.

Lemma keeps_newEdges_push (k : EdgeKey) : keeps_well_formed (newEdges_push k).
Proof.
  apply keeps_graph. intro w. unfold newEdges_push, bind, get_contextState.
  simpl. now destruct (ContextState.newEdges (w_contextState w)).
Qed.

Lemma keeps_array_of {A : Type} (v : option (list A)) : keeps_well_formed (array_of v).
Proof. destruct v; simpl; auto with keeps. Qed.

#[local] Hint Resolve keeps_revmovedEdges_push keeps_newEdges_push keeps_array_of : keeps.

(** Every handler of the example keeps the graph well formed, also when it
    throws half way. *)
Theorem handlers_keep_well_formed :
  keeps_well_formed display_values
  /\ (forall node, keeps_well_formed (setHoveredNode node))
  /\ (forall node, keeps_well_formed (rightClickNode node))
  /\ keeps_well_formed malopRemoveBtn_click
  /\ keeps_well_formed malopAddBtn_click
  /\ (forall machineData2 userData opt,
        keeps_well_formed (alignmentSelect_change machineData2 userData opt)).
Proof.
  split; [|split; [|split; [|split; [|split]]]].
  - unfold display_values. keeps.
    + unfold display_values_node. keeps.
      destruct (Qlt_bool a ratio_threshold);
        match goal with |- context [if ?b then _ else _] => destruct b end;
        auto with keeps.
    + unfold display_values_edge. keeps.
      destruct (Qlt_bool a ratio_threshold);
        match goal with |- context [if ?b then _ else _] => destruct b end;
        auto with keeps.
  - intro node. unfold setHoveredNode, modify_state.
    destruct (truthy_string node); keeps.
  - intro node. unfold rightClickNode, modify_contextState. keeps.
  - unfold malopRemoveBtn_click, modify_contextState. keeps.
    destruct (truthy_string (ContextState.selectedNode a)); keeps.
    + unfold findEdge_callback. keeps.
    + unfold add_bridge. keeps.
  - unfold malopAddBtn_click, modify_contextState. keeps.
    destruct (truthy_string (ContextState.removedNode a)); keeps.
    unfold readd_edge. keeps.
  - intros machineData2 userData opt. unfold alignmentSelect_change. keeps.
    destruct opt as [value|]; [|auto with keeps].
    destruct (value =? "machine"); [auto with keeps|].
    destruct (value =? "user"); [auto with keeps|].
    destruct (value =? "mitre"); auto with keeps.
Qed.

(** The graph the example starts from, and every graph a layout switch
    produces, is well formed, whatever the imported document holds. *)
Corollary imported_graph_well_formed (data : SerializedGraph) :
  well_formed (fst (Graphology.import data (mkGraph [] [] 0 []))) = true.
Proof. apply well_formed_WF, WF_import, WF_empty. Qed.

(** ** More on the reducers *)

(** X1. With no malop hovered, the selected node is highlighted, and the
    suggestion rule is not applied to it: it is drawn as if there were no
    suggestion set. *)
Theorem nodeReducer_highlights_selected (st : State.t) (node : string) (data : NodeAttr.t) :
  truthy_bool (State.hoveredNodeIsMalop st) = false ->
  State.selectedNode st = Some node ->
  NodeAttr.highlighted (nodeReducer st node data) = Some true
  /\ nodeReducer st node data = nodeReducer (without_suggestions st) node data.
Proof.
  intros Hm Hsel. unfold nodeReducer, without_suggestions. simpl.
  rewrite Hm, Hsel. simpl. rewrite String.eqb_refl. split; reflexivity.
Qed.

Lemma nodeReducer_highlights_selected_witness :
  NodeAttr.highlighted (nodeReducer searching "a" no_attributes) = Some true
  /\ nodeReducer searching "a" no_attributes
     = nodeReducer (without_suggestions searching) "a" no_attributes.
Proof.
  apply (nodeReducer_highlights_selected searching "a" no_attributes); reflexivity.
Defined.

(** X2. With no malop hovered, a node that is not the selected one and is
    absent from the suggestion set is drawn with a blank label and in
    grey, and it is not highlighted by the reducer. *)
Theorem nodeReducer_greys_outside_suggestions (st : State.t) (node : string)
    (data : NodeAttr.t) (suggestions : list string) :
  truthy_bool (State.hoveredNodeIsMalop st) = false ->
  strict_eq (State.selectedNode st) node = false ->
  State.suggestions st = Some suggestions ->
  has suggestions node = false ->
  NodeAttr.label (nodeReducer st node data) = Some ""
  /\ NodeAttr.color (nodeReducer st node data) = Some grey
  /\ NodeAttr.highlighted (nodeReducer st node data) = NodeAttr.highlighted data.
Proof.
  intros Hm Hsel Hsug Hhas. unfold nodeReducer.
  rewrite Hm, Hsel, Hsug, Hhas. simpl.
  destruct (State.hoveredNeighbors st) as [nb|]; [|auto].
  destruct (negb (has nb node) && negb (strict_eq (State.hoveredNode st) node)); auto.
Qed.

Lemma nodeReducer_greys_outside_suggestions_witness :
  NodeAttr.label (nodeReducer searching "z" no_attributes) = Some ""
  /\ NodeAttr.color (nodeReducer searching "z" no_attributes) = Some grey
  /\ NodeAttr.highlighted (nodeReducer searching "z" no_attributes)
     = NodeAttr.highlighted no_attributes.
Proof.
  apply (nodeReducer_greys_outside_suggestions searching "z" no_attributes ["b"]);
    reflexivity.
Defined.

(** X3. Whatever the state, the node reducer leaves [hidden],
    [isExtraData], [isMalop], [neighbors] and every other attribute as
    they are; it never lowers [highlighted]; and the label and the color
    go together: either both are the node's own, or the label is blank
    and the color grey. *)
Theorem nodeReducer_frame (st : State.t) (node : string) (data : NodeAttr.t) :
  same_but_display data (nodeReducer st node data)
  /\ own_or_greyed data (nodeReducer st node data)
  /\ (NodeAttr.highlighted (nodeReducer st node data) = NodeAttr.highlighted data
      \/ NodeAttr.highlighted (nodeReducer st node data) = Some true).
Proof.
  unfold nodeReducer, same_but_display, own_or_greyed.
  destruct (negb (truthy_bool (State.hoveredNodeIsMalop st))); [|tauto].
  destruct (State.hoveredNeighbors st) as [nb|];
    [destruct (negb (has nb node) && negb (strict_eq (State.hoveredNode st) node))|];
    (destruct (strict_eq (State.selectedNode st) node);
     [|destruct (State.suggestions st) as [sg|]; [destruct (negb (has sg node))|]]);
    simpl; tauto.
Qed.

(** X4. When the edge reducer returns, it has changed nothing but
    [hidden], and only to hide: an edge whose base data is hidden stays
    hidden, and the result is either the base data or the base data with
    [hidden] set. *)
Theorem edgeReducer_frame (st : State.t) (g : Graph) (edge : EdgeKey)
    (data res : EdgeAttr.t) :
  edgeReducer st g edge data = Normal res ->
  res = data \/ res = EdgeAttr.set_hidden true data.
Proof.
  unfold edgeReducer.
  destruct (negb (truthy_bool (State.hoveredNodeIsMalop st)));
    [|intro H; injection H as <-; now left].
  unfold source_of, target_of, hasExtremity.
  destruct (edgeData g edge) as [e|]; [|discriminate]. simpl.
  destruct (truthy_string (State.hoveredNode st)); simpl;
    [destruct (negb (hasExtremity_data e (to_string (State.hoveredNode st)))
               && negb match State.hoveredNeighbors st with
                       | Some nb => has nb (source e)
                       | None => false
                       end)|];
    (destruct (State.suggestions st) as [sg|]; simpl;
     [destruct (negb (has sg (source e))); simpl;
      [|destruct (negb (has sg (target e))); simpl]|]);
    intro H; injection H as <-; auto.
Qed.

Lemma edgeReducer_frame_witness :
  EdgeAttr.set_hidden true (attributes edge_a_b) = attributes edge_a_b
  \/ EdgeAttr.set_hidden true (attributes edge_a_b)
     = EdgeAttr.set_hidden true (attributes edge_a_b).
Proof.
  apply (edgeReducer_frame hovering_h graph_a_b (Given "e") (attributes edge_a_b)).
  reflexivity.
Defined.

(** X5. With no malop hovered, reducing an edge that is not in the graph
    throws [NotFoundGraphError]: the reducer asks the graph for the source
    of the edge before anything else. *)
Theorem edgeReducer_missing_edge (st : State.t) (g : Graph) (edge : EdgeKey)
    (data : EdgeAttr.t) :
  truthy_bool (State.hoveredNodeIsMalop st) = false ->
  hasEdge g edge = false ->
  edgeReducer st g edge data = Throw NotFoundGraphError.
Proof.
  intros Hm He. unfold edgeReducer, source_of. rewrite Hm. simpl.
  destruct (edgeData g edge) as [e|] eqn:E; [|reflexivity].
  unfold edgeData in E. apply find_some in E.
  unfold hasEdge in He.
  assert (existsb (fun e => key_eqb (key e) edge) (edges g) = true) as HT
    by (apply existsb_exists; exists e; exact E).
  congruence.
Qed.

Lemma edgeReducer_missing_edge_witness :
  edgeReducer state graph_a_b (Given "f") (attributes edge_a_b) = Throw NotFoundGraphError.
Proof.
  apply (edgeReducer_missing_edge state graph_a_b (Given "f") (attributes edge_a_b));
    reflexivity.
Defined.

(** ** Hovering, through the listeners *)

Lemma hasNode_nodeData (g : Graph) (k : string) :
  hasNode g k = false -> nodeData g k = None.
Proof.
  intro H. destruct (nodeData g k) as [p|] eqn:E; [|reflexivity].
  apply nodeData_hasNode in E. congruence.
Qed.

Lemma getNodeAttribute_throws {A : Type} (node : string) (name : NodeAttr.t -> A)
    (w : World) :
  nodeData (w_graph w) node = None ->
  G.getNodeAttribute node name w = (w, Throw NotFoundGraphError).
Proof.
  intro H.
  unfold G.getNodeAttribute, G.getNodeAttributes, G.read, bind, get_graph,
    of_completion, ret, Graphology.getNodeAttributes.
  now rewrite H.
Qed.

(** X6. Entering a node of the graph that is not flagged [isMalop], with
    no selection and no suggestion set, greys exactly the nodes that are
    neither the entered node nor listed in its [neighbors] attribute;
    when the entered node has no [neighbors] attribute, every other node
    is greyed. *)
Theorem hover_greys_exactly (w : World) (node : string) (p : string * NodeAttr.t)
    (n : string) (data : NodeAttr.t) :
  node <> "" ->
  nodeData (w_graph w) node = Some p ->
  truthy_bool (NodeAttr.isMalop (snd p)) = false ->
  State.selectedNode (w_state w) = None ->
  State.suggestions (w_state w) = None ->
  nodeReducer (w_state (fst (enterNode node w))) n data
  = if has (new_Set (NodeAttr.neighbors (snd p))) n || (node =? n)
    then data
    else NodeAttr.set_color grey (NodeAttr.set_label "" data).
Proof.
  intros Hnode Hp Hm Hsel Hsug. unfold enterNode.
  rewrite (setHoveredNode_enter w node p Hnode Hp). simpl.
  unfold nodeReducer. simpl. rewrite Hm, Hsel, Hsug. simpl.
  destruct (has (new_Set (NodeAttr.neighbors (snd p))) n); simpl; [reflexivity|].
  destruct (node =? n); reflexivity.
Qed.

Lemma hover_greys_exactly_witness :
  nodeReducer (w_state (fst (enterNode "h" hover_world))) "z" no_attributes
  = NodeAttr.set_color grey (NodeAttr.set_label "" no_attributes).
Proof.
  apply (hover_greys_exactly hover_world "h"
           ("h", NodeAttr.mk (Some "host") None None None None None (Some ["b"; "c"]) [])
           "z" no_attributes);
    [discriminate | reflexivity | reflexivity | reflexivity | reflexivity].
Defined.

Lemma hovering_a_malop_suppresses_witness :
  nodeReducer (w_state (fst (setHoveredNode (Some "m") hover_world))) "z" no_attributes
  = no_attributes
  /\ edgeReducer (w_state (fst (setHoveredNode (Some "m") hover_world)))
                 (w_graph hover_world) (Given "e1") (observed "uses")
     = Normal (observed "uses").
Proof.
  apply (hovering_a_malop_suppresses hover_world "m"
           ("m", NodeAttr.mk (Some "malop") None None None None (Some true) None [])
           "z" (Given "e1") no_attributes (observed "uses"));
    [discriminate | reflexivity | reflexivity].
Defined.

(** X8. Entering a node that is not in the graph throws
    [NotFoundGraphError] after the hovered node has been recorded: the
    label, the [isMalop] flag and the neighbor set of the state are left
    as the previous hover set them. *)
Theorem enterNode_missing_node (w : World) (node : string) :
  node <> "" ->
  hasNode (w_graph w) node = false ->
  enterNode node w
  = (mkWorld (w_graph w)
             (State.mk (Some node) (State.hoveredNodeLabel (w_state w))
                       (State.hoveredNodeIsMalop (w_state w))
                       (State.selectedNode (w_state w)) (State.suggestions (w_state w))
                       (State.hoveredNeighbors (w_state w)))
             (w_contextState w) (w_ratio w) (w_writes w),
     Throw NotFoundGraphError).
Proof.
  intros Hnode Hno. apply hasNode_nodeData in Hno.
  destruct w as [g st cs r ws]. simpl in *.
  unfold enterNode, setHoveredNode. rewrite (truthy_string_Some _ Hnode). cbv [to_string].
  erewrite bind_normal; [|reflexivity].
  erewrite bind_throw; [reflexivity|].
  apply getNodeAttribute_throws. exact Hno.
Qed.

Lemma enterNode_missing_node_witness :
  enterNode "q" (fst (enterNode "h" hover_world))
  = (mkWorld hover_graph
             (State.mk (Some "q") (Some "host") None None None (Some ["b"; "c"]))
             contextState 1 [],
     Throw NotFoundGraphError).
Proof.
  apply (enterNode_missing_node (fst (enterNode "h" hover_world)) "q");
    [discriminate | reflexivity].
Defined.

(** X9. Leaving a node ends every effect of the hover: with no selection
    and no suggestion set, the node reducer returns the base data of every
    node, and the edge reducer the base data of every edge of the graph,
    whatever was hovered before. *)
Theorem leaveNode_restores_display (w : World) (n : string) (ndata : NodeAttr.t)
    (e : EdgeKey) (edata : EdgeAttr.t) :
  State.selectedNode (w_state w) = None ->
  State.suggestions (w_state w) = None ->
  hasEdge (w_graph w) e = true ->
  let w' := fst (leaveNode w) in
  w_graph w' = w_graph w
  /\ nodeReducer (w_state w') n ndata = ndata
  /\ edgeReducer (w_state w') (w_graph w') e edata = Normal edata.
Proof.
  intros Hsel Hsug He w'. unfold w', leaveNode.
  rewrite setHoveredNode_leave. simpl.
  unfold nodeReducer, edgeReducer. simpl. rewrite Hsel, Hsug.
  split; [reflexivity | split; [reflexivity|]].
  unfold source_of. destruct (edgeData (w_graph w) e) as [d|] eqn:E; [reflexivity|].
  unfold hasEdge in He. apply existsb_exists in He. destruct He as [d [Hin Hk]].
  unfold edgeData in E. eapply find_none in E; [|exact Hin]. simpl in E. congruence.
Qed.

Lemma leaveNode_restores_display_witness :
  w_graph (fst (leaveNode (fst (enterNode "h" hover_world)))) = hover_graph
  /\ nodeReducer (w_state (fst (leaveNode (fst (enterNode "h" hover_world)))))
                 "z" no_attributes
     = no_attributes
  /\ edgeReducer (w_state (fst (leaveNode (fst (enterNode "h" hover_world)))))
                 (w_graph (fst (leaveNode (fst (enterNode "h" hover_world)))))
                 (Given "e2") (observed "uses")
     = Normal (observed "uses").
Proof.
  apply (leaveNode_restores_display (fst (enterNode "h" hover_world)) "z" no_attributes
           (Given "e2") (observed "uses"));
    reflexivity.
Defined.

(** ** More on the level-of-detail toggle *)

Lemma Forall2_along_map {A : Type} (R : A -> A -> Prop) (f : A -> A) (l : list A) :
  (forall a, R a (f a)) -> Forall2 R l (map f l).
Proof.
  intro H. induction l as [|a l IH]; simpl; constructor; auto.
Qed.

Lemma toggled_node_frame (r : Q) (p : string * NodeAttr.t) :
  node_toggle_frame p (toggled_node r p).
Proof.
  unfold node_toggle_frame, toggled_node, node_written, same_but_hidden.
  destruct p as [k a]. simpl.
  destruct (NodeAttr.isExtraData a) as [[|]|] eqn:E; simpl;
    [destruct (loose_eq_bool (NodeAttr.hidden a) (Qlt_bool r ratio_threshold)); simpl| |];
    repeat split; congruence.
Qed.

Lemma toggled_edge_frame (r : Q) (e : EdgeData) :
  edge_toggle_frame e (toggled_edge r e).
Proof.
  unfold edge_toggle_frame, toggled_edge, structural_edge, same_but_color.
  destruct (EdgeAttr.attr (attributes e)) as [[|]|] eqn:E; simpl;
    repeat split; congruence.
Qed.

(** X10. On a well-formed graph the toggle completes and changes nothing
    but the [hidden] attribute of nodes flagged [isExtraData] and the
    [color] attribute of edges with [attr] false: the nodes and the edges
    stay the same in number and order, with the same keys, extremities and
    other attributes; the key generator, the interaction state and the
    camera ratio are untouched.  Nothing is said of the edit buffer, whose
    records share their attribute bags with edges of the graph. *)
Theorem display_values_frame (w : World) :
  well_formed (w_graph w) = true ->
  snd (display_values w) = Normal tt
  /\ w_state (fst (display_values w)) = w_state w
  /\ w_ratio (fst (display_values w)) = w_ratio w
  /\ edgeKeyGenerator (w_graph (fst (display_values w))) = edgeKeyGenerator (w_graph w)
  /\ Forall2 node_toggle_frame (nodes (w_graph w)) (nodes (w_graph (fst (display_values w))))
  /\ Forall2 edge_toggle_frame (edges (w_graph w)) (edges (w_graph (fst (display_values w)))).
Proof.
  intro Hwf.
  rewrite (display_values_run w (well_formed_nodes _ Hwf) (well_formed_edges _ Hwf)).
  simpl. repeat split.
  - apply Forall2_along_map. apply toggled_node_frame.
  - apply Forall2_along_map. apply toggled_edge_frame.
Qed.

Lemma display_values_frame_witness :
  snd (display_values (lod_world 1)) = Normal tt
  /\ w_state (fst (display_values (lod_world 1))) = w_state (lod_world 1)
  /\ w_ratio (fst (display_values (lod_world 1))) = w_ratio (lod_world 1)
  /\ edgeKeyGenerator (w_graph (fst (display_values (lod_world 1))))
     = edgeKeyGenerator (w_graph (lod_world 1))
  /\ Forall2 node_toggle_frame (nodes (w_graph (lod_world 1)))
             (nodes (w_graph (fst (display_values (lod_world 1)))))
  /\ Forall2 edge_toggle_frame (edges (w_graph (lod_world 1)))
             (edges (w_graph (fst (display_values (lod_world 1))))).
Proof. apply (display_values_frame (lod_world 1)). reflexivity. Defined.

Lemma toggled_node_absorbs (r1 r2 : Q) (p : string * NodeAttr.t) :
  toggled_node r2 (toggled_node r1 p) = toggled_node r2 p.
Proof.
  unfold toggled_node, node_written. destruct p as [k [l c h hl x m nb rs]]. simpl.
  destruct x as [[|]|]; simpl; try reflexivity.
  destruct h as [[|]|]; simpl; try reflexivity;
    destruct (Qlt_bool r1 ratio_threshold), (Qlt_bool r2 ratio_threshold);
    reflexivity.
Qed.

Lemma toggled_edge_absorbs (r1 r2 : Q) (e : EdgeData) :
  toggled_edge r2 (toggled_edge r1 e) = toggled_edge r2 e.
Proof.
  unfold toggled_edge, structural_edge. destruct e as [k s t [l c h a rs] u]. simpl.
  destruct a as [[|]|]; reflexivity.
Qed.

(** X11. The toggle keeps no memory of earlier camera ratios: on a
    well-formed graph, running it at one ratio and then again at a second
    ratio leaves the same graph as running it at the second ratio alone. *)
Theorem display_values_last_ratio_wins (w : World) (ratio : Q) :
  well_formed (w_graph w) = true ->
  w_graph (fst (display_values (fst (camera_set ratio (fst (display_values w))))))
  = w_graph (fst (display_values (fst (camera_set ratio w)))).
Proof.
  intro Hwf.
  pose proof (well_formed_nodes _ Hwf) as Hn.
  pose proof (well_formed_edges _ Hwf) as He.
  rewrite (display_values_run w Hn He). unfold camera_set. simpl.
  rewrite !display_values_run; simpl;
    rewrite ?map_fst_toggled, ?map_key_toggled; auto.
  rewrite !map_map.
  f_equal; apply map_ext; intro a;
    [apply toggled_node_absorbs | apply toggled_edge_absorbs].
Qed.

Lemma display_values_last_ratio_wins_witness :
  w_graph (fst (display_values (fst (camera_set (1 # 10) (fst (display_values (lod_world 1)))))))
  = w_graph (fst (display_values (fst (camera_set (1 # 10) (lod_world 1))))).
Proof. apply (display_values_last_ratio_wins (lod_world 1) (1 # 10)). reflexivity. Defined.

(** ** More on the remove handler *)

Lemma malopRemoveBtn_click_start (g : Graph) (st : State.t) (sel : string)
    (rn : option string) (ra : option NodeAttr.t)
    (rl : option (list ContextState.RemovedEdge)) (ks : option (list EdgeKey))
    (r : Q) (ws : list AttributeWrite) :
  sel <> "" ->
  malopRemoveBtn_click (mkWorld g st (ContextState.mk (Some sel) rn ra rl ks) r ws)
  = match nodeData g sel with
    | Some p =>
        remove_edges_and_node sel
          (mkWorld g st (ContextState.mk (Some sel) (Some sel) (Some (snd p)) rl ks) r ws)
    | None =>
        (mkWorld g st (ContextState.mk (Some sel) (Some sel) ra rl ks) r ws,
         Throw NotFoundGraphError)
    end.
Proof.
  intro Hsel. unfold malopRemoveBtn_click.
  unfold bind at 1. unfold get_contextState at 1. cbv beta iota.
  cbv [w_contextState ContextState.selectedNode].
  rewrite (truthy_string_Some _ Hsel).
  unfold bind at 1.
  unfold modify_contextState at 1, bind at 1, get_contextState, put_contextState.
  cbv beta iota. cbv [w_contextState w_graph w_state w_ratio w_writes
    ContextState.selectedNode ContextState.removedNode
    ContextState.removedNodeAttributes ContextState.revmovedEdges
    ContextState.newEdges to_string].
  unfold bind at 1.
  unfold G.getNodeAttributes, G.read, bind at 1, get_graph, of_completion,
    Graphology.getNodeAttributes.
  cbv beta iota. cbv [w_graph].
  destruct (nodeData g sel) as [p|]; reflexivity.
Qed.

(** X12. Without a selected node the remove handler does nothing; nor
    does it when the selected node is the one whose key is the empty
    string, which can therefore not be removed. *)
Theorem malopRemoveBtn_click_without_selection (w : World) :
  truthy_string (ContextState.selectedNode (w_contextState w)) = false ->
  malopRemoveBtn_click w = (w, Normal tt).
Proof.
  intro H. unfold malopRemoveBtn_click, bind, get_contextState. now rewrite H.
Qed.

Lemma malopRemoveBtn_click_without_selection_witness :
  malopRemoveBtn_click (mkWorld blank_graph state (selecting "") 1 [])
  = (mkWorld blank_graph state (selecting "") 1 [], Normal tt).
Proof.
  apply (malopRemoveBtn_click_without_selection
           (mkWorld blank_graph state (selecting "") 1 [])).
  reflexivity.
Defined.

(** X13. Removing a selected node that is not in the graph throws
    [NotFoundGraphError] and leaves the graph as it is, but the node is
    already recorded as [removedNode], with whatever attributes and lists
    the buffer held. *)
Theorem remove_missing_node (w : World) (node : string) :
  node <> "" ->
  ContextState.selectedNode (w_contextState w) = Some node ->
  hasNode (w_graph w) node = false ->
  malopRemoveBtn_click w
  = (with_contextState (with_removedNode (Some node) (w_contextState w)) w,
     Throw NotFoundGraphError).
Proof.
  intros Hnode Hsel Hno. destruct w as [g st [sel rn ra rl ks] r ws].
  simpl in *. subst sel.
  rewrite (malopRemoveBtn_click_start g st node rn ra rl ks r ws Hnode).
  now rewrite (hasNode_nodeData g node Hno).
Qed.

Lemma remove_missing_node_witness :
  malopRemoveBtn_click (mkWorld lone_graph state (selecting "q") 1 [])
  = (with_contextState (with_removedNode (Some "q") (selecting "q"))
       (mkWorld lone_graph state (selecting "q") 1 []),
     Throw NotFoundGraphError).
Proof.
  apply (remove_missing_node (mkWorld lone_graph state (selecting "q") 1 []) "q");
    [discriminate | reflexivity | reflexivity].
Defined.

(** X14. Once [revmovedEdges] is undefined, removing a node that has an
    edge throws [TypeError] at the first edge visited: the graph is left
    as it is, no bridge is attempted, and the buffer holds the node and
    its attributes but no edge. *)
Theorem remove_with_undefined_list (g : Graph) (st : State.t) (node : string)
    (rn : option string) (ra : option NodeAttr.t) (ks : option (list EdgeKey))
    (r : Q) (ws : list AttributeWrite) (p : string * NodeAttr.t) :
  node <> "" ->
  nodeData g node = Some p ->
  edgesOf g node <> [] ->
  malopRemoveBtn_click (mkWorld g st (ContextState.mk (Some node) rn ra None ks) r ws)
  = (mkWorld g st (ContextState.mk (Some node) (Some node) (Some (snd p)) None ks) r ws,
     Throw TypeError).
Proof.
  intros Hnode Hp Hed.
  rewrite (malopRemoveBtn_click_start g st node rn ra None ks r ws Hnode), Hp.
  unfold remove_edges_and_node.
  unfold bind at 1. unfold G.read, bind at 1, get_graph, of_completion.
  cbv beta iota. cbv [w_graph]. unfold findEdge_visits.
  rewrite (nodeData_hasNode _ _ _ Hp).
  destruct (edgesOf g node) as [|e l]; [contradiction|].
  reflexivity.
Qed.

Lemma remove_with_undefined_list_witness :
  malopRemoveBtn_click (mkWorld chain_graph state (spent_buffer "n") 1 [])
  = (mkWorld chain_graph state
             (ContextState.mk (Some "n") (Some "n") (Some (extra_data (Some false)))
                              None None) 1 [],
     Throw TypeError).
Proof.
  apply (remove_with_undefined_list chain_graph state "n" None None None 1 []
           ("n", extra_data (Some false)));
    [discriminate | reflexivity | discriminate].
Defined.

Lemma scan_step_plain (sel : string) (tbl : NewEdges.t) (e : EdgeData) :
  structural_edge e = false -> scan_step sel tbl e = tbl.
Proof. intro H. unfold scan_step. now rewrite H. Qed.

Lemma scan_plain (sel : string) (l : list EdgeData) (tbl : NewEdges.t) :
  forallb (fun e => negb (structural_edge e)) l = true ->
  scan sel l tbl = tbl.
Proof.
  unfold scan. revert tbl. induction l as [|e l IH]; intros tbl H; simpl; [reflexivity|].
  simpl in H. apply andb_true_iff in H. destruct H as [He Hl].
  apply negb_true_iff in He. rewrite (scan_step_plain sel tbl e He). now apply IH.
Qed.

(** X15. Removing a node none of whose edges has [attr] false is a plain
    drop: the handler completes, the node and the edges attached to it
    leave the graph, every other node and edge stays, no bridge is added
    and the key generator does not move; [newEdges] is left as it was and
    the edges are recorded in the order the library visits them: the
    incoming ones, then the outgoing ones, then the undirected ones, each
    time neighbor by neighbor in the order of [for (... in ...)], the
    parallel edges of one neighbor together. *)
Theorem remove_plain_node (g : Graph) (st : State.t) (node : string)
    (rn : option string) (ra : option NodeAttr.t)
    (l0 : list ContextState.RemovedEdge) (k0 : list EdgeKey)
    (r : Q) (ws : list AttributeWrite) (p : string * NodeAttr.t) :
  node <> "" ->
  nodeData g node = Some p ->
  forallb (fun e => negb (structural_edge e)) (edgesOf g node) = true ->
  malopRemoveBtn_click
    (mkWorld g st (ContextState.mk (Some node) rn ra (Some l0) (Some k0)) r ws)
  = (mkWorld (mkGraph (filter (fun q => negb (fst q =? node)) (nodes g))
                      (filter (fun e => negb (hasExtremity_data e node)) (edges g))
                      (edgeKeyGenerator g)
                      (detach (filter (fun e => negb (hasExtremity_data e node)) (edges g))
                              (adjacency g)))
             st
             (ContextState.mk (Some node) (Some node) (Some (snd p))
                (Some (l0 ++ map to_removed (edgesOf g node))) (Some k0))
             r ws,
     Normal tt).
Proof.
  intros Hnode Hp Hplain.
  rewrite (malopRemoveBtn_click_run g st node rn ra l0 k0 r ws p Hnode Hp).
  unfold bridge_table. rewrite (scan_plain node _ [] Hplain).
  simpl. now rewrite !app_nil_r, N.add_0_r.
Qed.

(** The edge from ["2"] is recorded first, its key being an array index,
    and the two edges from [a] come before the one from [b]. *)
Lemma remove_plain_node_witness :
  malopRemoveBtn_click (mkWorld parallel_graph state (selecting "n") 1 [])
  = (mkWorld (mkGraph [("a", no_attributes); ("b", no_attributes); ("2", no_attributes)]
                      [] 0 [])
             state
             (ContextState.mk (Some "n") (Some "n") (Some no_attributes)
                (Some [ContextState.mkRemovedEdge "2" "n" (observed "calls");
                       ContextState.mkRemovedEdge "a" "n" (observed "reads");
                       ContextState.mkRemovedEdge "a" "n" (observed "sends");
                       ContextState.mkRemovedEdge "b" "n" (observed "writes")])
                (Some []))
             1 [],
     Normal tt).
Proof.
  apply (remove_plain_node parallel_graph state "n" None None [] [] 1 []
           ("n", no_attributes));
    [discriminate | reflexivity | reflexivity].
Defined.

(** X16. On a buffer whose lists are arrays, removing a node of the
    graph none of whose edges with [attr] false is labelled ["__proto__"]
    ends in one of two ways.  Either it completes: the node is gone, no
    edge of the graph is attached to it any more, and every former edge
    not attached to it is still there.  Or it throws [NotFoundGraphError]
    while inserting a bridge: the node and all former edges are still in
    the graph, followed by the bridges inserted before the throw, whose
    keys are recorded in [newEdges]. *)
Theorem remove_outcome (g : Graph) (st : State.t) (node : string)
    (rn : option string) (ra : option NodeAttr.t)
    (l0 : list ContextState.RemovedEdge) (k0 : list EdgeKey)
    (r : Q) (ws : list AttributeWrite) (p : string * NodeAttr.t) :
  node <> "" ->
  nodeData g node = Some p ->
  prototype_untouched g node = true ->
  let res := malopRemoveBtn_click
               (mkWorld g st (ContextState.mk (Some node) rn ra (Some l0) (Some k0)) r ws) in
  let g' := w_graph (fst res) in
  (snd res = Normal tt
   /\ hasNode g' node = false
   /\ (forall e, In e (edges g') -> hasExtremity_data e node = false)
   /\ (forall e, In e (edges g) -> hasExtremity_data e node = false -> In e (edges g')))
  \/ (snd res = Throw NotFoundGraphError
      /\ nodes g' = nodes g
      /\ exists bridges : list EdgeData,
           edges g' = edges g ++ bridges
           /\ ContextState.newEdges (w_contextState (fst res))
              = Some (k0 ++ map key bridges)).
Proof.
  intros Hnode Hp _ res g'. unfold g', res.
  rewrite (malopRemoveBtn_click_run g st node rn ra l0 k0 r ws p Hnode Hp).
  destruct (forallb (insertable g) (bridge_table g node)); simpl.
  - left. split; [reflexivity|]. split; [apply hasNode_filter_self|]. split.
    + intros e He. apply filter_In in He. destruct He as [_ He].
      now apply negb_true_iff in He.
    + intros e He Hext. apply filter_In. split.
      * apply in_or_app. now left.
      * now rewrite Hext.
  - right. split; [reflexivity|]. split; [reflexivity|].
    eexists. split; reflexivity.
Qed.

Lemma remove_outcome_witness :
  (snd (malopRemoveBtn_click chain_world) = Normal tt
   /\ hasNode (w_graph (fst (malopRemoveBtn_click chain_world))) "n" = false
   /\ (forall e, In e (edges (w_graph (fst (malopRemoveBtn_click chain_world)))) ->
                 hasExtremity_data e "n" = false)
   /\ (forall e, In e (edges chain_graph) -> hasExtremity_data e "n" = false ->
                 In e (edges (w_graph (fst (malopRemoveBtn_click chain_world))))))
  \/ (snd (malopRemoveBtn_click chain_world) = Throw NotFoundGraphError
      /\ nodes (w_graph (fst (malopRemoveBtn_click chain_world))) = nodes chain_graph
      /\ exists bridges : list EdgeData,
           edges (w_graph (fst (malopRemoveBtn_click chain_world)))
           = edges chain_graph ++ bridges
           /\ ContextState.newEdges (w_contextState (fst (malopRemoveBtn_click chain_world)))
              = Some ([] ++ map key bridges)).
Proof.
  apply (remove_outcome chain_graph state "n" None None [] [] 1 []
           ("n", extra_data (Some false)));
    [discriminate | reflexivity | reflexivity].
Defined.

(** ** More on the add-back handler *)

Lemma readd_edge_throws (ns : list (string * NodeAttr.t)) (es : list EdgeData) (c : N)
    (st : State.t) (cs : ContextState.t) (r : Q) (ws : list AttributeWrite)
    (x : ContextState.RemovedEdge) (adj : list Slot) :
  has_extremities ns x = false ->
  readd_edge x (mkWorld (mkGraph ns es c adj) st cs r ws)
  = (mkWorld (mkGraph ns es c adj) st cs r ws, Throw NotFoundGraphError).
Proof.
  unfold has_extremities. intro H.
  unfold readd_edge, G.addEdge, bind, get_graph, put_graph, of_completion, ret,
    Graphology.addEdge, addEdgeInternal, hasNode.
  simpl.
  destruct (existsb (fun p => fst p =? ContextState.source x) ns); simpl; [|reflexivity].
  simpl in H. now rewrite H.
Qed.

Lemma readd_edges_upto (l : list ContextState.RemovedEdge) :
  forall (ns : list (string * NodeAttr.t)) (es : list EdgeData) (c : N)
         (adj : list Slot)
         (st : State.t) (cs : ContextState.t) (r : Q) (ws : list AttributeWrite),
    forEach l readd_edge (mkWorld (mkGraph ns es c adj) st cs r ws)
    = (mkWorld (mkGraph ns (es ++ readded_edges c (replayed ns l))
                        (c + N.of_nat (List.length (replayed ns l)))
                        (attach_all adj (readded_edges c (replayed ns l))))
               st cs r ws,
       if forallb (has_extremities ns) l then Normal tt else Throw NotFoundGraphError).
Proof.
  induction l as [|x l IH]; intros ns es c adj st cs r ws; simpl.
  - unfold ret. now rewrite app_nil_r, N.add_0_r.
  - destruct (has_extremities ns x) eqn:Hx; simpl.
    + rewrite (bind_normal _ _ _ _ _ (readd_edge_run ns es c adj st cs r ws x Hx)).
      rewrite IH. simpl. rewrite <- app_assoc. simpl.
      replace (N.succ c + N.of_nat (List.length (replayed ns l)))%N
        with (c + N.pos (Pos.of_succ_nat (List.length (replayed ns l))))%N by lia.
      reflexivity.
    + rewrite (bind_throw _ _ _ _ _ (readd_edge_throws ns es c st cs r ws x adj Hx)).
      now rewrite app_nil_r, N.add_0_r.
Qed.

Lemma dropEdges_upto (ks : list EdgeKey) :
  forall (ns : list (string * NodeAttr.t)) (es : list EdgeData) (c : N)
         (adj : list Slot)
         (st : State.t) (cs : ContextState.t) (r : Q) (ws : list AttributeWrite),
    forEach ks G.dropEdge (mkWorld (mkGraph ns es c adj) st cs r ws)
    = (mkWorld (mkGraph ns (fst (dropped es ks)) c (dropped_slots es ks adj)) st cs r ws,
       if snd (dropped es ks) then Normal tt else Throw NotFoundGraphError).
Proof.
  induction ks as [|k ks IH]; intros ns es c adj st cs r ws; simpl; [reflexivity|].
  unfold bind, G.dropEdge at 1, G.mutate, bind, get_graph, of_completion, put_graph,
    Graphology.dropEdge, hasEdge.
  simpl.
  destruct (existsb (fun e => key_eqb (key e) k) es); simpl; [|reflexivity].
  now rewrite IH.
Qed.

(** The add-back handler, whatever the buffer holds. *)
Lemma malopAddBtn_click_any (g : Graph) (st : State.t) (sel : option string)
    (node : string) (ra : option NodeAttr.t)
    (rl : option (list ContextState.RemovedEdge)) (ks : option (list EdgeKey))
    (r : Q) (ws : list AttributeWrite) :
  node <> "" ->
  malopAddBtn_click (mkWorld g st (ContextState.mk sel (Some node) ra rl ks) r ws)
  = if hasNode g node
    then (mkWorld g st (ContextState.mk sel (Some node) ra rl ks) r ws,
          Throw UsageGraphError)
    else added_back g st sel node ra rl ks r ws.
Proof.
  intro Hnode. destruct g as [ns es c adj].
  unfold malopAddBtn_click.
  unfold bind at 1. unfold get_contextState at 1. cbv beta iota.
  cbv [w_contextState ContextState.removedNode ContextState.removedNodeAttributes
       ContextState.revmovedEdges ContextState.newEdges].
  rewrite (truthy_string_Some _ Hnode).
  unfold bind at 1.
  unfold G.addNode, G.mutate, bind at 1, get_graph. cbv beta iota. cbv [w_graph].
  unfold bind at 1, of_completion, Graphology.addNode. cbv [to_string].
  destruct (hasNode (mkGraph ns es c adj) node); [reflexivity|].
  cbv beta iota. unfold put_graph.
  cbv [w_state w_contextState w_ratio w_writes nodes edges edgeKeyGenerator adjacency].
  unfold added_back. cbv [nodes edges edgeKeyGenerator adjacency]. fold (snapshot ra).
  destruct rl as [rl|]; [|reflexivity].
  unfold bind at 1. unfold array_of at 1, ret at 1. cbv beta iota.
  unfold bind at 1. rewrite readd_edges_upto.
  destruct (forallb (has_extremities (ns ++ [(node, snapshot ra)])) rl); [|reflexivity].
  destruct ks as [ks|]; [|reflexivity].
  unfold bind at 1. unfold array_of at 1, ret at 1. cbv beta iota.
  unfold bind at 1. rewrite dropEdges_upto.
  destruct (snd (dropped _ ks)); reflexivity.
Qed.

(** X17. A remove that throws while the selected node is in the graph
    cannot be undone: the node is still in the graph and is recorded as
    removed, so the add-back handler throws [UsageGraphError] at once and
    changes nothing; the bridges inserted before the throw stay in the
    graph. *)
Theorem failed_remove_blocks_add_back (g : Graph) (st : State.t) (node : string)
    (rn : option string) (ra : option NodeAttr.t)
    (l0 : list ContextState.RemovedEdge) (k0 : list EdgeKey)
    (r : Q) (ws : list AttributeWrite) (p : string * NodeAttr.t) :
  node <> "" ->
  nodeData g node = Some p ->
  let res := malopRemoveBtn_click
               (mkWorld g st (ContextState.mk (Some node) rn ra (Some l0) (Some k0)) r ws) in
  snd res <> Normal tt ->
  malopAddBtn_click (fst res) = (fst res, Throw UsageGraphError).
Proof.
  intros Hnode Hp res. unfold res.
  rewrite (malopRemoveBtn_click_run g st node rn ra l0 k0 r ws p Hnode Hp).
  destruct (forallb (insertable g) (bridge_table g node)); simpl; [congruence|].
  intros _. rewrite (malopAddBtn_click_any _ _ _ _ _ _ _ _ _ Hnode).
  replace (hasNode _ node) with true; [reflexivity|].
  symmetry. apply (nodeData_hasNode (mkGraph (nodes g) _ _ _) node p). exact Hp.
Qed.

Lemma failed_remove_blocks_add_back_witness :
  malopAddBtn_click (fst (malopRemoveBtn_click fan_world))
  = (fst (malopRemoveBtn_click fan_world), Throw UsageGraphError).
Proof.
  apply (failed_remove_blocks_add_back fan_graph state "n" None None [] [] 1 []
           ("n", no_attributes));
    [discriminate | reflexivity | discriminate].
Defined.

(** X18. Adding back a node that is in the graph throws
    [UsageGraphError] before anything is done: the graph and the buffer
    are left as they are, so the recorded removal stays pending. *)
Theorem add_back_existing_node (w : World) (node : string) :
  node <> "" ->
  ContextState.removedNode (w_contextState w) = Some node ->
  hasNode (w_graph w) node = true ->
  malopAddBtn_click w = (w, Throw UsageGraphError).
Proof.
  intros Hnode Hrn Hhas. destruct w as [g st [sel rn ra rl ks] r ws].
  simpl in *. subst rn.
  rewrite (malopAddBtn_click_any g st sel node ra rl ks r ws Hnode).
  now rewrite Hhas.
Qed.

Lemma add_back_existing_node_witness :
  malopAddBtn_click (mkWorld chain_graph state twice_recorded 1 [])
  = (mkWorld chain_graph state twice_recorded 1 [], Throw UsageGraphError).
Proof.
  apply (add_back_existing_node (mkWorld chain_graph state twice_recorded 1 []) "n");
    [discriminate | reflexivity | reflexivity].
Defined.

(** X19. Adding back while [revmovedEdges] is undefined re-creates the
    node, with the recorded attributes or with none, and then throws
    [TypeError]: no edge is replayed, no bridge is dropped and the buffer
    is not cleared. *)
Theorem add_back_with_undefined_list (g : Graph) (st : State.t) (sel : option string)
    (node : string) (ra : option NodeAttr.t) (ks : option (list EdgeKey))
    (r : Q) (ws : list AttributeWrite) :
  node <> "" ->
  hasNode g node = false ->
  malopAddBtn_click (mkWorld g st (ContextState.mk sel (Some node) ra None ks) r ws)
  = (mkWorld (mkGraph (nodes g ++ [(node, snapshot ra)]) (edges g) (edgeKeyGenerator g)
                      (adjacency g))
             st (ContextState.mk sel (Some node) ra None ks) r ws,
     Throw TypeError).
Proof.
  intros Hnode Hno.
  rewrite (malopAddBtn_click_any g st sel node ra None ks r ws Hnode).
  now rewrite Hno.
Qed.

Lemma add_back_with_undefined_list_witness :
  malopAddBtn_click
    (mkWorld lone_graph state (ContextState.mk None (Some "q") None None None) 1 [])
  = (mkWorld (mkGraph (nodes lone_graph ++ [("q", snapshot None)]) (edges lone_graph)
                      (edgeKeyGenerator lone_graph) (adjacency lone_graph))
             state (ContextState.mk None (Some "q") None None None) 1 [],
     Throw TypeError).
Proof.
  apply (add_back_with_undefined_list lone_graph state None "q" None None 1 []);
    [discriminate | reflexivity].
Defined.

Lemma added_back_has_node (g : Graph) (st : State.t) (sel : option string) (node : string)
    (ra : option NodeAttr.t) (rl : option (list ContextState.RemovedEdge))
    (ks : option (list EdgeKey)) (r : Q) (ws : list AttributeWrite) :
  hasNode (w_graph (fst (added_back g st sel node ra rl ks r ws))) node = true.
Proof.
  assert (H : forall es c adj,
             hasNode (mkGraph (nodes g ++ [(node, snapshot ra)]) es c adj) node = true).
  { intros es c adj. unfold hasNode. simpl. rewrite existsb_app. simpl.
    now rewrite String.eqb_refl, orb_true_r. }
  unfold added_back.
  destruct rl as [rl|]; [|apply H].
  destruct (forallb _ rl); [|apply H].
  destruct ks as [ks|]; [|apply H].
  destruct (snd (dropped _ ks)); apply H.
Qed.

Lemma added_back_buffer (g : Graph) (st : State.t) (sel : option string) (node : string)
    (ra : option NodeAttr.t) (rl : option (list ContextState.RemovedEdge))
    (ks : option (list EdgeKey)) (r : Q) (ws : list AttributeWrite) :
  snd (added_back g st sel node ra rl ks r ws) <> Normal tt ->
  w_contextState (fst (added_back g st sel node ra rl ks r ws))
  = ContextState.mk sel (Some node) ra rl ks.
Proof.
  unfold added_back.
  destruct rl as [rl|]; [|reflexivity].
  destruct (forallb _ rl); [|reflexivity].
  destruct ks as [ks|]; [|reflexivity].
  destruct (snd (dropped _ ks)); simpl; [congruence | reflexivity].
Qed.

(** X20. An add-back that throws cannot be retried: whatever it threw
    and however far it got, the removed node is then in the graph and the
    buffer still names it, so every further add-back throws
    [UsageGraphError] and changes nothing. *)
Theorem failed_add_back_cannot_be_retried (w : World) (e : Error) :
  snd (malopAddBtn_click w) = Throw e ->
  malopAddBtn_click (fst (malopAddBtn_click w))
  = (fst (malopAddBtn_click w), Throw UsageGraphError).
Proof.
  destruct w as [g st [sel rn ra rl ks] r ws].
  destruct (truthy_string rn) eqn:Ht.
  - destruct rn as [node|]; [|discriminate].
    assert (Hnode : node <> "").
    { simpl in Ht. apply negb_true_iff in Ht. now apply String.eqb_neq. }
    rewrite (malopAddBtn_click_any g st sel node ra rl ks r ws Hnode).
    destruct (hasNode g node) eqn:Hhas; simpl.
    + intros _. rewrite (malopAddBtn_click_any g st sel node ra rl ks r ws Hnode).
      now rewrite Hhas.
    + intro Hthrow.
      assert (Hne : snd (added_back g st sel node ra rl ks r ws) <> Normal tt)
        by (rewrite Hthrow; discriminate).
      pose proof (added_back_buffer g st sel node ra rl ks r ws Hne) as Hcs.
      pose proof (added_back_has_node g st sel node ra rl ks r ws) as Hin.
      destruct (fst (added_back g st sel node ra rl ks r ws)) as [g' st' cs' r' ws'].
      simpl in Hcs, Hin. subst cs'.
      rewrite (malopAddBtn_click_any g' st' sel node ra rl ks r' ws' Hnode).
      now rewrite Hin.
  - unfold malopAddBtn_click at 1, bind, get_contextState. simpl. rewrite Ht.
    discriminate.
Qed.

Lemma failed_add_back_cannot_be_retried_witness :
  malopAddBtn_click
    (fst (malopAddBtn_click (mkWorld bare_graph state twice_recorded 1 [])))
  = (fst (malopAddBtn_click (mkWorld bare_graph state twice_recorded 1 [])),
     Throw UsageGraphError).
Proof.
  apply (failed_add_back_cannot_be_retried
           (mkWorld bare_graph state twice_recorded 1 []) NotFoundGraphError).
  reflexivity.
Defined.

(** X21. Removing a selected node that is not in the graph and then
    adding back creates it: starting from the buffer as declared, the
    failed remove records the node, and the add-back completes with a new
    node of that key, without attributes and without edges, appended to
    the graph. *)
Theorem add_back_after_failed_remove (g : Graph) (st : State.t) (node : string)
    (r : Q) (ws : list AttributeWrite) :
  node <> "" ->
  hasNode g node = false ->
  snd (malopRemoveBtn_click (mkWorld g st (selecting node) r ws))
  = Throw NotFoundGraphError
  /\ malopAddBtn_click (fst (malopRemoveBtn_click (mkWorld g st (selecting node) r ws)))
     = (mkWorld (mkGraph (nodes g ++ [(node, no_attributes)]) (edges g)
                         (edgeKeyGenerator g) (adjacency g))
                st (spent_buffer node) r ws,
        Normal tt).
Proof.
  intros Hnode Hno. unfold selecting.
  rewrite (malopRemoveBtn_click_start g st node None None (Some []) (Some []) r ws Hnode).
  rewrite (hasNode_nodeData g node Hno). split; [reflexivity|]. simpl.
  rewrite (malopAddBtn_click_any g st (Some node) node None (Some []) (Some []) r ws Hnode).
  rewrite Hno. unfold added_back. simpl. now rewrite app_nil_r, N.add_0_r.
Qed.

Lemma add_back_after_failed_remove_witness :
  snd (malopRemoveBtn_click (mkWorld lone_graph state (selecting "q") 1 []))
  = Throw NotFoundGraphError
  /\ malopAddBtn_click
       (fst (malopRemoveBtn_click (mkWorld lone_graph state (selecting "q") 1 [])))
     = (mkWorld (mkGraph (nodes lone_graph ++ [("q", no_attributes)]) (edges lone_graph)
                         (edgeKeyGenerator lone_graph) (adjacency lone_graph))
                state (spent_buffer "q") 1 [],
        Normal tt).
Proof.
  apply (add_back_after_failed_remove lone_graph state "q" 1 []);
    [discriminate | reflexivity].
Defined.

(** ** Which edges a bridge is made of *)

Lemma fold_entry_last (sel k : string) (l : list EdgeData) :
  forall y : NewEdges.Entry,
    fold_left (entry_step sel k) l (Some y)
    = Some (NewEdges.mkEntry
              (match last_where (fun e => Graphology.source e =? sel) l with
               | Some e => Some (Graphology.target e)
               | None => NewEdges.source y
               end)
              (match last_where (fun e => Graphology.target e =? sel) l with
               | Some e => Some (Graphology.source e)
               | None => NewEdges.target y
               end)
              (NewEdges.attributes y)).
Proof.
  induction l as [|e l IH]; intro y; simpl.
  - now destruct y.
  - unfold entry_step at 2.
    rewrite (String.eqb_sym sel (Graphology.source e)).
    rewrite (String.eqb_sym sel (Graphology.target e)).
    destruct (Graphology.source e =? sel), (Graphology.target e =? sel); simpl;
      rewrite IH; simpl;
      destruct (last_where (fun e => Graphology.source e =? sel) l),
               (last_where (fun e => Graphology.target e =? sel) l);
      reflexivity.
Qed.

(** X22. When several edges of the removed node with [attr] false share
    a label that names no inherited property, and none is labelled
    ["__proto__"], one bridge is filed under that label and the last
    writer wins: it carries the attributes of the first such edge
    visited, its source is the target of the last outgoing one visited
    and its target the source of the last incoming one visited; an
    extremity for which there is no such edge stays undefined.  The other
    edges under the label contribute nothing.  Visited means in the order
    of the library: incoming, outgoing, then undirected edges, neighbor
    by neighbor in the order of [for (... in ...)], so that the last
    outgoing edge is the last edge to the last neighbor and not the edge
    added last. *)
Theorem bridge_last_writer_wins (g : Graph) (node k : string) (x : NewEdges.Entry) :
  NewEdges.inherited k = false ->
  prototype_untouched g node = true ->
  In (k, x) (bridge_table g node)
  <-> bridge_of node (filter (filed_under k) (edgesOf g node)) = Some x.
Proof.
  intros Hk _. rewrite bridge_table_In.
  destruct (filter (filed_under k) (edgesOf g node)) as [|e0 l]; [reflexivity|].
  unfold bridge_of.
  change (fold_left (entry_step node k) (e0 :: l) None)
    with (fold_left (entry_step node k) l (entry_step node k None e0)).
  rewrite entry_step_None, Hk.
  change (fold_left (entry_step node k) l
            (entry_step node k
               (Some (NewEdges.mkEntry None None (Graphology.attributes e0))) e0))
    with (fold_left (entry_step node k) (e0 :: l)
            (Some (NewEdges.mkEntry None None (Graphology.attributes e0)))).
  rewrite fold_entry_last. cbv [NewEdges.source NewEdges.target NewEdges.attributes].
  destruct (last_where (fun e => Graphology.source e =? node) (e0 :: l)),
           (last_where (fun e => Graphology.target e =? node) (e0 :: l));
    reflexivity.
Qed.

(** In the fork the edge to [c] is visited after both edges to [b],
    the second of which was added last: the bridge goes from [c] to [a]. *)
Lemma bridge_last_writer_wins_witness :
  map key (filter (filed_under "runs") (edgesOf fork_graph "n"))
  = [Given "e1"; Given "e2"; Given "e4"; Given "e3"]
  /\ bridge_table fork_graph "n"
     = [("runs", NewEdges.mkEntry (Some "c") (Some "a") (structural "runs"))]
  /\ (In ("runs", NewEdges.mkEntry (Some "c") (Some "a") (structural "runs"))
         (bridge_table fork_graph "n")
      <-> bridge_of "n" (filter (filed_under "runs") (edgesOf fork_graph "n"))
          = Some (NewEdges.mkEntry (Some "c") (Some "a") (structural "runs"))).
Proof.
  split; [reflexivity|]. split; [reflexivity|].
  apply (bridge_last_writer_wins fork_graph "n" "runs"
           (NewEdges.mkEntry (Some "c") (Some "a") (structural "runs")));
    reflexivity.
Defined.

(** ** More on the layout selector *)

Lemma alignmentSelect_change_world (machineData2 userData : SerializedGraph)
    (opt : option string) (w : World) :
  alignmentSelect_change machineData2 userData opt w
  = (mkWorld (fst (switched machineData2 userData opt (edgeKeyGenerator (w_graph w))))
             (w_state w) (w_contextState w) (w_ratio w) (w_writes w),
     snd (switched machineData2 userData opt (edgeKeyGenerator (w_graph w)))).
Proof.
  unfold alignmentSelect_change, switched, selected_document, G.clear, G.import, bind,
    get_graph, put_graph, ret, throw, Graphology.clear. simpl.
  destruct opt as [value|]; [|reflexivity].
  destruct (value =? "machine") eqn:E1.
  - apply String.eqb_eq in E1. subst value. reflexivity.
  - destruct (value =? "user") eqn:E2; [reflexivity|].
    destruct (value =? "mitre"); reflexivity.
Qed.

(** X23. A change of the layout selector replaces the graph and touches
    nothing else: whatever the graph was, well formed or not, and whether
    the import completes, throws half way or no option is selected, the
    graph left is well formed, and the interaction state, the edit buffer
    with its pending removal and selected node, and the camera ratio are
    as before. *)
Theorem layout_switch_replaces_graph_only (machineData2 userData : SerializedGraph)
    (opt : option string) (w : World) :
  let w' := fst (alignmentSelect_change machineData2 userData opt w) in
  well_formed (w_graph w') = true
  /\ w_state w' = w_state w
  /\ w_contextState w' = w_contextState w
  /\ w_ratio w' = w_ratio w
  /\ w_writes w' = w_writes w.
Proof.
  intro w'. unfold w'. rewrite alignmentSelect_change_world. simpl.
  split; [|repeat split].
  destruct opt as [value|]; simpl; [|reflexivity].
  apply well_formed_WF, WF_import, WF_empty.
Qed.

(** X24. Every value of the selector other than ["user"] stands for the
    machine layout: the options ["mitre"] and ["default"], and any other
    value, give the same world and the same completion as ["machine"]. *)
Theorem layout_other_than_user_is_machine (machineData2 userData : SerializedGraph)
    (value : string) (w : World) :
  value <> "user" ->
  alignmentSelect_change machineData2 userData (Some value) w
  = alignmentSelect_change machineData2 userData (Some "machine") w.
Proof.
  intro H. rewrite !alignmentSelect_change_world. unfold switched, selected_document.
  apply String.eqb_neq in H. now rewrite H.
Qed.

(** The generator outlives the switch: the edge to which the machine
    document gives no key gets the key [0] at the first switch and the
    key [1] at the second. *)
Lemma second_switch_generates_next_key :
  map key
      (edges (w_graph (fst (alignmentSelect_change machine_document user_document
                              (Some "machine") lone_world))))
  = [Generated 0]
  /\ map key
         (edges (w_graph
                   (fst (alignmentSelect_change machine_document user_document
                           (Some "machine")
                           (fst (alignmentSelect_change machine_document user_document
                                   (Some "machine") lone_world))))))
     = [Generated 1].
Proof. split; reflexivity. Qed.

Lemma layout_other_than_user_is_machine_witness :
  alignmentSelect_change machine_document user_document (Some "mitre") chain_world
  = alignmentSelect_change machine_document user_document (Some "machine") chain_world.
Proof.
  apply (layout_other_than_user_is_machine machine_document user_document "mitre"
           chain_world).
  discriminate.
Defined.

(** ** The application as a whole *)

Lemma preserves_bind (P : World -> Prop) {A B : Type} (m : M A) (k : A -> M B) :
  preserves P m -> (forall a, preserves P (k a)) -> preserves P (bind m k).
Proof.
  intros Hm Hk w H. unfold bind. specialize (Hm w H).
  destruct (m w) as [w' [a|e]]; simpl in *; [now apply Hk | exact Hm].
Qed.

Lemma preserves_forEach (P : World -> Prop) {A : Type} (l : list A) (body : A -> M unit) :
  (forall x, preserves P (body x)) -> preserves P (forEach l body).
Proof.
  intro Hb. induction l as [|x l IH]; simpl.
  - intros w H. exact H.
  - apply preserves_bind; [apply Hb | intros _; exact IH].
Qed.

Lemma preserves_foldM (P : World -> Prop) {A S : Type} (l : list A)
    (body : S -> A -> M S) (s : S) :
  (forall s x, preserves P (body s x)) -> preserves P (foldM l body s).
Proof.
  intro Hb. revert s. induction l as [|x l IH]; intro s; simpl.
  - intros w H. exact H.
  - apply preserves_bind; [apply Hb | intro s'; apply IH].
Qed.

Lemma preserves_run (P : World -> Prop)
    (machineData2 userData : SerializedGraph)
    (animatedZoom animatedUnzoom animatedReset : Q -> Q) (allowed : Event -> bool) :
  (forall e, allowed e = true ->
     preserves P (listener machineData2 userData animatedZoom animatedUnzoom
                           animatedReset e)) ->
  forall (events : list Event) (w : World),
    forallb allowed events = true ->
    P w ->
    P (run machineData2 userData animatedZoom animatedUnzoom animatedReset events w).
Proof.
  intros Hl events. unfold run.
  induction events as [|e events IH]; intros w Hall H; simpl; [exact H|].
  simpl in Hall. apply andb_true_iff in Hall. destruct Hall as [He Hall].
  apply IH; [exact Hall|]. unfold dispatch. now apply Hl.
Qed.

Create HintDb preserves.

(** One step of a proof that a handler keeps a property: a step that
    leaves the property as it is up to computation, a known step, or a
    look inside the handler. *)
Ltac preserves_step :=
  match goal with
  | |- preserves _ _ => solve [intros ? H; first [exact H | reflexivity]]
  | |- preserves _ _ => solve [auto with preserves]
  | |- preserves _ (bind _ _) => apply preserves_bind; [|intro]
  | |- preserves _ (forEach _ _) => apply preserves_forEach; intro
  | |- preserves _ (foldM _ _ _) => apply preserves_foldM; intros
  | |- preserves _ (if ?b then _ else _) => destruct b
  | |- preserves _ (match ?o with _ => _ end) => destruct o
  | |- preserves _ (?f _ _ _ _) => unfold f
  | |- preserves _ (?f _ _ _) => unfold f
  | |- preserves _ (?f _ _) => unfold f
  | |- preserves _ (?f _) => unfold f
  | |- preserves _ ?f => unfold f
  end.

Ltac preserves := repeat preserves_step.

Lemma listener_keeps_search (v : option string * option (list string))
    (machineData2 userData : SerializedGraph)
    (animatedZoom animatedUnzoom animatedReset : Q -> Q) (e : Event) :
  preserves (fun w => search_of w = v)
            (listener machineData2 userData animatedZoom animatedUnzoom animatedReset e).
Proof. destruct e; simpl; preserves. Qed.

Lemma forallb_always {A : Type} (l : list A) : forallb (fun _ => true) l = true.
Proof. induction l; simpl; auto. Qed.

(** X25. No listener ever assigns [state.selectedNode] or
    [state.suggestions] (the context menu assigns
    [contextState.selectedNode]): whatever events occur, both stay as
    they were.  Starting, as the script does, with both undefined, the
    node reducer therefore never highlights a node, and the only greying
    is the one of the hover. *)
Theorem app_never_highlights (machineData2 userData : SerializedGraph)
    (animatedZoom animatedUnzoom animatedReset : Q -> Q)
    (events : list Event) (w : World) :
  search_of w = (None, None) ->
  let st := w_state (run machineData2 userData animatedZoom animatedUnzoom
                         animatedReset events w) in
  State.selectedNode st = None
  /\ State.suggestions st = None
  /\ forall (node : string) (data : NodeAttr.t),
       NodeAttr.highlighted (nodeReducer st node data) = NodeAttr.highlighted data.
Proof.
  intros Hw st.
  assert (Hst : (State.selectedNode st, State.suggestions st) = (None, None)).
  { apply (preserves_run (fun w => search_of w = (None, None))
             machineData2 userData animatedZoom animatedUnzoom animatedReset
             (fun _ => true)); [| apply forallb_always | exact Hw].
    intros e _. apply listener_keeps_search. }
  injection Hst as Hsel Hsug. split; [exact Hsel|]. split; [exact Hsug|].
  intros node data. unfold nodeReducer. rewrite Hsel, Hsug. simpl.
  destruct (negb (truthy_bool (State.hoveredNodeIsMalop st))); [|reflexivity].
  destruct (State.hoveredNeighbors st) as [nb|]; [|reflexivity].
  destruct (negb (has nb node) && negb (strict_eq (State.hoveredNode st) node));
    reflexivity.
Qed.

Lemma app_never_highlights_witness :
  State.selectedNode
    (w_state (run machine_document user_document halve double reset session hover_world))
  = None
  /\ State.suggestions
       (w_state (run machine_document user_document halve double reset session hover_world))
     = None
  /\ forall (node : string) (data : NodeAttr.t),
       NodeAttr.highlighted
         (nodeReducer
            (w_state (run machine_document user_document halve double reset session
                          hover_world))
            node data)
       = NodeAttr.highlighted data.
Proof.
  apply (app_never_highlights machine_document user_document halve double reset session
           hover_world).
  reflexivity.
Defined.

Lemma revmovedEdges_push_keeps_undefined (x : ContextState.RemovedEdge) :
  preserves (fun w => ContextState.revmovedEdges (w_contextState w) = None)
            (revmovedEdges_push x).
Proof.
  intros w H. unfold revmovedEdges_push, bind, get_contextState. simpl. now rewrite H.
Qed.

Lemma newEdges_push_keeps_undefined (k : EdgeKey) :
  preserves (fun w => ContextState.newEdges (w_contextState w) = None) (newEdges_push k).
Proof.
  intros w H. unfold newEdges_push, bind, get_contextState. simpl. now rewrite H.
Qed.

Lemma revmovedEdges_push_keeps_newEdges (x : ContextState.RemovedEdge) :
  preserves (fun w => ContextState.newEdges (w_contextState w) = None)
            (revmovedEdges_push x).
Proof.
  intros w H. unfold revmovedEdges_push, bind, get_contextState. simpl.
  now destruct (ContextState.revmovedEdges (w_contextState w)).
Qed.

Lemma newEdges_push_keeps_revmovedEdges (k : EdgeKey) :
  preserves (fun w => ContextState.revmovedEdges (w_contextState w) = None)
            (newEdges_push k).
Proof.
  intros w H. unfold newEdges_push, bind, get_contextState. simpl.
  now destruct (ContextState.newEdges (w_contextState w)).
Qed.

#[local] Hint Resolve revmovedEdges_push_keeps_undefined newEdges_push_keeps_undefined
  revmovedEdges_push_keeps_newEdges newEdges_push_keeps_revmovedEdges : preserves.

Lemma listener_keeps_revmovedEdges_undefined
    (machineData2 userData : SerializedGraph)
    (animatedZoom animatedUnzoom animatedReset : Q -> Q) (e : Event) :
  preserves (fun w => ContextState.revmovedEdges (w_contextState w) = None)
            (listener machineData2 userData animatedZoom animatedUnzoom animatedReset e).
Proof. destruct e; simpl; preserves. Qed.

Lemma listener_keeps_newEdges_undefined
    (machineData2 userData : SerializedGraph)
    (animatedZoom animatedUnzoom animatedReset : Q -> Q) (e : Event) :
  preserves (fun w => ContextState.newEdges (w_contextState w) = None)
            (listener machineData2 userData animatedZoom animatedUnzoom animatedReset e).
Proof. destruct e; simpl; preserves. Qed.

(** X26. The two lists of the edit buffer are never created again: once
    [revmovedEdges] is undefined, as a completed add-back leaves it, it
    stays undefined whatever events follow, and so does [newEdges]. *)
Theorem buffer_lists_never_recreated (machineData2 userData : SerializedGraph)
    (animatedZoom animatedUnzoom animatedReset : Q -> Q)
    (events : list Event) (w : World) :
  let w' := run machineData2 userData animatedZoom animatedUnzoom animatedReset events w in
  (ContextState.revmovedEdges (w_contextState w) = None ->
   ContextState.revmovedEdges (w_contextState w') = None)
  /\ (ContextState.newEdges (w_contextState w) = None ->
      ContextState.newEdges (w_contextState w') = None).
Proof.
  intro w'. unfold w'. split; intro H.
  - apply (preserves_run (fun w => ContextState.revmovedEdges (w_contextState w) = None)
             machineData2 userData animatedZoom animatedUnzoom animatedReset
             (fun _ => true)); [| apply forallb_always | exact H].
    intros e _. apply listener_keeps_revmovedEdges_undefined.
  - apply (preserves_run (fun w => ContextState.newEdges (w_contextState w) = None)
             machineData2 userData animatedZoom animatedUnzoom animatedReset
             (fun _ => true)); [| apply forallb_always | exact H].
    intros e _. apply listener_keeps_newEdges_undefined.
Qed.

Lemma buffer_lists_never_recreated_witness :
  ContextState.revmovedEdges
    (w_contextState
       (run machine_document user_document halve double reset session
            (mkWorld chain_graph state (spent_buffer "n") 1 [])))
  = None.
Proof.
  apply (buffer_lists_never_recreated machine_document user_document halve double reset
           session (mkWorld chain_graph state (spent_buffer "n") 1 [])).
  reflexivity.
Defined.

Lemma listener_keeps_well_formed (machineData2 userData : SerializedGraph)
    (animatedZoom animatedUnzoom animatedReset : Q -> Q) (e : Event) :
  keeps_well_formed
    (listener machineData2 userData animatedZoom animatedUnzoom animatedReset e).
Proof.
  destruct handlers_keep_well_formed as [Hd [Hh [Hr [Hrm [Hadd Hal]]]]].
  assert (Hzoom : forall f, keeps_well_formed (camera_animate f ;; display_values)%handler).
  { intro f. apply keeps_bind; [|intros _; exact Hd].
    apply keeps_graph. intro w. reflexivity. }
  destruct e; cbv [listener].
  - apply Hh.
  - apply Hh.
  - apply Hzoom.
  - apply Hzoom.
  - apply Hzoom.
  - apply keeps_ret.
  - exact Hadd.
  - exact Hrm.
  - apply Hal.
  - apply Hr.
  - apply Hzoom.
  - exact Hd.
  - apply keeps_graph. intro w. reflexivity.
Qed.

(** X27. Every listener keeps the graph well formed, also when it throws
    half way: whatever events occur from a well-formed graph, node keys and
    edge keys stay distinct, every edge keeps both its extremities in the
    graph, and generated keys stay below the generator. *)
Theorem app_keeps_well_formed (machineData2 userData : SerializedGraph)
    (animatedZoom animatedUnzoom animatedReset : Q -> Q)
    (events : list Event) (w : World) :
  well_formed (w_graph w) = true ->
  well_formed
    (w_graph (run machineData2 userData animatedZoom animatedUnzoom animatedReset events w))
  = true.
Proof.
  intro H.
  apply (preserves_run (fun w => well_formed (w_graph w) = true)
           machineData2 userData animatedZoom animatedUnzoom animatedReset
           (fun _ => true)); [| apply forallb_always | exact H].
  intros e _ w0 H0. now apply listener_keeps_well_formed.
Qed.

Lemma app_keeps_well_formed_witness :
  well_formed
    (w_graph (run machine_document user_document halve double reset session hover_world))
  = true.
Proof.
  apply (app_keeps_well_formed machine_document user_document halve double reset session
           hover_world).
  reflexivity.
Defined.

Lemma mutate_keeps_skeleton (v : list string * list (EdgeKey * string * string * bool) * N)
    (f : Graph -> Completion Graph) :
  (forall g g', f g = Normal g' -> skeleton g' = skeleton g) ->
  preserves (fun w => skeleton (w_graph w) = v) (G.mutate f).
Proof.
  intros Hf w H. unfold G.mutate, bind, get_graph, of_completion, put_graph. simpl.
  destruct (f (w_graph w)) as [g'|e] eqn:E; simpl; [|exact H].
  now rewrite (Hf _ _ E).
Qed.

Lemma setNodeAttribute_skeleton (g g' : Graph) (node : string)
    (f : NodeAttr.t -> NodeAttr.t) :
  Graphology.setNodeAttribute g node f = Normal g' -> skeleton g' = skeleton g.
Proof.
  unfold Graphology.setNodeAttribute.
  destruct (hasNode g node); [|discriminate].
  intro H. injection H as <-. unfold skeleton. simpl.
  rewrite map_map. f_equal. f_equal. apply map_ext. intro p.
  unfold update_node. now destruct (fst p =? node).
Qed.

Lemma setEdgeAttribute_skeleton (g g' : Graph) (edge : EdgeKey)
    (f : EdgeAttr.t -> EdgeAttr.t) :
  Graphology.setEdgeAttribute g edge f = Normal g' -> skeleton g' = skeleton g.
Proof.
  unfold Graphology.setEdgeAttribute.
  destruct (hasEdge g edge); [|discriminate].
  intro H. injection H as <-. unfold skeleton. simpl.
  rewrite map_map. f_equal. f_equal. apply map_ext. intro e.
  unfold update_edge. now destruct (key_eqb (key e) edge).
Qed.

Lemma setNodeAttribute_keeps_skeleton
    (v : list string * list (EdgeKey * string * string * bool) * N)
    (node name : string) (f : NodeAttr.t -> NodeAttr.t) :
  preserves (fun w => skeleton (w_graph w) = v) (G.setNodeAttribute node name f).
Proof.
  unfold G.setNodeAttribute. apply preserves_bind.
  - apply mutate_keeps_skeleton. intros g g'. apply setNodeAttribute_skeleton.
  - intros _ w H. exact H.
Qed.

Lemma setEdgeAttribute_keeps_skeleton
    (v : list string * list (EdgeKey * string * string * bool) * N)
    (edge : EdgeKey) (name : string) (f : EdgeAttr.t -> EdgeAttr.t) :
  preserves (fun w => skeleton (w_graph w) = v) (G.setEdgeAttribute edge name f).
Proof.
  unfold G.setEdgeAttribute. apply preserves_bind.
  - apply mutate_keeps_skeleton. intros g g'. apply setEdgeAttribute_skeleton.
  - intros _ w H. exact H.
Qed.

#[local] Hint Resolve setNodeAttribute_keeps_skeleton setEdgeAttribute_keeps_skeleton
  : preserves.

Lemma listener_keeps_skeleton
    (v : list string * list (EdgeKey * string * string * bool) * N)
    (machineData2 userData : SerializedGraph)
    (animatedZoom animatedUnzoom animatedReset : Q -> Q) (e : Event) :
  edits_graph e = false ->
  preserves (fun w => skeleton (w_graph w) = v)
            (listener machineData2 userData animatedZoom animatedUnzoom animatedReset e).
Proof. destruct e; simpl; intro He; try discriminate; preserves. Qed.

(** X28. Hovering, zooming, clicking and opening the context menu never
    add, drop or rewire anything: after any events other than add-back,
    remove and a change of layout, the graph has the same node keys in
    the same order, the same edges with the same keys, extremities and
    kinds, and the same key generator, whether or not the graph is well
    formed and whether or not a listener threw. *)
Theorem browsing_keeps_skeleton (machineData2 userData : SerializedGraph)
    (animatedZoom animatedUnzoom animatedReset : Q -> Q)
    (events : list Event) (w : World) :
  forallb (fun e => negb (edits_graph e)) events = true ->
  skeleton
    (w_graph (run machineData2 userData animatedZoom animatedUnzoom animatedReset events w))
  = skeleton (w_graph w).
Proof.
  intro H.
  apply (preserves_run (fun w0 => skeleton (w_graph w0) = skeleton (w_graph w))
           machineData2 userData animatedZoom animatedUnzoom animatedReset
           (fun e => negb (edits_graph e))); [| exact H | reflexivity].
  intros e He. apply listener_keeps_skeleton. now apply negb_true_iff.
Qed.

Lemma browsing_keeps_skeleton_witness :
  skeleton
    (w_graph (run machine_document user_document halve double reset browsing hover_world))
  = skeleton (w_graph hover_world).
Proof.
  apply (browsing_keeps_skeleton machine_document user_document halve double reset
           browsing hover_world).
  reflexivity.
Defined.

(** ** The label renderer *)

(** X29. [drawLabel] draws a label at most once.  A node whose display
    label is absent or empty gets none: the function returns before it
    touches the context, whatever the settings; this is the case of every
    node the node reducer greys, whose label it blanks.  Any other label
    is drawn once, after exactly one fill style and one font have been
    set, and what was on the context before stays.  Its width is measured
    on the context as it was on entry, that is with the font of the
    previous drawing, not with the font set for this label.  The fill
    style is the configured color, possibly undefined, when no
    [labelColor.attribute] is configured; otherwise it is the node's value
    under that attribute when that value is truthy, else the configured
    color when that is a non-empty string, else ["#000"]. *)
Theorem drawLabel_draws_at_most_once (N : Label.Numbers)
    (measureText : Label.Context N -> string -> Label.number N)
    (context : Label.Context N) (data : Label.Data N) (settings : Label.Settings N) :
  (truthy_string (NodeAttr.label (Label.display N data)) = false ->
   Label.drawLabel N measureText context data settings = context)
  /\ (forall label : string,
        label <> "" ->
        NodeAttr.label (Label.display N data) = Some label ->
        exists fill : option (Label.value N),
          Label.drawLabel N measureText context data settings
          = context
            ++ [Label.SetFillStyle N fill;
                Label.SetFont N (Label.labelWeight N settings ++ " "
                                 ++ Label.to_text N (Label.labelSize N settings) ++ "px "
                                 ++ Label.labelFont N settings);
                Label.FillText N label
                  (Label.round N
                     (Label.sub N (Label.x N data)
                        (Label.div N (measureText context label) (Label.two N))))
                  (Label.add N (Label.add N (Label.y N data) (Label.size N data))
                             (Label.labelSize N settings))]
          /\ (truthy_string (Label.attribute (Label.labelColor N settings)) = false ->
              fill = option_map (Label.Str N) (Label.color (Label.labelColor N settings)))
          /\ (forall name : string,
                name <> "" ->
                Label.attribute (Label.labelColor N settings) = Some name ->
                (Label.truthy_value N (Label.get N data name) = true ->
                 fill = Label.get N data name)
                /\ (Label.truthy_value N (Label.get N data name) = false ->
                    forall c : string,
                      c <> "" ->
                      Label.color (Label.labelColor N settings) = Some c ->
                      fill = Some (Label.Str N c))
                /\ (Label.truthy_value N (Label.get N data name) = false ->
                    truthy_string (Label.color (Label.labelColor N settings)) = false ->
                    fill = Some (Label.Str N "#000")))).
Proof.
  split.
  - intro H. unfold Label.drawLabel. now rewrite H.
  - intros label Hne Hl. unfold Label.drawLabel. rewrite Hl.
    rewrite (truthy_string_Some _ Hne). cbv [negb to_string].
    eexists. split; [reflexivity|]. split.
    + intro H. now rewrite H.
    + intros name Hname Hattr. rewrite Hattr, (truthy_string_Some _ Hname).
      split; [|split].
      * intro H. now rewrite H.
      * intros H c Hc Hcolor. now rewrite H, Hcolor, (truthy_string_Some _ Hc).
      * intros H Hcolor. now rewrite H, Hcolor.
Qed.

(** A greyed node gets no label; the host is labelled in its own
    color. *)
Lemma drawLabel_draws_at_most_once_witness :
  Label.drawLabel pixels fixed_width []
    (Label.mkData pixels 100%Z 50%Z 8%Z (nodeReducer hovering_h "z" host_data))
    (label_settings (Some "color"))
  = []
  /\ Label.drawLabel pixels fixed_width []
       (Label.mkData pixels 100%Z 50%Z 8%Z host_data) (label_settings (Some "color"))
     = [Label.SetFillStyle pixels (Some (Label.Str pixels "#ff0000"));
        Label.SetFont pixels "normal 14px Arial";
        Label.FillText pixels "host" 88%Z 72%Z].
Proof.
  split.
  - apply (proj1 (drawLabel_draws_at_most_once pixels fixed_width []
                    (Label.mkData pixels 100%Z 50%Z 8%Z
                                  (nodeReducer hovering_h "z" host_data))
                    (label_settings (Some "color")))).
    reflexivity.
  - assert (Hhost : "host" <> "") by discriminate.
    assert (Hcolor : "color" <> "") by discriminate.
    destruct (proj2 (drawLabel_draws_at_most_once pixels fixed_width []
                       (Label.mkData pixels 100%Z 50%Z 8%Z host_data)
                       (label_settings (Some "color")))
                    "host" Hhost eq_refl) as [fill [Hdraw [_ Hfill]]].
    destruct (Hfill "color" Hcolor eq_refl) as [Hown _].
    rewrite (Hown eq_refl) in Hdraw. exact Hdraw.
Defined.

(** ** The index of edges by neighbor is kept in step *)

Lemma indexed_Indexed (g : Graph) : indexed g = true <-> Indexed g.
Proof.
  unfold indexed, Indexed. rewrite !andb_true_iff, !forallb_forall.
  split.
  - intros [[H1 H2] H3]. split; [|split; [|exact H3]].
    + intros e He. apply existsb_exists. now apply H1.
    + intros sl Hsl. apply existsb_exists. now apply H2.
  - intros [H1 [H2 H3]]. split; [split|exact H3].
    + intros e He. apply existsb_exists. now apply H1.
    + intros sl Hsl. apply existsb_exists. now apply H2.
Qed.

Lemma same_slot_own (sl : Slot) (e : EdgeData) :
  same_slot sl (mkSlot (undirected e) (Graphology.source e) (Graphology.target e))
  = connects sl e.
Proof.
  unfold same_slot, connects. simpl.
  destruct (slot_undirected sl), (undirected e); reflexivity.
Qed.

Lemma connects_own (e : EdgeData) :
  connects (mkSlot (undirected e) (Graphology.source e) (Graphology.target e)) e = true.
Proof.
  unfold connects. simpl. rewrite !String.eqb_refl. now destruct (undirected e).
Qed.

Lemma distinct_slots_snoc (l : list Slot) (x : Slot) :
  distinct_slots (l ++ [x])
  = distinct_slots l && negb (existsb (fun y => same_slot y x) l).
Proof.
  induction l as [|a l IH]; simpl; [reflexivity|].
  rewrite existsb_app, IH. simpl.
  destruct (existsb (same_slot a) l), (same_slot a x), (distinct_slots l),
    (existsb (fun y => same_slot y x) l); reflexivity.
Qed.

Lemma distinct_slots_filter (f : Slot -> bool) (l : list Slot) :
  distinct_slots l = true -> distinct_slots (filter f l) = true.
Proof.
  induction l as [|a l IH]; simpl; [auto|].
  intro H. apply andb_true_iff in H. destruct H as [Ha Hl].
  destruct (f a); simpl; [|now apply IH].
  rewrite (IH Hl), andb_true_r. apply negb_true_iff in Ha. apply negb_true_iff.
  destruct (existsb (same_slot a) (filter f l)) eqn:E; [|reflexivity].
  apply existsb_exists in E. destruct E as [y [Hy Hs]].
  apply filter_In in Hy. destruct Hy as [Hy _].
  rewrite <- Ha. symmetry. apply existsb_exists. now exists y.
Qed.

(** Adding an edge. *)
Lemma Indexed_attach (ns ns' : list (string * NodeAttr.t)) (es : list EdgeData)
    (c c' : N) (adj : list Slot) (e : EdgeData) :
  Indexed (mkGraph ns es c adj) ->
  Indexed (mkGraph ns' (es ++ [e]) c' (attach adj e)).
Proof.
  unfold Indexed. simpl. intros [H1 [H2 H3]]. unfold attach.
  destruct (existsb (fun sl => connects sl e) adj) eqn:E.
  - split; [|split; [|exact H3]].
    + intros e' He'. apply in_app_or in He'. destruct He' as [He' | [<- | []]].
      * now apply H1.
      * now apply existsb_exists in E.
    + intros sl Hsl. destruct (H2 sl Hsl) as [e' [He' Hc]].
      exists e'. split; [apply in_or_app; now left | exact Hc].
  - split; [|split].
    + intros e' He'. apply in_app_or in He'. destruct He' as [He' | [<- | []]].
      * destruct (H1 e' He') as [sl [Hsl Hc]].
        exists sl. split; [apply in_or_app; now left | exact Hc].
      * eexists. split; [apply in_or_app; right; left; reflexivity | apply connects_own].
    + intros sl Hsl. apply in_app_or in Hsl. destruct Hsl as [Hsl | [<- | []]].
      * destruct (H2 sl Hsl) as [e' [He' Hc]].
        exists e'. split; [apply in_or_app; now left | exact Hc].
      * exists e. split; [apply in_or_app; right; now left | apply connects_own].
    + rewrite distinct_slots_snoc, H3. simpl. apply negb_true_iff.
      rewrite <- E. clear. induction adj as [|sl adj IH]; simpl; [reflexivity|].
      now rewrite same_slot_own, IH.
Qed.

(** Dropping edges. *)
Lemma Indexed_detach (ns ns' : list (string * NodeAttr.t)) (es es' : list EdgeData)
    (c c' : N) (adj : list Slot) :
  (forall e, In e es' -> In e es) ->
  Indexed (mkGraph ns es c adj) ->
  Indexed (mkGraph ns' es' c' (detach es' adj)).
Proof.
  unfold Indexed, detach. simpl. intros Hsub [H1 [H2 H3]].
  split; [|split].
  - intros e He. destruct (H1 e (Hsub e He)) as [sl [Hsl Hc]].
    exists sl. split; [|exact Hc]. apply filter_In. split; [exact Hsl|].
    apply existsb_exists. now exists e.
  - intros sl Hsl. apply filter_In in Hsl. destruct Hsl as [_ Hsl].
    now apply existsb_exists in Hsl.
  - now apply distinct_slots_filter.
Qed.

(** Writing an attribute of an edge. *)
Lemma connects_update_edge (sl : Slot) (k : EdgeKey) (f : EdgeAttr.t -> EdgeAttr.t)
    (e : EdgeData) :
  connects sl (update_edge k f e) = connects sl e.
Proof. unfold update_edge. now destruct (key_eqb (key e) k). Qed.

Lemma Indexed_update_edge (ns ns' : list (string * NodeAttr.t)) (es : list EdgeData)
    (c c' : N) (adj : list Slot) (k : EdgeKey) (f : EdgeAttr.t -> EdgeAttr.t) :
  Indexed (mkGraph ns es c adj) ->
  Indexed (mkGraph ns' (map (update_edge k f) es) c' adj).
Proof.
  unfold Indexed. simpl. intros [H1 [H2 H3]]. split; [|split; [|exact H3]].
  - intros e He. apply in_map_iff in He. destruct He as [e0 [<- He0]].
    destruct (H1 e0 He0) as [sl [Hsl Hc]].
    exists sl. split; [exact Hsl|]. now rewrite connects_update_edge.
  - intros sl Hsl. destruct (H2 sl Hsl) as [e [He Hc]].
    exists (update_edge k f e). split; [now apply in_map|].
    now rewrite connects_update_edge.
Qed.

Lemma Indexed_nodes (ns ns' : list (string * NodeAttr.t)) (es : list EdgeData)
    (c c' : N) (adj : list Slot) :
  Indexed (mkGraph ns es c adj) -> Indexed (mkGraph ns' es c' adj).
Proof. exact (fun H => H). Qed.


Lemma Indexed_addEdgeInternal (g g' : Graph) (given : option string) (undir : bool)
    (src tgt : string) (a : EdgeAttr.t) (k : EdgeKey) :
  Indexed g ->
  addEdgeInternal g given undir src tgt a = Normal (k, g') ->
  Indexed g'.
Proof.
  intros H. destruct g as [ns es c adj]. unfold addEdgeInternal.
  destruct (negb (hasNode _ src)); [discriminate|].
  destruct (negb (hasNode _ tgt)); [discriminate|].
  destruct given as [s|].
  - destruct (hasEdge _ (Given s)); [discriminate|].
    intro E. injection E as _ <-. simpl. now apply Indexed_attach with (ns := ns) (c := c).
  - intro E. injection E as _ <-. simpl. now apply Indexed_attach with (ns := ns) (c := c).
Qed.

Lemma Indexed_import_nodes (l : list (string * NodeAttr.t)) (g : Graph) :
  Indexed g -> Indexed (fst (import_nodes l g)).
Proof.
  revert g. induction l as [|[k a] l IH]; intros g H; simpl; [exact H|].
  unfold Graphology.addNode. destruct (hasNode g k); simpl; [exact H|].
  apply IH. destruct g as [ns es c adj]. exact H.
Qed.

Lemma Indexed_import_edges (l : list SerializedEdge) (g : Graph) :
  Indexed g -> Indexed (fst (import_edges l g)).
Proof.
  revert g. induction l as [|e l IH]; intros g H; simpl; [exact H|].
  destruct (addEdgeInternal g (s_key e) (s_undirected e) (s_source e) (s_target e)
              (s_attributes e)) as [[k g']|err] eqn:E; simpl; [|exact H].
  apply IH. exact (Indexed_addEdgeInternal _ _ _ _ _ _ _ _ H E).
Qed.

Lemma Indexed_import (data : SerializedGraph) (g : Graph) :
  Indexed g -> Indexed (fst (Graphology.import data g)).
Proof.
  intro H. unfold Graphology.import.
  pose proof (Indexed_import_nodes (s_nodes data) g H) as Hn.
  destruct (import_nodes (s_nodes data) g) as [g' [u|err]]; simpl in *.
  - now apply Indexed_import_edges.
  - exact Hn.
Qed.

Lemma mutate_keeps_indexed (f : Graph -> Completion Graph) :
  (forall g g', Indexed g -> f g = Normal g' -> Indexed g') ->
  preserves (fun w => indexed (w_graph w) = true) (G.mutate f).
Proof.
  intros Hf w H. unfold G.mutate, bind, get_graph, of_completion, put_graph. simpl.
  destruct (f (w_graph w)) as [g'|e] eqn:E; simpl; [|exact H].
  apply indexed_Indexed. apply indexed_Indexed in H. exact (Hf _ _ H E).
Qed.

Lemma setNodeAttribute_keeps_indexed (node name : string) (f : NodeAttr.t -> NodeAttr.t) :
  preserves (fun w => indexed (w_graph w) = true) (G.setNodeAttribute node name f).
Proof.
  unfold G.setNodeAttribute. apply preserves_bind.
  - apply mutate_keeps_indexed. intros [ns es c adj] g' H.
    unfold Graphology.setNodeAttribute. destruct (hasNode _ node); [|discriminate].
    intro E. injection E as <-. exact H.
  - intros _ w H. exact H.
Qed.

Lemma setEdgeAttribute_keeps_indexed (edge : EdgeKey) (name : string)
    (f : EdgeAttr.t -> EdgeAttr.t) :
  preserves (fun w => indexed (w_graph w) = true) (G.setEdgeAttribute edge name f).
Proof.
  unfold G.setEdgeAttribute. apply preserves_bind.
  - apply mutate_keeps_indexed. intros [ns es c adj] g' H.
    unfold Graphology.setEdgeAttribute. destruct (hasEdge _ edge); [|discriminate].
    intro E. injection E as <-. simpl. now apply Indexed_update_edge with (ns := ns) (c := c).
  - intros _ w H. exact H.
Qed.

Lemma addNode_keeps_indexed (node : string) (a : NodeAttr.t) :
  preserves (fun w => indexed (w_graph w) = true) (G.addNode node a).
Proof.
  apply mutate_keeps_indexed. intros [ns es c adj] g' H.
  unfold Graphology.addNode. destruct (hasNode _ node); [discriminate|].
  intro E. injection E as <-. exact H.
Qed.

Lemma dropEdge_keeps_indexed (edge : EdgeKey) :
  preserves (fun w => indexed (w_graph w) = true) (G.dropEdge edge).
Proof.
  apply mutate_keeps_indexed. intros [ns es c adj] g' H.
  unfold Graphology.dropEdge. destruct (hasEdge _ edge); [|discriminate].
  intro E. injection E as <-. simpl.
  apply Indexed_detach with (ns := ns) (es := es) (c := c); [|exact H].
  intros e He. apply filter_In in He. tauto.
Qed.

Lemma dropNode_keeps_indexed (node : string) :
  preserves (fun w => indexed (w_graph w) = true) (G.dropNode node).
Proof.
  apply mutate_keeps_indexed. intros [ns es c adj] g' H.
  unfold Graphology.dropNode. destruct (hasNode _ node); [|discriminate].
  intro E. injection E as <-. simpl.
  apply Indexed_detach with (ns := ns) (es := es) (c := c); [|exact H].
  intros e He. apply filter_In in He. tauto.
Qed.

Lemma addEdge_keeps_indexed (src tgt : option string) (a : EdgeAttr.t) :
  preserves (fun w => indexed (w_graph w) = true) (G.addEdge src tgt a).
Proof.
  intros w H. unfold G.addEdge, bind, get_graph, of_completion, put_graph, ret,
    Graphology.addEdge. simpl.
  destruct (addEdgeInternal (w_graph w) None false (to_string src) (to_string tgt) a)
    as [[k g']|e] eqn:E; simpl; [|exact H].
  apply indexed_Indexed. apply indexed_Indexed in H.
  exact (Indexed_addEdgeInternal _ _ _ _ _ _ _ _ H E).
Qed.

Lemma clear_keeps_indexed : preserves (fun w => indexed (w_graph w) = true) G.clear.
Proof. intros w _. reflexivity. Qed.

Lemma import_keeps_indexed (data : SerializedGraph) :
  preserves (fun w => indexed (w_graph w) = true) (G.import data).
Proof.
  intros w H. unfold G.import. simpl.
  apply indexed_Indexed. apply Indexed_import. now apply indexed_Indexed.
Qed.

#[local] Hint Resolve setNodeAttribute_keeps_indexed setEdgeAttribute_keeps_indexed
  addNode_keeps_indexed dropEdge_keeps_indexed dropNode_keeps_indexed
  addEdge_keeps_indexed clear_keeps_indexed import_keeps_indexed : preserves.



